(** * Alfred: the order-fulfilment automation engine

    A shallow embedding of the ordering engine of the Alfred lunch bot:
    the Seamless variant ([src/perform.js]), the Grubhub variant
    ([src/unnamed/part_001]) and the catalog lookups of
    [src/data_util.mjs]; with them the stats store
    ([src/unnamed/part_000]), the splitting of an order into items
    ([src/parser.js]) and the clock of the order window
    ([src/commander.js]).

    The code drives a headless browser.  Every [await]ed interaction is
    modelled as a computation in a state-and-exception monad: the state
    holds the external world (the web site, the user directory, the
    stores) and a trace of the commands the program has issued; a JS
    exception is the [Throw] result, and the state reached when it was
    raised is kept, as it is in JS.

    Modelling conventions.
    - JS numbers are exact rationals ([Q]); [NaN], infinities and
      rounding are outside the model.  [toFixed(2)] formatting inside a
      message is not applied: a message keeps its numeric parameters.
    - JS strings are [string]s; [toLowerCase] acts on ASCII letters.
    - A JS object used as a map is an association list in insertion
      order (what [Object.keys] yields for keys that are not array
      indices).
    - [LOG.log]/[console.log] calls are not modelled.

    Layout.  The model comes first: the JS values, the monad, the
    retry loop shared by the variants ([Pipeline]), the collaborators
    ([Env]), the catalog lookups ([DataUtil]), the two variants
    ([Grubhub], [Seamless]), the stats store ([Stats]), the splitter
    ([Parser]), the clock ([Commander]) and scripted collaborators for
    concrete runs ([Fixture], [Ledger]).  The properties follow: the
    retry loop (C3, C5, C6), fuzzy matching (C2), the Grubhub steps
    (C4, C10), the runs of [go] (C7, C8, C9) and the budget check
    (C1); then further properties of the engine (X1 to X12), of the
    helpers and the stores (X13 to X25), and of the runs again (X26 to
    X29). *)

From Stdlib Require Import List String Ascii Bool Arith ZArith QArith Qround Lia.
From Stdlib Require Import RelationClasses Sorted.
Import ListNotations.

Local Close Scope Q_scope.
Local Open Scope string_scope.
Local Open Scope list_scope.

(** ** JavaScript values used by the engine *)

Module Js.

(** Exceptions: the code only ever distinguishes [TypeError] from the
    rest ([e instanceof TypeError]) and prints them ([e.toString()]). *)
Inductive Exn : Type :=
| TypeError (msg : string)
| Error (msg : string).

Definition toString (e : Exn) : string :=
  match e with
  | TypeError msg => "TypeError: " ++ msg
  | Error msg => "Error: " ++ msg
  end.

Definition isTypeError (e : Exn) : bool :=
  match e with
  | TypeError _ => true
  | Error _ => false
  end.

(** [c.toLowerCase()] on one ASCII character. *)
Definition lowerChar (c : ascii) : ascii :=
  let n := nat_of_ascii c in
  if (65 <=? n)%nat && (n <=? 90)%nat then ascii_of_nat (n + 32) else c.

(** [s.toLowerCase()] *)
Fixpoint toLowerCase (s : string) : string :=
  match s with
  | EmptyString => EmptyString
  | String c rest => String (lowerChar c) (toLowerCase rest)
  end.

(** [text.includes(q)]: [q] occurs in [text] as a substring. *)
Fixpoint includes (text q : string) : bool :=
  if String.prefix q text then true
  else match text with
       | EmptyString => false
       | String _ rest => includes rest q
       end.

(** A JS object used as a map from strings, in insertion order. *)
Definition Object (V : Type) : Type := list (string * V).

(** [o[k]] ([None] is [undefined]) *)
Fixpoint get {V : Type} (o : Object V) (k : string) : option V :=
  match o with
  | [] => None
  | (k', v) :: rest => if String.eqb k' k then Some v else get rest k
  end.

(** [o[k] = v]: an existing key keeps its place. *)
Fixpoint set {V : Type} (o : Object V) (k : string) (v : V) : Object V :=
  match o with
  | [] => [(k, v)]
  | (k', v') :: rest =>
      if String.eqb k' k then (k', v) :: rest else (k', v') :: set rest k v
  end.

(** [Object.keys(o)] *)
Definition keys {V : Type} (o : Object V) : list string := map fst o.

(** [a > b] on numbers *)
Definition gt (a b : Q) : bool := negb (Qle_bool a b).

(** [Math.max.apply(null, l)]; [None] is [-Infinity], the value for
    an empty array. *)
Definition max (l : list Q) : option Q :=
  fold_left
    (fun m a => match m with
                | None => Some a
                | Some b => Some (if gt a b then a else b)
                end) l None.

(** [m > c] where [m] comes from [Math.max] *)
Definition maxExceeds (m : option Q) (c : Q) : bool :=
  match m with
  | None => false
  | Some q => gt q c
  end.

(** [l.reduce((m, a) => m + a, 0)] *)
Definition sum (l : list Q) : Q := fold_left Qplus l 0%Q.

Definition isSpace (c : ascii) : bool :=
  let n := nat_of_ascii c in
  ((n =? 32) || (9 <=? n) && (n <=? 13))%nat.

Fixpoint trimStart (s : string) : string :=
  match s with
  | EmptyString => EmptyString
  | String c rest => if isSpace c then trimStart rest else s
  end.

Fixpoint trimEnd (s : string) : string :=
  match s with
  | EmptyString => EmptyString
  | String c rest =>
      match trimEnd rest with
      | EmptyString => if isSpace c then EmptyString else String c EmptyString
      | rest' => String c rest'
      end
  end.

(** [s.trim()], on ASCII white space *)
Definition trim (s : string) : string := trimEnd (trimStart s).

(** [s.split(sep)] for a separator of one character *)
Fixpoint split (s : string) (sep : ascii) : list string :=
  match s with
  | EmptyString => [EmptyString]
  | String c rest =>
      if Ascii.eqb c sep then EmptyString :: split rest sep
      else match split rest sep with
           | [] => [String c EmptyString]
           | word :: words => String c word :: words
           end
  end.

(** [arr[i]] for an integer index [i] ([None] is [undefined]). *)
Definition index {A : Type} (l : list A) (i : Z) : option A :=
  if (i <? 0)%Z then None else nth_error l (Z.to_nat i).

End Js.

Import Js.

(** ** The state-and-exception monad *)

Inductive Res (A : Type) : Type :=
| Ok (a : A)
| Throw (e : Exn).

Arguments Ok {A} a.
Arguments Throw {A} e.

Definition M (S A : Type) : Type := S -> Res A * S.

Definition ret {S A : Type} (a : A) : M S A := fun s => (Ok a, s).

Definition throw {S A : Type} (e : Exn) : M S A := fun s => (Throw e, s).

Definition bind {S A B : Type} (m : M S A) (k : A -> M S B) : M S B :=
  fun s =>
    match m s with
    | (Ok a, s') => k a s'
    | (Throw e, s') => (Throw e, s')
    end.

(** [try { m } catch (e) { h e }] *)
Definition tryCatch {S A : Type} (m : M S A) (h : Exn -> M S A) : M S A :=
  fun s =>
    match m s with
    | (Ok a, s') => (Ok a, s')
    | (Throw e, s') => h e s'
    end.

Declare Scope monad_scope.
Delimit Scope monad_scope with monad.
Notation "x <- m ;; k" := (bind m (fun x => k))
  (at level 61, m at next level, right associativity) : monad_scope.
Notation "m ;; k" := (bind m (fun _ => k))
  (at level 61, right associativity) : monad_scope.
Local Open Scope monad_scope.

(** [for (const x of l) { body x }] *)
Fixpoint forEach {S A : Type} (l : list A) (body : A -> M S unit) : M S unit :=
  match l with
  | [] => ret tt
  | x :: rest => body x ;; forEach rest body
  end.

(** ** Users, messages and step outputs *)

(** A record of the user directory ([Users.getUser]).  An absent
    [slackId] or [username] is the empty string, which JS treats as
    false like [undefined]. *)
Module Users.

Record User : Type := mkUser {
  username : string;
  slackId : string;
  name : string;
  phone : string
}.

End Users.

Abbreviation User := Users.User.

(** An entry of an [errors] array.  [ExceededBudget excess userAt amount]
    is the template
    [`Order exceeded budget by $${excess}. ${userAt}'s order is the highest at $${amount.toFixed(2)}.`]
    with its three parameters. *)
Inductive Msg : Type :=
| Text (s : string)
| ExceededBudget (excess : Q) (userAt : string) (amount : Q).

(** The objects the steps and [orderFromRestaurant] return: every field
    is optional, as in the code ([None] is an absent field). *)
Record Obj : Type := mkObj {
  retry : option bool;
  errors : option (list Msg);
  orderAmounts : option (Object Q);
  user : option User
}.

(** [{}] *)
Definition emptyObj : Obj := mkObj None None None None.

(** [{ retry, errors }] *)
Definition failure (r : bool) (es : list Msg) : Obj :=
  mkObj (Some r) (Some es) None None.

Definition orElse {A : Type} (a b : option A) : option A :=
  match a with
  | Some _ => a
  | None => b
  end.

(** [Object.assign(target, source)]: the fields present in [source]
    overwrite those of [target]. *)
Definition assign (target source : Obj) : Obj :=
  mkObj (orElse (retry source) (retry target))
        (orElse (errors source) (errors target))
        (orElse (orderAmounts source) (orderAmounts target))
        (orElse (user source) (user target)).

(** [stepOutput.errors && stepOutput.retry]: a failure that asks for a
    retry. *)
Definition isRetryable (o : Obj) : bool :=
  match errors o, retry o with
  | Some _, Some true => true
  | _, _ => false
  end.

Definition INITIAL_RETRIES : nat := 2.

(** ** The step pipeline and its retry loop ([orderFromRestaurant])

    Both variants share the body of [orderFromRestaurant] word for
    word; they differ in the [steps] array and in [DRY_RUN]-dependent
    submission, which are the parameters here.

    [steps[i]] is a closure bound to [page] and to the batch.  The
    [fillNames] closure is also bound to the [result] object, and
    [Object.assign(result, stepOutput)] mutates that same object, so a
    step sees the current [result]: a step is a function of it. *)

Module Pipeline.

Section Steps.

Context {S : Type}.

Definition Step : Type := Obj -> M S (option Obj).

Variable steps : list Step.
Variable submit : M S unit.

(** The [for] loop over [steps], from the current step on, and the
    code after it.  [again] is the recursive call
    [orderFromRestaurant(page, restaurant, userOrders, retries - 1)],
    present when [retries > 0]. *)
Fixpoint runSteps (again : option (M S Obj)) (todo : list Step)
    (result : Obj) : M S Obj :=
  match todo with
  | [] => submit ;; ret result
  | step :: rest =>
      stepOutput <- step result ;;
      match stepOutput with
      | None => runSteps again rest result
      | Some out =>
          match errors out with
          | Some _ =>
              match retry out, again with
              | Some true, Some retryCall => retryCall
              | _, _ => ret out
              end
          | None => runSteps again rest (assign result out)
          end
      end
  end.

Definition unknownFailure : Obj :=
  mkObj None (Some [Text "Order failed for unknown reason."]) None None.

Fixpoint orderFromRestaurant (retries : nat) : M S Obj :=
  tryCatch
    (runSteps
       (match retries with
        | O => None
        | Datatypes.S r => Some (orderFromRestaurant r)
        end) steps emptyObj)
    (fun _ => ret unknownFailure).

(** One run of the step sequence: the call with no retries left. *)
Definition attempt : M S Obj := orderFromRestaurant 0.

(** The steps of [pre] all run and none halts the pipeline: from
    [result] in state [s] they lead to [result'] in state [s']. *)
Inductive continues : list Step -> Obj -> S -> Obj -> S -> Prop :=
| continues_nil result s : continues [] result s result s
| continues_undefined step rest result s s1 result' s' :
    step result s = (Ok None, s1) ->
    continues rest result s1 result' s' ->
    continues (step :: rest) result s result' s'
| continues_output step rest result s out s1 result' s' :
    step result s = (Ok (Some out), s1) ->
    errors out = None ->
    continues rest (assign result out) s1 result' s' ->
    continues (step :: rest) result s result' s'.

(** An exception escapes to the [catch] of [orderFromRestaurant]: a
    step reached by the loop throws [e], or the submission does. *)
Inductive raises : list Step -> Obj -> S -> Exn -> S -> Prop :=
| raises_step pre step post result s result1 s1 e s' :
    continues pre result s result1 s1 ->
    step result1 s1 = (Throw e, s') ->
    raises (pre ++ step :: post) result s e s'
| raises_submit todo result s result1 s1 e s' :
    continues todo result s result1 s1 ->
    submit s1 = (Throw e, s') ->
    raises todo result s e s'.

End Steps.

End Pipeline.

(** ** The collaborators: browser page, user directory, stores *)

(** A puppeteer [ElementHandle]. *)
Definition Handle : Type := nat.

(** The argument of [page.waitFor]: milliseconds, a selector, or a
    predicate evaluated in the page (kept by its source text). *)
Inductive WaitArg : Type :=
| Ms (n : nat)
| Selector (sel : string)
| Predicate (src : string).

(** The commands the engine sends to the page.  Each may throw. *)
Inductive Cmd : Type :=
| Goto (url : string)                         (* page.goto(url) *)
| Click (sel : string)                        (* page.click(sel) *)
| ClickElement (h : Handle) (clickCount : nat) (* h.click({ clickCount }) *)
| EvalClick (sel : string)                    (* page.$eval(sel, e => e.click()) *)
| EvalClickElement (h : Handle)               (* page.evaluate(e => e.click(), h) *)
| KeyboardType (text : string)                (* page.keyboard.type(text) *)
| ElementType (h : Handle) (text : string)    (* h.type(text) *)
| SetValue (sel value : string)               (* page.$eval(sel, (e, v) => e.value = v, value) *)
| Select (sel value : string)                 (* page.select(sel, value) *)
| WaitFor (w : WaitArg)                       (* page.waitFor(w) *)
| WaitForNavigation                           (* page.waitForNavigation() *)
| ToggleAddUser                               (* page.evaluate(() => toggleAddUser(true, true)) *)
| Pdf (path : string).                        (* page.pdf({ path }) *)

(** What the engine reads from its collaborators.  Each may throw. *)
Inductive Query : Type -> Type :=
| QueryAll (sel : string) : Query (list Handle)       (* page.$$(sel) *)
| QueryOne (sel : string) : Query (option Handle)     (* page.$(sel) *)
| InnerText (h : Handle) : Query string               (* page.evaluate(e => e.innerText, h) *)
| EvalNumbers (sel : string) : Query (list Q)         (* page.$$eval(sel, i => i.map(e => Number(...))) *)
| EvalEnabled (sel : string) : Query bool             (* page.$eval(sel, e => !e.disabled) *)
| EvalAttribute (sel attr : string) : Query string    (* page.$eval(sel, e => e.getAttribute(attr)) *)
| FoodBevTotal : Query Q                              (* foodBevTotal(page) *)
| TimeToString (orderTime : nat) : Query string       (* timeToString(), which reads the clock *)
| Random : Query Q                                    (* Math.random() *)
| GetUser (id : option string) : Query (option User). (* Users.getUser(id); None is null *)

(** An item of an order: its name and its options. *)
Definition Item : Type := (string * list string)%type.

(** Calls to the persistent stores. *)
Inductive Service : Type :=
| RecordStats (id restaurant : string) (amount : option Q)
    (items : list Item) (isCallee : bool)     (* Stats.recordStats(...) *)
| SetCallee (id : string).                    (* Orders.setCallee(id) *)

(** The behaviour of the collaborators over a world [W]. *)
Record Env (W : Type) : Type := mkEnv {
  exec : Cmd -> W -> Res unit * W;
  ask : forall A : Type, Query A -> W -> Res A * W;
  serve : Service -> W -> Res unit * W
}.

Arguments exec {W} _ _ _.
Arguments ask {W} _ {A} _ _.
Arguments serve {W} _ _ _.

(** The state of a pipeline: the world and the commands sent so far. *)
Record PSt (W : Type) : Type := mkPSt {
  world : W;
  trace : list Cmd
}.

Arguments mkPSt {W} _ _.
Arguments world {W} _.
Arguments trace {W} _.

(** The state of a run ([go]): the pipeline state, the calls made to
    the stores, the local [results] array and what was published
    ([Slack.sendFinishedMessage(results, DRY_RUN)] or
    [console.log(results)]). *)
Record RSt (W BR : Type) : Type := mkRSt {
  page : PSt W;
  calls : list Service;
  results : list BR;
  published : option (list BR)
}.

Arguments mkRSt {W BR} _ _ _ _.
Arguments page {W BR} _.
Arguments calls {W BR} _.
Arguments results {W BR} _.
Arguments published {W BR} _.

(** Command-line arguments and module constants. *)
Record Config : Type := mkConfig {
  priv_username : string;
  priv_password : string;
  DRY_RUN : bool;
  POST_TO_SLACK : bool;
  ORDER_TIME_SEAMLESS : string;
  ORDER_TIME_GRUBHUB : nat;
  dirname : string
}.

Section Effects.

Context {W : Type} (env : Env W).

(** Send a command to the page and record it. *)
Definition run (c : Cmd) : M (PSt W) unit :=
  fun s =>
    let (r, w) := exec env c (world s) in
    (r, mkPSt w (trace s ++ [c])).

Definition query {A : Type} (q : Query A) : M (PSt W) A :=
  fun s =>
    let (r, w) := ask env q (world s) in
    (r, mkPSt w (trace s)).

Context {BR : Type}.

(** A pipeline computation inside a run. *)
Definition liftP {A : Type} (m : M (PSt W) A) : M (RSt W BR) A :=
  fun s =>
    let (r, p) := m (page s) in
    (r, mkRSt p (calls s) (results s) (published s)).

(** Call a store and record the call. *)
Definition call (c : Service) : M (RSt W BR) unit :=
  fun s =>
    let (r, w) := serve env c (world (page s)) in
    (r, mkRSt (mkPSt w (trace (page s))) (calls s ++ [c]) (results s)
          (published s)).

(** [results = []] *)
Definition resetResults : M (RSt W BR) unit :=
  fun s => (Ok tt, mkRSt (page s) (calls s) [] (published s)).

(** [results.push(r)] *)
Definition push (r : BR) : M (RSt W BR) unit :=
  fun s => (Ok tt, mkRSt (page s) (calls s) (results s ++ [r]) (published s)).

(** The results are handed over at the end of the run. *)
Definition publish : M (RSt W BR) unit :=
  fun s => (Ok tt, mkRSt (page s) (calls s) (results s) (Some (results s))).

End Effects.

(** [try { m } catch (e) { return ... }] followed by more code: the
    exception caught, if any. *)
Definition caught {S : Type} (m : M S unit) : M S (option Exn) :=
  tryCatch (m ;; ret None) (fun e => ret (Some e)).

(** [await Promise.all(l.map(async x => ...))]: every call is started,
    in order; the await throws the first failure. *)
Fixpoint promiseAll {S : Type} (ms : list (M S unit)) : M S unit :=
  match ms with
  | [] => ret tt
  | m :: rest =>
      first <- caught m ;;
      others <- caught (promiseAll rest) ;;
      match first, others with
      | Some e, _ => throw e
      | None, Some e => throw e
      | None, None => ret tt
      end
  end.

(** ** Helpers shared by the two variants *)

Definition isAlphanumeric (c : ascii) : bool :=
  let n := nat_of_ascii c in
  ((48 <=? n) && (n <=? 57) || (65 <=? n) && (n <=? 90)
   || (97 <=? n) && (n <=? 122))%nat.

(** [n.replace(/[\W_]+/g, "_")]; [inRun] holds inside a run of
    characters that are not alphanumeric. *)
Fixpoint replaceNotAlphan (n : string) (inRun : bool) : string :=
  match n with
  | EmptyString => EmptyString
  | String c rest =>
      if isAlphanumeric c then String c (replaceNotAlphan rest false)
      else if inRun then replaceNotAlphan rest true
           else String "_" (replaceNotAlphan rest true)
  end.

Fixpoint dropLeadingUnderscores (s : string) : string :=
  match s with
  | String "_" rest => dropLeadingUnderscores rest
  | _ => s
  end.

Fixpoint dropTrailingUnderscores (s : string) : string :=
  match s with
  | EmptyString => EmptyString
  | String c rest =>
      match dropTrailingUnderscores rest with
      | EmptyString => if Ascii.eqb c "_" then EmptyString else String c EmptyString
      | rest' => String c rest'
      end
  end.

Definition sanitizeFilename (n : string) : string :=
  toLowerCase
    (dropTrailingUnderscores (dropLeadingUnderscores (replaceNotAlphan n false))).

(** The memo of the search for the most expensive order:
    [{ username, amount }] ([{ slackId, amount }] on Grubhub). *)
Record MaxOrder : Type := mkMaxOrder {
  who : option string;
  amount : Q
}.

(** [Object.keys(orderAmounts).reduce((memo, k) =>
       orderAmounts[k] > memo.amount ? { k, amount: orderAmounts[k] } : memo,
     { amount: 0 })] *)
Definition maxOrder (orderAmounts : Object Q) : MaxOrder :=
  fold_left
    (fun memo k =>
       match get orderAmounts k with
       | Some a => if gt a (amount memo) then mkMaxOrder (Some k) a else memo
       | None => memo
       end)
    (keys orderAmounts) (mkMaxOrder None 0%Q).

(** [(orderTotal - n * 25)] with [orderTotal] the sum of the allocations *)
Definition excessOf (amountAllocated : list Q) (n : nat) : Q :=
  (sum amountAllocated - inject_Z (Z.of_nat n) * 25)%Q.

(** How many times the commands of [t] navigate to [url]. *)
Definition visits (url : string) (t : list Cmd) : nat :=
  List.length
    (filter (fun c => match c with
                      | Goto u => String.eqb u url
                      | _ => false
                      end) t).

(** The texts the commands of [t] type on the keyboard. *)
Definition typedTexts (t : list Cmd) : list string :=
  flat_map (fun c => match c with
                     | KeyboardType text => [text]
                     | _ => []
                     end) t.

(** The "Submit order" block that ends [orderFromRestaurant]. *)
Definition submit {W : Type} (env : Env W) (cfg : Config) (restaurant : string)
    : M (PSt W) unit :=
  let confirmationPath :=
    (dirname cfg ++ "/confirmations/" ++ sanitizeFilename restaurant ++ ".pdf")%string in
  if DRY_RUN cfg then run env (Pdf confirmationPath)
  else
    run env (Click "a.findfoodbutton") ;;
    run env WaitForNavigation ;;
    run env (Pdf confirmationPath).

Definition confirmationUrlOf (restaurant : string) : string :=
  ("https://alfred.ajay-gandhi.com/confirmations/"
   ++ sanitizeFilename restaurant ++ ".pdf")%string.

(** ** Catalog lookups ([src/data_util.mjs]) *)

Module DataUtil.

Record MenuItem : Type := mkMenuItem {
  name : string;
  price : Q
}.

Record Restaurant : Type := mkRestaurant {
  menu : list MenuItem
}.

Section Catalog.

(** [menu_data.json]: restaurant name to restaurant data. *)
Variable MENU_DATA : Object Restaurant.

Definition REST_NAMES : list string := keys MENU_DATA.

(** Fuzzy search for a restaurant with [rest_name].  [None] is the
    empty object the reduction starts from. *)
Definition find_restaurant_by_name (rest_name : string) : option Restaurant :=
  fold_left
    (fun memo name =>
       if includes (toLowerCase name) (toLowerCase rest_name)
       then get MENU_DATA name
       else memo)
    REST_NAMES None.

(** Fuzzy search for an item with [item_name] at the given restaurant;
    [MENU_DATA[restaurant].menu] throws when the restaurant is not a key. *)
Definition find_item_by_name (restaurant item_name : string)
    : Res (option MenuItem) :=
  match get MENU_DATA restaurant with
  | None => Throw (TypeError "Cannot read property 'menu' of undefined")
  | Some r =>
      Ok (fold_left
            (fun memo item =>
               if includes (toLowerCase (name item)) (toLowerCase item_name)
               then Some item
               else memo)
            (menu r) None)
  end.

End Catalog.

End DataUtil.

(** ** The Grubhub variant ([src/unnamed/part_001])

    CSS selectors are written with single quotes. *)

Module Grubhub.

Record UserOrder : Type := mkUserOrder {
  slackId : string;
  items : list Item;
  isDonor : bool
}.

Record OrderSet : Type := mkOrderSet {
  restaurant : string;
  users : list UserOrder
}.

(** An element of [results]: [{ successful: false, restaurant, users,
    errors }] or [{ successful: true, restaurant, userCall,
    confirmationUrl }]. *)
Inductive BatchResult : Type :=
| Failed (restaurant : string) (users : list UserOrder) (errors : list Msg)
| Succeeded (restaurant : string) (userCall : string) (confirmationUrl : string).

Definition restaurantOf (r : BatchResult) : string :=
  match r with
  | Failed restaurant _ _ => restaurant
  | Succeeded restaurant _ _ => restaurant
  end.

Definition URLS_login : string := "https://www.grubhub.com/login".
Definition URLS_setupRest : string := "https://www.grubhub.com/lets-eat".

Section Steps.

Context {W : Type} (env : Env W) (cfg : Config).

(** [Transform.simplifyOption] and this variant's [Slack.atUser] are
    not among the sources; the latter is applied to
    [maxOrder.slackId], which may be [undefined] ([None]). *)
Variable simplifyOption : string -> string.
Variable atUser : option string -> string.

Definition loginToGrubhub : M (PSt W) unit :=
  run env (Goto URLS_login) ;;
  run env (SetValue "input[name='email']" (priv_username cfg)) ;;
  run env (SetValue "input[name='password']" (priv_password cfg)) ;;
  run env (Click "form.signInForm button") ;;
  run env WaitForNavigation.

Definition setupRestaurant (restaurant : string) : M (PSt W) (option Obj) :=
  tryCatch
    (run env (Goto URLS_setupRest) ;;
     run env (WaitFor (Ms 1000)) ;;
     (* Time *)
     run env (Click "div.whenForSelector-btn") ;;
     run env (WaitFor (Selector "section.s-dialog-body")) ;;
     run env (WaitFor (Ms 300)) ;;
     time <- query env (TimeToString (ORDER_TIME_GRUBHUB cfg)) ;;
     run env (Select "section.s-dialog-body select" time) ;;
     run env (WaitFor (Ms 500)) ;;
     run env (Click "section.s-dialog-body button") ;;
     run env (WaitFor (Ms 500)) ;;
     (* Restaurant *)
     run env (Click "div.startOrder-search-input input") ;;
     run env (WaitFor (Ms 300)) ;;
     run env (Click "div.navbar-menu-search input") ;;
     run env (KeyboardType restaurant) ;;
     run env (WaitFor (Selector
       "section.search-autocomplete-container div.searchAutocomplete-xsFixed")) ;;
     run env (Click "div.ghs-autocompleteResult-container:first-child") ;;
     (* Wait for items to appear *)
     run env (WaitFor (Predicate "document.querySelectorAll('div.menuItem').length > 0")) ;;
     run env (WaitFor (Ms 1000)) ;;
     ret None)
    (fun e =>
       if isTypeError e
       then ret (Some (failure false
                   [Text "Restaurant does not exist or is closed at this time."]))
       else ret (Some (failure true [Text (toString e)]))).

(** The loop over [itemLinks]: the first anchor whose trimmed text is
    the item is clicked and the loop is left.  The click is not
    awaited, so its failure does not reach the surrounding [try]. *)
Fixpoint clickItem (item : string) (itemLinks : list Handle) : M (PSt W) unit :=
  match itemLinks with
  | [] => ret tt
  | anchor :: rest =>
      text <- query env (InnerText anchor) ;;
      if String.eqb (trim text) item
      then tryCatch (run env (ClickElement anchor 1)) (fun _ => ret tt)
      else clickItem item rest
  end.

(** The loop over [optionLinks] for one option. *)
Fixpoint selectOption (opt : string) (optionLinks : list Handle) : M (PSt W) unit :=
  match optionLinks with
  | [] => ret tt
  | input :: rest =>
      optionText <- query env (InnerText input) ;;
      if String.eqb (simplifyOption optionText) opt
      then run env (EvalClickElement input)
      else selectOption opt rest
  end.

(** The body of the first [try] of [fillOrders]. *)
Definition addItems (userOrders : list UserOrder) : M (PSt W) unit :=
  forEach userOrders (fun userOrder =>
    forEach (items userOrder) (fun '(item, options) =>
      (* Click menu item *)
      itemLinks <- query env (QueryAll "h6.menuItem-name a") ;;
      clickItem item itemLinks ;;
      run env (WaitFor (Selector "div.s-dialog-body")) ;;
      run env (WaitFor (Ms 200)) ;;
      (* Select options *)
      optionLinks <- query env (QueryAll "span.menuItemModal-choice-option-description") ;;
      forEach options (fun opt => selectOption opt optionLinks) ;;
      (* Click add to order *)
      run env (Click "button.menuItemModal-btnSubmit") ;;
      run env (WaitFor (Predicate "!document.querySelector('div.s-dialog-body')")) ;;
      run env (WaitFor (Ms 1000)))).

Definition fillOrders (userOrders : list UserOrder) : M (PSt W) (option Obj) :=
  let orderAmounts : Object Q := [] in
  e <- caught (addItems userOrders) ;;
  match e with
  | Some e =>
      (* Most likely a timeout, or we didn't wait long enough *)
      ret (Some (failure true [Text (toString e)]))
  | None =>
      minimumMet <- query env (EvalEnabled "button#ghs-cart-checkout-button") ;;
      if negb minimumMet
      then ret (Some (failure false [Text "Delivery minimum not met."]))
      else
        tryCatch
          (run env (Click "button#ghs-cart-checkout-button") ;;
           run env WaitForNavigation ;;
           ret (Some (mkObj None None (Some orderAmounts) None)))
          (fun e => ret (Some (failure true [Text (toString e)])))
  end.

(** The loop of [fillNames] that enters the names. *)
Definition enterNames (slackIds : list string) : M (PSt W) unit :=
  forEach slackIds (fun slackId =>
    u <- query env (GetUser (Some slackId)) ;;
    match u with
    | None => throw (TypeError "Cannot read property 'name' of null")
    | Some u =>
        let name := Users.name u in
        if String.eqb (toLowerCase name) "ajay gandhi" then ret tt
        else
          run env (Click "div.allocations-fields-container > div > input") ;;
          run env (KeyboardType name) ;;
          run env (WaitFor (Ms 3000)) ;;
          run env (Click "div.allocations-autocomplete-dropdown div.s-row") ;;
          run env (WaitFor (Ms 5000))
    end).

Definition fillNames (slackIds : list string) (result : Obj) : M (PSt W) (option Obj) :=
  (* Enable split with coworkers *)
  run env (WaitFor (Selector "label[for='showAllocations']")) ;;
  run env (Click "label[for='showAllocations']") ;;
  run env (WaitFor (Ms 200)) ;;
  enterNames slackIds ;;
  (* Clear my allocation *)
  run env (Click "div.allocations-fields-container table tr:last-of-type td.u-text-right button") ;;
  myAllocation <- query env (QueryOne
    "div.allocations-fields-container table tr:last-of-type td.u-text-secondary input") ;;
  match myAllocation with
  | None => throw (TypeError "Cannot read property 'click' of null")
  | Some myAllocation =>
      run env (ClickElement myAllocation 3) ;;
      run env (ElementType myAllocation "0") ;;
      run env (Click "div.allocations-fields-container table tr:last-of-type td.u-text-right button") ;;
      run env (WaitFor (Ms 2000)) ;;
      amountAllocated <- query env (EvalNumbers "div.allocation-saved-cell") ;;
      if maxExceeds (max amountAllocated) 25
      then
        (* Exceeded budget *)
        let excess := excessOf amountAllocated (List.length slackIds) in
        (* Find person with most expensive order *)
        match orderAmounts result with
        | None => throw (TypeError "Cannot convert undefined or null to object")
        | Some orderAmounts =>
            let maxOrder := maxOrder orderAmounts in
            ret (Some (failure false
                   [ExceededBudget excess (atUser (who maxOrder)) (amount maxOrder)]))
        end
      else ret None
  end.

(** [orders.reduce((memo, o) => o.isDonor ? memo : memo.concat(o.slackId), [])] *)
Definition eligible (orders : list UserOrder) : list string :=
  fold_left (fun memo o => if isDonor o then memo else memo ++ [slackId o])
    orders [].

(** [slackIds[Math.floor(r * slackIds.length)]] for the draw [r] *)
Definition pick (slackIds : list string) (r : Q) : option string :=
  index slackIds (Qfloor (r * inject_Z (Z.of_nat (List.length slackIds)))).

Definition fillPhoneNumber (orders : list UserOrder) : M (PSt W) (option Obj) :=
  tryCatch
    (let slackIds := eligible orders in
     r <- query env Random ;;
     let selectedUser := pick slackIds r in
     user <- query env (GetUser selectedUser) ;;
     shouldClick <- query env
       (EvalAttribute "div[at-delivery-instructions-toggle='true'] use" "href") ;;
     (if String.eqb shouldClick "#plus"
      then run env (Click "div[at-delivery-instructions-toggle='true']")
      else ret tt) ;;
     whoYaGonnaCall <- query env (QueryOne "textarea#specialInstructions") ;;
     match whoYaGonnaCall with
     | None => throw (TypeError "Cannot read property 'click' of null")
     | Some whoYaGonnaCall =>
         run env (ClickElement whoYaGonnaCall 3) ;;
         match user with
         | None => throw (TypeError "Cannot read property 'name' of null")
         | Some user =>
             run env (KeyboardType
               ("Please call " ++ Users.name user ++ " at " ++ Users.phone user
                ++ " upon delivery / arrival")%string) ;;
             (* Eco-friendly order! *)
             run env (Click "label[for='ghs-checkout-green']") ;;
             ret (Some (mkObj None None None (Some user)))
         end
     end)
    (fun e =>
       (* Most likely a timeout *)
       ret (Some (failure true [Text (toString e)]))).

Definition steps (restaurant : string) (userOrders : list UserOrder)
    : list (@Pipeline.Step (PSt W)) :=
  let slackIds := map slackId userOrders in
  [ fun _ => setupRestaurant restaurant;
    fun _ => fillOrders userOrders;
    fun result => fillNames slackIds result;
    fun _ => fillPhoneNumber userOrders ].

Definition orderFromRestaurant (restaurant : string)
    (userOrders : list UserOrder) (retries : nat) : M (PSt W) Obj :=
  Pipeline.orderFromRestaurant (steps restaurant userOrders)
    (submit env cfg restaurant) retries.

(** One turn of the loop of [go] over [orderSets]. *)
Definition processOrderSet (orderSet : OrderSet) : M (RSt W BatchResult) unit :=
  orderResult <- liftP (orderFromRestaurant (restaurant orderSet)
                          (users orderSet) INITIAL_RETRIES) ;;
  let orderParticipants := filter (fun u => negb (isDonor u)) (users orderSet) in
  match errors orderResult with
  | Some errs =>
      push (Failed (restaurant orderSet) orderParticipants errs)
  | None =>
      match user orderResult with
      | None => throw (TypeError "Cannot read property 'slackId' of undefined")
      | Some callee =>
          push (Succeeded (restaurant orderSet) (Users.slackId callee)
                  (confirmationUrlOf (restaurant orderSet))) ;;
          if negb (DRY_RUN cfg)
          then
            (* Record stats *)
            promiseAll (map (fun userOrder =>
              let slackId := slackId userOrder in
              let isCallee := String.eqb (Users.slackId callee) slackId in
              match orderAmounts orderResult with
              | None => throw (TypeError "Cannot read property of undefined")
              | Some orderAmounts =>
                  call env (RecordStats slackId (restaurant orderSet)
                              (get orderAmounts slackId) (items userOrder) isCallee)
              end) orderParticipants) ;;
            (* Write callee to orders *)
            call env (SetCallee (Users.slackId callee))
          else ret tt
      end
  end ;;
  (* Give seamless a break *)
  liftP (run env (WaitFor (Ms 5000))).

(** The body of the [try] of [go]. *)
Definition ordering (orderSets : list OrderSet) : M (RSt W BatchResult) unit :=
  liftP loginToGrubhub ;;
  forEach orderSets processOrderSet.

(** [go], from "Start ordering process" on; [orderSets] is what
    [Transform.indexByRestaurantAndUser] made of the pending orders. *)
Definition go (orderSets : list OrderSet) : M (RSt W BatchResult) unit :=
  resetResults ;;
  tryCatch (ordering orderSets) (fun _ => ret tt) ;;
  publish.

End Steps.

End Grubhub.

(** ** The Seamless variant ([src/perform.js]) *)

Module Seamless.

Record UserOrder : Type := mkUserOrder {
  username : string;
  items : list Item
}.

Record OrderSet : Type := mkOrderSet {
  restaurant : string;
  users : list UserOrder
}.

Inductive BatchResult : Type :=
| Failed (restaurant : string) (users : list UserOrder) (errors : list Msg)
| Succeeded (restaurant : string) (userCall : string) (confirmationUrl : string).

Definition restaurantOf (r : BatchResult) : string :=
  match r with
  | Failed restaurant _ _ => restaurant
  | Succeeded restaurant _ _ => restaurant
  end.

Definition URLS_login : string := "https://www.seamless.com/corporate/login/".
Definition URLS_chooseTime : string := "https://www.seamless.com/meals.m".

Section Steps.

Context {W : Type} (env : Env W) (cfg : Config).

(** The loop that clears the names already on the page runs as long as
    the page shows a delete link; the model follows it for at most
    [fuel] turns and then gives up with [outOfFuel]. *)
Variable fuel : nat.

Definition outOfFuel : Exn := Error "fillNames: out of fuel".

(** [Slack.atUser] of this variant ([src/unnamed/part_003]). *)
Definition atUser (username : option string) : M (PSt W) string :=
  u <- query env (GetUser username) ;;
  match u with
  | None => throw (TypeError "Cannot read property 'slackId' of null")
  | Some u =>
      if String.eqb (Users.slackId u) ""
      then ret ("@" ++ match username with
                       | Some n => n
                       | None => "undefined"
                       end)%string
      else ret ("<@" ++ Users.slackId u ++ ">")%string
  end.

Definition loginToSeamless : M (PSt W) unit :=
  run env (Goto URLS_login) ;;
  run env (Click "input#username") ;;
  run env (KeyboardType (priv_username cfg)) ;;
  run env (Click "input#password") ;;
  run env (KeyboardType (priv_password cfg)) ;;
  run env (Click "a#submitLogin") ;;
  run env WaitForNavigation.

Definition chooseTime : M (PSt W) (option Obj) :=
  tryCatch
    (run env (Goto URLS_chooseTime) ;;
     tryCatch (run env (Select "#time" (ORDER_TIME_SEAMLESS cfg)))
       (fun _ => ret tt) ;;
     run env (Click "tr.startorder a") ;;
     run env WaitForNavigation ;;
     ret None)
    (fun e =>
       ret (Some (failure (includes (toString e) "Navigation Timeout Exceeded")
                    [Text (toString e)]))).

(** The loop of [chooseRestaurant] over [restLinks]; [ourRest] is the
    variable it assigns. *)
Fixpoint findRestaurant (restaurant : string) (restLinks : list Handle)
    (ourRest : option Handle) : M (PSt W) (option Handle) :=
  match restLinks with
  | [] => ret ourRest
  | anchor :: rest =>
      text <- query env (InnerText anchor) ;;
      findRestaurant restaurant rest
        (if includes text restaurant then Some anchor else ourRest)
  end.

Definition chooseRestaurant (restaurant : string) : M (PSt W) (option Obj) :=
  tryCatch
    (restLinks <- query env (QueryAll "a[name='vendorLocation']") ;;
     ourRest <- findRestaurant restaurant restLinks None ;;
     match ourRest with
     | None => throw (TypeError "Cannot read property 'click' of undefined")
     | Some ourRest => run env (ClickElement ourRest 1)
     end ;;
     run env WaitForNavigation ;;
     ret None)
    (fun e =>
       if isTypeError e
       then
         (* Couldn't find restaurant containing given text *)
         ret (Some (failure false
                [Text "Restaurant does not exist or is closed at this time."]))
       else
         (* Most likely a timeout, should retry *)
         ret (Some (failure true [Text (toString e)]))).

(** The loop of [fillOrders] over [itemLinks]; [ourItem] is the
    variable it assigns. *)
Fixpoint findItem (item : string) (itemLinks : list Handle)
    (ourItem : option Handle) : M (PSt W) (option Handle) :=
  match itemLinks with
  | [] => ret ourItem
  | anchor :: rest =>
      text <- query env (InnerText anchor) ;;
      findItem item rest
        (if includes (toLowerCase text) (toLowerCase item)
         then Some anchor else ourItem)
  end.

(** The loop over [optionLinks] for one option: the first label whose
    text contains the option is clicked and the loop is left. *)
Fixpoint selectOption (opt : string) (optionLinks : list Handle) : M (PSt W) unit :=
  match optionLinks with
  | [] => ret tt
  | input :: rest =>
      text <- query env (InnerText input) ;;
      if includes (toLowerCase text) (toLowerCase opt)
      then run env (EvalClickElement input)
      else selectOption opt rest
  end.

Definition addItem (it : Item) : M (PSt W) unit :=
  let '(item, options) := it in
  (* Click menu item *)
  itemLinks <- query env (QueryAll "a[name='product']") ;;
  ourItem <- findItem item itemLinks None ;;
  match ourItem with
  | None => throw (TypeError "Cannot read property 'click' of undefined")
  | Some ourItem => run env (ClickElement ourItem 1)
  end ;;
  run env (WaitFor (Ms 1500)) ;;
  (* Select options *)
  optionLinks <- query env (QueryAll "li label") ;;
  forEach options (fun opt => selectOption opt optionLinks) ;;
  (* Click add to order *)
  run env (EvalClick "a#a1") ;;
  run env (WaitFor (Ms 2000)).

(** The body of the first [try] of [fillOrders]; [orderAmounts] is the
    object it fills. *)
Fixpoint addOrders (userOrders : list UserOrder) (orderAmounts : Object Q)
    : M (PSt W) (Object Q) :=
  match userOrders with
  | [] => ret orderAmounts
  | userOrder :: rest =>
      totalBefore <- query env FoodBevTotal ;;
      forEach (items userOrder) addItem ;;
      (* Record for stats *)
      totalAfter <- query env FoodBevTotal ;;
      addOrders rest
        (set orderAmounts (username userOrder) (totalAfter - totalBefore)%Q)
  end.

Definition fillOrders (userOrders : list UserOrder) : M (PSt W) (option Obj) :=
  r <- tryCatch (orderAmounts <- addOrders userOrders [] ;; ret (inl orderAmounts))
         (fun e => ret (inr e)) ;;
  match r with
  | inr e =>
      (* Most likely a timeout, or we didn't wait long enough *)
      ret (Some (failure true [Text (toString e)]))
  | inl orderAmounts =>
      run env (WaitFor (Ms 2000)) ;;
      continueLinks <- query env (QueryAll "a.findfoodbutton") ;;
      if (List.length continueLinks =? 0)%nat
      then
        (* [orderAmounts] is an object: [orderAmounts.map] is undefined
           and calling it throws, outside any [try] of this function;
           the [return] that follows is never reached *)
        throw (A := unit) (TypeError "orderAmounts.map is not a function") ;;
        ret (Some (failure false [Text "Delivery minimum not met."]))
      else
        tryCatch
          (run env (EvalClick "a.findfoodbutton") ;;
           run env WaitForNavigation ;;
           ret (Some (mkObj None None (Some orderAmounts) None)))
          (fun e => ret (Some (failure true [Text (toString e)])))
  end.

(** [while (await page.$("td.delete a")) { ... }] *)
Fixpoint clearNames (n : nat) : M (PSt W) unit :=
  match n with
  | O => throw outOfFuel
  | Datatypes.S n' =>
      link <- query env (QueryOne "td.delete a") ;;
      match link with
      | None => ret tt
      | Some _ =>
          run env (Click "td.delete a") ;;
          run env WaitForNavigation ;;
          clearNames n'
      end
  end.

(** [page.keyboard.type(text)] where [text] may be [undefined] *)
Definition typeText (text : option string) : M (PSt W) unit :=
  match text with
  | None => throw (TypeError "text is not iterable")
  | Some text => run env (KeyboardType text)
  end.

(** The loop of [fillNames] that enters the names. *)
Definition enterNames (usernames : list string) : M (PSt W) unit :=
  forEach usernames (fun username =>
    u <- query env (GetUser (Some username)) ;;
    match u with
    | None => throw (TypeError "Cannot read property 'name' of null")
    | Some u =>
        let name := split (Users.name u) " " in
        run env ToggleAddUser ;;
        run env (WaitFor (Ms 1000)) ;;
        run env (Click "input#FirstName") ;;
        typeText (nth_error name 0) ;;
        run env (Click "input#LastName") ;;
        typeText (nth_error name 1) ;;
        run env (Click "tr#AddUser h4.PrimaryLink a") ;;
        run env WaitForNavigation
    end).

(** The end of [fillNames], from the reading of the allocations on. *)
Definition checkBudget (usernames : list string) (result : Obj)
    : M (PSt W) (option Obj) :=
  amountAllocated <- query env (EvalNumbers "input.allocationAmt") ;;
  if maxExceeds (max amountAllocated) 25
  then
    (* Exceeded budget *)
    let excess := excessOf amountAllocated (List.length usernames) in
    (* Find person with most expensive order *)
    match orderAmounts result with
    | None => throw (TypeError "Cannot convert undefined or null to object")
    | Some orderAmounts =>
        let maxOrder := maxOrder orderAmounts in
        userAt <- atUser (who maxOrder) ;;
        ret (Some (failure false
               [ExceededBudget excess userAt (amount maxOrder)]))
    end
  else ret None.

Definition fillNames (usernames : list string) (result : Obj)
    : M (PSt W) (option Obj) :=
  (* Clear existing names first *)
  clearNames fuel ;;
  enterNames usernames ;;
  checkBudget usernames result.

(** [usernames[Math.floor(r * usernames.length)]] for the draw [r] *)
Definition pick (usernames : list string) (r : Q) : option string :=
  index usernames (Qfloor (r * inject_Z (Z.of_nat (List.length usernames)))).

Definition fillPhoneNumber (usernames : list string) : M (PSt W) (option Obj) :=
  tryCatch
    (r <- query env Random ;;
     let selectedUser := pick usernames r in
     userData <- query env (GetUser selectedUser) ;;
     run env (SetValue "input#phoneNumber" "") ;;
     run env (Click "input#phoneNumber") ;;
     match userData with
     | None => throw (TypeError "Cannot read property 'phone' of null")
     | Some userData =>
         run env (KeyboardType (Users.phone userData)) ;;
         run env (Click "#ecoToGoTrue") ;;
         ret (Some (mkObj None None None (Some userData)))
     end)
    (fun e =>
       (* Most likely a timeout *)
       ret (Some (failure true [Text (toString e)]))).

Definition steps (restaurant : string) (userOrders : list UserOrder)
    : list (@Pipeline.Step (PSt W)) :=
  let usernames := map username userOrders in
  [ fun _ => chooseTime;
    fun _ => chooseRestaurant restaurant;
    fun _ => fillOrders userOrders;
    fun result => fillNames usernames result;
    fun _ => fillPhoneNumber usernames ].

Definition orderFromRestaurant (restaurant : string)
    (userOrders : list UserOrder) (retries : nat) : M (PSt W) Obj :=
  Pipeline.orderFromRestaurant (steps restaurant userOrders)
    (submit env cfg restaurant) retries.

(** One turn of the loop of [go] over [orderSets]. *)
Definition processOrderSet (orderSet : OrderSet) : M (RSt W BatchResult) unit :=
  orderResult <- liftP (orderFromRestaurant (restaurant orderSet)
                          (users orderSet) INITIAL_RETRIES) ;;
  match errors orderResult with
  | Some errs =>
      push (Failed (restaurant orderSet) (users orderSet) errs)
  | None =>
      match user orderResult with
      | None => throw (TypeError "Cannot read property 'username' of undefined")
      | Some callee =>
          push (Succeeded (restaurant orderSet) (Users.username callee)
                  (confirmationUrlOf (restaurant orderSet))) ;;
          (* Record stats *)
          if negb (DRY_RUN cfg)
          then
            promiseAll (map (fun userOrder =>
              let u := username userOrder in
              let isCallee := String.eqb (Users.username callee) u in
              match orderAmounts orderResult with
              | None => throw (TypeError "Cannot read property of undefined")
              | Some orderAmounts =>
                  call env (RecordStats u (restaurant orderSet)
                              (get orderAmounts u) (items userOrder) isCallee)
              end) (users orderSet))
          else ret tt
      end
  end ;;
  (* Give seamless a break *)
  liftP (run env (WaitFor (Ms 5000))).

(** The body of the [try] of [go]. *)
Definition ordering (orderSets : list OrderSet) : M (RSt W BatchResult) unit :=
  liftP loginToSeamless ;;
  forEach orderSets processOrderSet.

Definition go (orderSets : list OrderSet) : M (RSt W BatchResult) unit :=
  resetResults ;;
  tryCatch (ordering orderSets) (fun _ => ret tt) ;;
  publish.

End Steps.

End Seamless.

(** ** The stats store ([src/unnamed/part_000])

    What [recordStats] sends to the store and what the readers make of
    a stored document.  The store itself (MongoDB) is outside the
    model: a collection is the list of its documents. *)

Module Stats.

Definition N_TOP_DISHES : nat := 3.

(** [s.replace(pattern, replacement)] with a string as pattern: the
    first occurrence is replaced.  The replacements of this module
    hold no [$]. *)
Fixpoint replace (s pattern replacement : string) : string :=
  if String.prefix pattern s
  then (replacement
        ++ String.substring (String.length pattern)
             (String.length s - String.length pattern) s)%string
  else match s with
       | EmptyString => EmptyString
       | String c rest => String c (replace rest pattern replacement)
       end.

(** Sanitizers, so that data can be passed to Mongo *)
Definition toMongo (s : string) : string := replace s "." "%PD%".

(** [key.replace("%PD%", ".")] *)
Definition fromMongoKey (key : string) : string := replace key "%PD%" ".".

(** [fromMongo(o)] on an object; [inner] is [fromMongo] on its values. *)
Definition fromMongo {V : Type} (inner : V -> V) (o : Object V) : Object V :=
  fold_left
    (fun memo key =>
       match get o key with
       | Some v => set memo (fromMongoKey key) (inner v)
       | None => memo
       end)
    (keys o) [].

(** [fromMongo(n)] on a number *)
Definition fromMongoNumber (n : Q) : Q := n.

(** The document of a user: [{ slackId, calls, restaurants:
    { name: { dollars, items: { itemName: count } } } }]. *)
Record RestaurantStats : Type := mkRestaurantStats {
  dollars : Q;
  items : Object Q
}.

Record UserStats : Type := mkUserStats {
  slackId : string;
  calls : Q;
  restaurants : Object RestaurantStats
}.

(** [stats.findOne({ slackId })] *)
Definition findOne (stats : list UserStats) (id : string) : option UserStats :=
  find (fun s => String.eqb (slackId s) id) stats.

(** An entry of a list of top dishes. *)
Record Dish : Type := mkDish {
  itemName : string;
  count : Q;
  restaurant : option string
}.

(** [tops.splice(i, 0, x)] *)
Definition splice {A : Type} (l : list A) (i : nat) (x : A) : list A :=
  firstn i l ++ x :: skipn i l.

(** The loop that places a dish among the tops, from index [i] on,
    with [n] rounds left:
    [for (; i < N_TOP_DISHES; i++)
       if (!tops[i] || dish.count > tops[i].count) {
         tops.splice(i, 0, dish);
         if (tops.length > N_TOP_DISHES) tops.pop();
         break;
       }] *)
Fixpoint insertFrom (n i : nat) (tops : list Dish) (dish : Dish) : list Dish :=
  match n with
  | O => tops
  | S n' =>
      let better :=
        match nth_error tops i with
        | None => true
        | Some t => gt (count dish) (count t)
        end in
      if better
      then
        let tops' := splice tops i dish in
        if (N_TOP_DISHES <? List.length tops')%nat then removelast tops' else tops'
      else insertFrom n' (S i) tops dish
  end.

Definition insertDish (tops : list Dish) (dish : Dish) : list Dish :=
  insertFrom N_TOP_DISHES 0 tops dish.

(** [Object.keys(s).reduce((tops, itemName) => ..., tops)]; every key
    of [s] has a value. *)
Definition topsOf (rest : option string) (s : Object Q) (tops : list Dish)
    : list Dish :=
  fold_left
    (fun tops itemName =>
       match get s itemName with
       | Some c => insertDish tops (mkDish itemName c rest)
       | None => tops
       end)
    (keys s) tops.

(** Return how many times the given user has been called *)
Definition getCallsForUser (stats : list UserStats) (id : string) : Q :=
  match findOne stats id with
  | Some s => calls s
  | None => 0%Q
  end.

(** Return the dollar value that the user spent at this restaurant;
    [None] is the [null] of [s && ...]. *)
Definition getDollarsForRestaurant (stats : list UserStats)
    (id restaurantName : string) : Res (option Q) :=
  match findOne stats id with
  | None => Ok None
  | Some s =>
      match get (restaurants s) restaurantName with
      | None => Throw (TypeError "Cannot read property 'dollars' of undefined")
      | Some r => Ok (Some (dollars r))
      end
  end.

(** Return the top dishes for this user at this restaurant; [None] is
    [undefined]. *)
Definition getTopDishesForRestaurant (stats : list UserStats)
    (id restaurant : string) : Res (option (list Dish)) :=
  match findOne stats id with
  | None => Ok None
  | Some pulled =>
      match get (restaurants pulled) restaurant with
      | None => Throw (TypeError "Cannot read property 'items' of undefined")
      | Some r =>
          let s := fromMongo fromMongoNumber (items r) in
          Ok (Some (topsOf None s []))
      end
  end.

(** Return the top dishes for this user *)
Definition getTopDishesForUser (stats : list UserStats) (id : string)
    : option (list Dish) :=
  match findOne stats id with
  | None => None
  | Some pulled =>
      let s :=
        fromMongo
          (fun r => mkRestaurantStats (fromMongoNumber (dollars r))
                      (fromMongo fromMongoNumber (items r)))
          (restaurants pulled) in
      Some (fold_left
              (fun userTops restaurant =>
                 match get s restaurant with
                 | Some r => topsOf (Some restaurant) (items r) userTops
                 | None => userTops
                 end)
              (keys s) [])
  end.

(** [getStatsForUserFromRestaurant]: [{ dollars, dishes }] *)
Definition getStatsForUserFromRestaurant (stats : list UserStats)
    (user restaurant : string) : Res (option Q * option (list Dish)) :=
  match getDollarsForRestaurant stats user restaurant with
  | Throw e => Throw e
  | Ok dollars =>
      match getTopDishesForRestaurant stats user restaurant with
      | Throw e => Throw e
      | Ok dishes => Ok (dollars, dishes)
      end
  end.

(** The keys of the increments [recordStats] sends. *)
Definition itemKey (restaurant itemName : string) : string :=
  ("restaurants." ++ restaurant ++ ".items." ++ toMongo itemName)%string.

Definition dollarsKey (restaurant : string) : string :=
  ("restaurants." ++ restaurant ++ ".dollars")%string.

(** The [changes] object of [recordStats], the [$inc] it sends for
    the document of the user.  [dollars] is [None] when the caller
    passes [undefined]. *)
Definition changes (restaurant : string) (dollars : option Q)
    (items : list Item) (calls : bool) : Object (option Q) :=
  let counted :=
    fold_left
      (fun memo (item : Item) =>
         let key := itemKey restaurant (fst item) in
         set memo key
           (match get memo key with
            | Some (Some n) => if Qeq_bool n 0 then Some 1%Q else Some (n + 1)%Q
            | _ => Some 1%Q
            end))
      items [] in
  let withDollars := set counted (dollarsKey restaurant) dollars in
  if calls then set withDollars "calls" (Some 1%Q) else withDollars.

End Stats.

(** ** Splitting an order into its items ([src/parser.js])

    Indices count the characters of an ASCII string, as [str.length]
    and [str.charAt] do. *)

Module Parser.

(** [str.slice(a, b)] for indices within the string; empty when
    [b <= a]. *)
Definition slice (str : string) (a b : nat) : string :=
  String.substring a (b - a) str.

(** The variables of the loop of [splitOutsideParens]. *)
Record Scan : Type := mkScan {
  insideParens : bool;
  result : list string;
  start : nat
}.

Definition isChar (c : option ascii) (d : ascii) : bool :=
  match c with
  | Some c => Ascii.eqb c d
  | None => false
  end.

(** The body of the loop at index [i]. *)
Definition scanAt (str : string) (st : Scan) (i : nat) : Scan :=
  let c := String.get i str in
  let inside1 := if isChar c "[" then true else insideParens st in
  let inside2 := if isChar c "]" then false else inside1 in
  if isChar c "," && negb inside2
  then mkScan inside2 (result st ++ [trim (slice str (start st) i)]) (S i)
  else mkScan inside2 (result st) (start st).

(** [for (let i = 0; i < str.length; i++) ...] *)
Definition scan (str : string) : Scan :=
  fold_left (scanAt str) (seq 0 (String.length str)) (mkScan false [] 0).

(** [start !== str.length - 1] compares integers: it is
    [start + 1 !== str.length]. *)
Definition splitOutsideParens (str : string) : list string :=
  let st := scan str in
  if (start st + 1 =? String.length str)%nat
  then result st
  else result st ++ [trim (slice str (start st) (String.length str))].

End Parser.

(** ** The clock of the order window ([src/commander.js]) *)

Module Commander.

(** Returns true if it is past 3:30pm; [hours] and [minutes] are
    [now.getHours()] and [now.getMinutes()]. *)
Definition isLate (hours minutes : nat) : bool :=
  ((15 <? hours) || ((14 <? hours) && (30 <? minutes)))%nat.

End Commander.

(** ** Scripted collaborators for concrete runs

    A [Script] fixes what the page shows and which commands fail.  The
    world is the number of items in the cart; the food total the page
    shows is that number times [price]. *)

Module Fixture.

Record Script : Type := mkScript {
  failing : Cmd -> option Exn;
  elements : string -> list Handle;
  texts : Handle -> string;
  allocations : list Q;
  checkoutEnabled : option bool;
  price : Q;
  draw : Q;
  directory : option string -> option User;
  failingService : Service -> option Exn
}.

Definition addsToCart (c : Cmd) : bool :=
  match c with
  | Click sel => String.eqb sel "button.menuItemModal-btnSubmit"
  | EvalClick sel => String.eqb sel "a#a1"
  | _ => false
  end.

Definition answer (sc : Script) (A : Type) (q : Query A) (w : nat) : Res A * nat :=
  match q in Query T return Res T * nat with
  | QueryAll sel => (Ok (elements sc sel), w)
  | QueryOne sel => (Ok (hd_error (elements sc sel)), w)
  | InnerText h => (Ok (texts sc h), w)
  | EvalNumbers _ => (Ok (allocations sc), w)
  | EvalEnabled _ =>
      match checkoutEnabled sc with
      | Some b => (Ok b, w)
      | None => (Throw (Error "failed to find element matching selector"), w)
      end
  | EvalAttribute _ _ => (Ok "#plus", w)
  | FoodBevTotal => (Ok (price sc * inject_Z (Z.of_nat w))%Q, w)
  | TimeToString _ => (Ok "17:30", w)
  | Random => (Ok (draw sc), w)
  | GetUser id => (Ok (directory sc id), w)
  end.

Definition scripted (sc : Script) : Env nat :=
  mkEnv nat
    (fun c w =>
       match failing sc c with
       | Some e => (Throw e, w)
       | None => (Ok tt, if addsToCart c then S w else w)
       end)
    (answer sc)
    (fun c w =>
       match failingService sc c with
       | Some e => (Throw e, w)
       | None => (Ok tt, w)
       end).

Definition cfg : Config := mkConfig "alfred" "secret" true false "5:30 PM" 1730 "/srv".

(** The same configuration with [--actual]. *)
Definition actual : Config := mkConfig "alfred" "secret" false false "5:30 PM" 1730 "/srv".

Definition alice : User := Users.mkUser "alice" "U1" "Alice Liddell" "555-0101".
Definition bob : User := Users.mkUser "bob" "U2" "Bob Stone" "555-0102".
Definition ajay : User := Users.mkUser "ajay" "U0" "Ajay Gandhi" "555-0100".

(** A directory that knows its users by Slack id and by username. *)
Definition people (id : option string) : option User :=
  match id with
  | None => None
  | Some id =>
      find (fun u => String.eqb (Users.slackId u) id || String.eqb (Users.username u) id)
        [alice; bob; ajay]
  end.

(** Element 1 is "Pizza Hut", element 2 is "Extreme Pizza"; every list
    of links or items holds both, in that order.  No name is on the
    page to be cleared. *)
Definition pizzaTexts (h : Handle) : string :=
  match h with
  | 1%nat => "Pizza Hut"
  | 2%nat => "Extreme Pizza"
  | _ => ""
  end.

Definition pizzaElements (sel : string) : list Handle :=
  if String.eqb sel "td.delete a" then [] else [1%nat; 2%nat].

(** A page on which everything works; the allocations shown are
    [allocs] and the checkout button is as [enabled] says. *)
Definition calm (allocs : list Q) (enabled : option bool) : Script :=
  mkScript (fun _ => None) pizzaElements pizzaTexts allocs enabled 12 (1 # 2)
    people (fun _ => None).

(** A page on which the order stays below the delivery minimum: the
    Grubhub checkout button is disabled, Seamless shows no link to
    continue. *)
Definition belowMinimum : Script :=
  mkScript (fun _ => None)
    (fun sel => if String.eqb sel "a.findfoodbutton" then [] else pizzaElements sel)
    pizzaTexts [] (Some false) 12 (1 # 2) people (fun _ => None).

(** A calm page, with a stats store that is down. *)
Definition statsDown : Script :=
  mkScript (fun _ => None) pizzaElements pizzaTexts [12%Q] (Some true) 12 (1 # 2)
    people
    (fun c => match c with
              | RecordStats _ _ _ _ _ => Some (Error "MongoError: connection closed")
              | SetCallee _ => None
              end).

(** A page that never loads: every navigation times out. *)
Definition stalled : Script :=
  mkScript
    (fun c => match c with
              | Goto _ => Some (Error "Navigation Timeout Exceeded: 30000ms exceeded")
              | _ => None
              end)
    pizzaElements pizzaTexts [] (Some true) 12 (1 # 2) people (fun _ => None).

(** A site on which logging in fails. *)
Definition loggedOut : Script :=
  mkScript
    (fun c => match c with
              | WaitForNavigation => Some (Error "Navigation Timeout Exceeded: 30000ms exceeded")
              | _ => None
              end)
    pizzaElements pizzaTexts [] (Some true) 12 (1 # 2) people (fun _ => None).

Definition simplifyOption (s : string) : string := s.

Definition atUser (id : option string) : string :=
  match id with
  | Some id => ("<@" ++ id ++ ">")%string
  | None => "<@undefined>"
  end.

(** Two Grubhub orders: a participant and a donor. *)
Definition order1 : Grubhub.UserOrder :=
  Grubhub.mkUserOrder "U1" [("Pizza Hut", ["large"])] false.
Definition order2 : Grubhub.UserOrder :=
  Grubhub.mkUserOrder "U2" [("Extreme Pizza", [])] true.

(** Two Seamless orders. *)
Definition lunch1 : Seamless.UserOrder :=
  Seamless.mkUserOrder "alice" [("pizza hut", ["large"])].
Definition lunch2 : Seamless.UserOrder :=
  Seamless.mkUserOrder "bob" [("pizza", []); ("hut", [])].

(** A catalog with two restaurants whose names contain "pizza". *)
Definition pizzaHut : DataUtil.Restaurant :=
  DataUtil.mkRestaurant [DataUtil.mkMenuItem "Pan Pizza" 10].
Definition extremePizza : DataUtil.Restaurant :=
  DataUtil.mkRestaurant [DataUtil.mkMenuItem "Pandora's Box" 18].
Definition menuData : Object DataUtil.Restaurant :=
  [("Pizza Hut", pizzaHut); ("Extreme Pizza", extremePizza)].

Definition start : PSt nat := mkPSt 0%nat [].

Definition startRun {BR : Type} : RSt nat BR := mkRSt start [] [] None.

End Fixture.

(** ** A stats collection for concrete runs *)

Module Ledger.

(** Alice ordered from two restaurants; one of her dishes has a dot
    in its name. *)
Definition alice : Stats.UserStats :=
  Stats.mkUserStats "U1" 2
    [("Pizza Hut",
      Stats.mkRestaurantStats 60
        [("pizza", 3%Q); ("coke", 1%Q); ("dr%PD% pepper", 5%Q); ("fries", 2%Q)]);
     ("Extreme Pizza",
      Stats.mkRestaurantStats 40 [("calzone", 4%Q)])].

Definition stats : list Stats.UserStats := [alice].

End Ledger.

(** ** Notions used to state the properties *)

(** Every run of [m] takes a state to one related to it by [R]. *)
Definition framed {S A : Type} (R : S -> S -> Prop) (m : M S A) : Prop :=
  forall s r s', m s = (r, s') -> R s s'.

(** The [results] array is left as it is. *)
Definition sameResults {W BR : Type} (s s' : RSt W BR) : Prop :=
  results s' = results s.

(** The calls made to the stores all satisfy [P]. *)
Definition callsOnly {W BR : Type} (P : Service -> Prop) (s s' : RSt W BR) : Prop :=
  exists new, calls s' = calls s ++ new /\ Forall P new.

(** The directory answered [u] when asked for [id]. *)
Definition resolved {W : Type} (env : Env W) (id : string) (u : User) : Prop :=
  exists w w', ask env (GetUser (Some id)) w = (Ok (Some u), w').

(** The commands sent to the page all satisfy [P]. *)
Definition traceOnly {W : Type} (P : Cmd -> Prop) (s s' : PSt W) : Prop :=
  exists new, trace s' = trace s ++ new /\ Forall P new.

(** The same, for the page of a run. *)
Definition pageTraceOnly {W BR : Type} (P : Cmd -> Prop) (s s' : RSt W BR) : Prop :=
  traceOnly P (page s) (page s').

(** The results appended to [results] all satisfy [P]. *)
Definition resultsOnly {W BR : Type} (P : BR -> Prop) (s s' : RSt W BR) : Prop :=
  exists new, results s' = results s ++ new /\ Forall P new.

(** The click that places the order, in the "Submit order" block. *)
Definition placesOrder (c : Cmd) : Prop := c = Click "a.findfoodbutton".

(** A character of a sanitized file name: a digit, a lower-case
    letter or an underscore. *)
Definition isFileChar (c : ascii) : bool :=
  let n := nat_of_ascii c in
  ((48 <=? n) && (n <=? 57) || (97 <=? n) && (n <=? 122) || (n =? 95))%nat.

(** The dishes are listed by decreasing count. *)
Definition descending (tops : list Stats.Dish) : Prop :=
  StronglySorted (fun a b => (Stats.count b <= Stats.count a)%Q) tops.

(** The characters of [s] all satisfy [p]. *)
Fixpoint allChars (p : ascii -> bool) (s : string) : bool :=
  match s with
  | EmptyString => true
  | String c rest => p c && allChars p rest
  end.

(** Reading [s] from outside ([inside = false]) or inside brackets:
    [None] when a comma is met outside brackets, else whether the
    reading ends inside brackets. *)
Fixpoint bracketsAfter (s : string) (inside : bool) : option bool :=
  match s with
  | EmptyString => Some inside
  | String c rest =>
      if Ascii.eqb c "[" then bracketsAfter rest true
      else if Ascii.eqb c "]" then bracketsAfter rest false
      else if Ascii.eqb c "," && negb inside then None
      else bracketsAfter rest inside
  end.

(** How many of the [items] have the key of [itemName] in the stats
    store. *)
Definition timesOrdered (items : list Item) (itemName : string) : nat :=
  List.length
    (filter (fun item : Item =>
               String.eqb (Stats.toMongo (fst item)) (Stats.toMongo itemName))
       items).

(** The dishes of an object of counts, in the order of its keys. *)
Definition dishesOf (rest : option string) (s : Object Q) : list Stats.Dish :=
  flat_map
    (fun itemName =>
       match get s itemName with
       | Some c => [Stats.mkDish itemName c rest]
       | None => []
       end)
    (keys s).

(** [tops] are the best of the dishes [seen]: by decreasing count, as
    many as there is room for, and no dish left out has a higher count
    than a dish listed. *)
Definition bestOf (seen tops : list Stats.Dish) : Prop :=
  descending tops
  /\ List.length tops = Nat.min Stats.N_TOP_DISHES (List.length seen)
  /\ (forall t, In t tops -> In t seen)
  /\ (forall d, In d seen ->
        In d tops
        \/ (List.length tops = Stats.N_TOP_DISHES
            /\ forall t, In t tops -> (Stats.count d <= Stats.count t)%Q)).

(** A command other than the navigation to [url]. *)
Definition elsewhere (url : string) (c : Cmd) : Prop := c <> Goto url.

(** The commands sent are [c] and then commands that satisfy [P]. *)
Definition startsWith {W : Type} (c : Cmd) (P : Cmd -> Prop) (s s' : PSt W) : Prop :=
  exists new, trace s' = trace s ++ c :: new /\ Forall P new.

(** The same, for the page of a run. *)
Definition pageStartsWith {W BR : Type} (c : Cmd) (P : Cmd -> Prop)
    (s s' : RSt W BR) : Prop :=
  startsWith c P (page s) (page s').

(** * Properties *)

(** ** The monad *)

Lemma bind_ok {S A B : Type} (m : M S A) (k : A -> M S B) s a s' :
  m s = (Ok a, s') -> bind m k s = k a s'.
Proof. intros H. unfold bind. rewrite H. reflexivity. Qed.

Lemma bind_throw {S A B : Type} (m : M S A) (k : A -> M S B) s e s' :
  m s = (Throw e, s') -> bind m k s = (Throw e, s').
Proof. intros H. unfold bind. rewrite H. reflexivity. Qed.

Lemma tryCatch_ok {S A : Type} (m : M S A) (h : Exn -> M S A) s a s' :
  m s = (Ok a, s') -> tryCatch m h s = (Ok a, s').
Proof. intros H. unfold tryCatch. rewrite H. reflexivity. Qed.

Lemma tryCatch_throw {S A : Type} (m : M S A) (h : Exn -> M S A) s e s' :
  m s = (Throw e, s') -> tryCatch m h s = h e s'.
Proof. intros H. unfold tryCatch. rewrite H. reflexivity. Qed.

(** A handler that returns makes the whole [try] return. *)
Lemma tryCatch_returns {S A : Type} (m : M S A) (f : Exn -> A) s :
  exists a s', tryCatch m (fun e => ret (f e)) s = (Ok a, s').
Proof.
  unfold tryCatch. destruct (m s) as [[a | e] s']; unfold ret; eauto.
Qed.

(** ** The retry loop *)

Section PipelineFacts.

Context {S : Type}.
Variable steps : list (@Pipeline.Step S).
Variable submit : M S unit.

Local Abbreviation orderFromRestaurant := (Pipeline.orderFromRestaurant steps submit).
Local Abbreviation attempt := (Pipeline.attempt steps submit).
Local Abbreviation runSteps := (Pipeline.runSteps submit).

Lemma assign_keeps_no_errors result out :
  errors result = None -> errors out = None -> errors (assign result out) = None.
Proof. intros Hr Ho. unfold assign. simpl. rewrite Ho. exact Hr. Qed.

Lemma not_retryable_without_errors o : errors o = None -> isRetryable o = false.
Proof. intros H. unfold isRetryable. rewrite H. reflexivity. Qed.

(** [orderFromRestaurant] never throws: its body is one [try]. *)
Lemma orderFromRestaurant_returns retries s :
  exists o s', orderFromRestaurant retries s = (Ok o, s').
Proof.
  destruct retries; simpl; apply (tryCatch_returns _ (fun _ => Pipeline.unknownFailure)).
Qed.

(** With retries left, the loop behaves as with none, except that a
    failure asking for a retry becomes the recursive call. *)
Lemma runSteps_again (k : M S Obj) todo : forall result s,
  errors result = None ->
  runSteps (Some k) todo result s =
    match runSteps None todo result s with
    | (Ok o, s') => if isRetryable o then k s' else (Ok o, s')
    | (Throw e, s') => (Throw e, s')
    end.
Proof.
  induction todo as [| step rest IH]; intros result s Hres; simpl.
  - unfold bind. destruct (submit s) as [[[] | e] s']; [| reflexivity].
    unfold ret. now rewrite (not_retryable_without_errors _ Hres).
  - unfold bind. destruct (step result s) as [[[out |] | e] s1]; [| auto | reflexivity].
    destruct (errors out) as [es |] eqn:Herr.
    + unfold isRetryable, ret.
      destruct (retry out) as [[|] |] eqn:Hretry; simpl;
        rewrite ?Herr, ?Hretry; reflexivity.
    + apply IH. now apply assign_keeps_no_errors.
Qed.

(** The recursion of [orderFromRestaurant], one attempt at a time. *)
Lemma orderFromRestaurant_succ retries s :
  orderFromRestaurant (Datatypes.S retries) s =
    match attempt s with
    | (Ok o, s') => if isRetryable o then orderFromRestaurant retries s' else (Ok o, s')
    | (Throw e, s') => (Throw e, s')
    end.
Proof.
  unfold Pipeline.attempt. simpl. unfold tryCatch.
  rewrite (runSteps_again (orderFromRestaurant retries)) by reflexivity.
  destruct (runSteps None steps emptyObj s) as [[o | e] s']; [| reflexivity].
  destruct (isRetryable o); [| reflexivity].
  destruct (orderFromRestaurant_returns retries s') as (o' & s'' & H).
  now rewrite H.
Qed.

(** A failure of any attempt that does not ask for a retry, and any
    success, is the result, whatever the retries left. *)
Lemma orderFromRestaurant_final retries : forall s o s',
  attempt s = (Ok o, s') -> isRetryable o = false ->
  orderFromRestaurant retries s = (Ok o, s').
Proof.
  destruct retries; intros s o s' Hat Hno; [exact Hat |].
  rewrite orderFromRestaurant_succ, Hat, Hno. reflexivity.
Qed.

Lemma orderFromRestaurant_retry retries s o s' :
  attempt s = (Ok o, s') -> isRetryable o = true ->
  orderFromRestaurant (Datatypes.S retries) s = orderFromRestaurant retries s'.
Proof.
  intros Hat Hyes. rewrite orderFromRestaurant_succ, Hat, Hyes. reflexivity.
Qed.

(** Steps that continue lead [runSteps] to the rest of the array. *)
Lemma runSteps_continues again pre result s result' s' :
  Pipeline.continues pre result s result' s' ->
  forall post,
    runSteps again (pre ++ post) result s = runSteps again post result' s'.
Proof.
  induction 1 as [| step rest result s s1 result' s' Hstep _ IH
                  | step rest result s out s1 result' s' Hstep Herr _ IH];
    intros post; simpl.
  - reflexivity.
  - rewrite (bind_ok _ _ _ _ _ Hstep). apply IH.
  - rewrite (bind_ok _ _ _ _ _ Hstep), Herr. apply IH.
Qed.

Lemma continues_no_errors pre result (s : S) result' s' :
  Pipeline.continues pre result s result' s' ->
  errors result = None -> errors result' = None.
Proof.
  induction 1; intros Hres; auto using assign_keeps_no_errors.
Qed.

End PipelineFacts.

Section RetryClaims.

Context {S : Type}.

Local Abbreviation orderFromRestaurant := Pipeline.orderFromRestaurant.
Local Abbreviation attempt := Pipeline.attempt.

(** C3.  When every run of the step sequence ends in a failure that
    asks for a retry, [orderFromRestaurant] with the default budget
    [INITIAL_RETRIES] is exactly three runs in a row: its outcome and
    final state are those of the third run started where the second
    ended, that outcome is a failure, and any counter that each run
    advances by one has advanced by three. *)
Theorem C3_retry_budget_exact (steps : list (@Pipeline.Step S)) (submit : M S unit)
    (Hfail : forall s, exists o s',
        attempt steps submit s = (Ok o, s') /\ isRetryable o = true)
    (s : S) :
  let s1 := snd (attempt steps submit s) in
  let s2 := snd (attempt steps submit s1) in
  orderFromRestaurant steps submit INITIAL_RETRIES s = attempt steps submit s2
  /\ (exists o s3, orderFromRestaurant steps submit INITIAL_RETRIES s = (Ok o, s3)
                   /\ errors o <> None)
  /\ (forall count : S -> nat,
        (forall s0, count (snd (attempt steps submit s0)) = Datatypes.S (count s0)) ->
        count (snd (orderFromRestaurant steps submit INITIAL_RETRIES s)) = 3 + count s).
Proof.
  intros s1 s2.
  destruct (Hfail s) as (o1 & t1 & H1 & R1).
  destruct (Hfail s1) as (o2 & t2 & H2 & R2).
  destruct (Hfail s2) as (o3 & t3 & H3 & R3).
  assert (Hrun : orderFromRestaurant steps submit INITIAL_RETRIES s
                 = attempt steps submit s2).
  { unfold INITIAL_RETRIES.
    rewrite (orderFromRestaurant_retry _ _ _ _ _ _ H1 R1).
    assert (E1 : t1 = s1) by (subst s1; now rewrite H1). subst t1.
    rewrite (orderFromRestaurant_retry _ _ _ _ _ _ H2 R2).
    assert (E2 : t2 = s2) by (subst s2; now rewrite H2). subst t2.
    reflexivity. }
  split; [exact Hrun |]. split.
  - exists o3, t3. rewrite Hrun. split; [exact H3 |].
    unfold isRetryable in R3. destruct (errors o3); [discriminate | discriminate].
  - intros count Hcount. rewrite Hrun, Hcount. subst s2. rewrite Hcount.
    subst s1. rewrite Hcount. reflexivity.
Qed.

(** C5.  When the steps before [step] all continue and [step] returns
    an object with [errors], the attempt ends there: it returns that
    object in the state in which [step] returned, whatever the later
    steps [post] are.  If the failure does not ask for a retry it is
    the result of [orderFromRestaurant] whatever the retries left; if
    it does and a retry is left, what follows is a new call that starts
    from that state. *)
Theorem C5_failure_halts_attempt (pre : list (@Pipeline.Step S)) (step : Pipeline.Step)
    (post : list Pipeline.Step) (submit : M S unit) (s s1 s2 : S) (result out : Obj)
    (Hpre : Pipeline.continues pre emptyObj s result s1)
    (Hstep : step result s1 = (Ok (Some out), s2))
    (Herr : errors out <> None) :
  attempt (pre ++ step :: post) submit s = (Ok out, s2)
  /\ (forall retries, retry out <> Some true ->
        orderFromRestaurant (pre ++ step :: post) submit retries s = (Ok out, s2))
  /\ (forall retries, retry out = Some true ->
        orderFromRestaurant (pre ++ step :: post) submit (Datatypes.S retries) s
        = orderFromRestaurant (pre ++ step :: post) submit retries s2).
Proof.
  assert (Hat : attempt (pre ++ step :: post) submit s = (Ok out, s2)).
  { unfold Pipeline.attempt. simpl. apply tryCatch_ok.
    rewrite (runSteps_continues _ _ _ _ _ _ _ Hpre). simpl.
    rewrite (bind_ok _ _ _ _ _ Hstep).
    destruct (errors out); [| contradiction].
    destruct (retry out) as [[|] |]; reflexivity. }
  split; [exact Hat |]. split.
  - intros retries Hno. apply orderFromRestaurant_final; [exact Hat |].
    unfold isRetryable. destruct (errors out); [| reflexivity].
    destruct (retry out) as [[|] |]; congruence.
  - intros retries Hyes. apply (orderFromRestaurant_retry _ _ _ _ _ _ Hat).
    unfold isRetryable. rewrite Hyes. destruct (errors out); congruence.
Qed.

(** C6 (as the code has it).  An exception that escapes a step or the
    submission is caught by [orderFromRestaurant], which returns
    [{ errors: ["Order failed for unknown reason."] }], without a
    [retry] field, in the state the exception left: this is the result
    of the call whatever the retries left, and it does not ask for a
    retry. *)
Theorem C6_exception_ends_batch (steps : list (@Pipeline.Step S)) (submit : M S unit)
    (s s' : S) (e : Exn)
    (Hraise : Pipeline.raises submit steps emptyObj s e s') :
  forall retries,
    orderFromRestaurant steps submit retries s = (Ok Pipeline.unknownFailure, s')
    /\ retry Pipeline.unknownFailure = None
    /\ isRetryable Pipeline.unknownFailure = false.
Proof.
  assert (Hat : attempt steps submit s = (Ok Pipeline.unknownFailure, s')).
  { unfold Pipeline.attempt. simpl.
    inversion Hraise as [pre step post result s0 result1 s1 e0 s0' Hpre Hstep
                        | todo result s0 result1 s1 e0 s0' Hpre Hsub]; subst.
    - rewrite (tryCatch_throw _ _ _ e s'); [reflexivity |].
      rewrite (runSteps_continues _ _ _ _ _ _ _ Hpre). simpl.
      now rewrite (bind_throw _ _ _ _ _ Hstep).
    - rewrite (tryCatch_throw _ _ _ e s'); [reflexivity |].
      rewrite <- (app_nil_r steps).
      rewrite (runSteps_continues _ _ _ _ _ _ _ Hpre). simpl.
      now rewrite (bind_throw _ _ _ _ _ Hsub). }
  intros retries. split; [| split; reflexivity].
  now apply orderFromRestaurant_final.
Qed.

End RetryClaims.

(** ** Concrete runs of the retry loop *)

Ltac evaluate := vm_compute; reflexivity.

(** C3 on a page whose navigations always time out: the Grubhub
    pipeline fails in [setupRestaurant] with [retry: true] each time;
    the start page is visited three times. *)
Lemma C3_retry_budget_exact_witness :
  let env := Fixture.scripted Fixture.stalled in
  let run := Grubhub.orderFromRestaurant env Fixture.cfg Fixture.simplifyOption
               Fixture.atUser "Pizza" [Fixture.order1; Fixture.order2] in
  (exists o s3, run INITIAL_RETRIES Fixture.start = (Ok o, s3) /\ errors o <> None)
  /\ visits Grubhub.URLS_setupRest (trace (snd (run INITIAL_RETRIES Fixture.start))) = 3.
Proof.
  intros env run.
  assert (Hfail : forall s, exists o s',
      Pipeline.attempt
        (Grubhub.steps env Fixture.cfg Fixture.simplifyOption Fixture.atUser "Pizza"
           [Fixture.order1; Fixture.order2])
        (submit env Fixture.cfg "Pizza") s = (Ok o, s') /\ isRetryable o = true).
  { intros s. eexists. eexists. split; reflexivity. }
  destruct (C3_retry_budget_exact _ _ Hfail Fixture.start) as (_ & Hterm & Hcount).
  split; [exact Hterm |].
  apply (Hcount (fun s => visits Grubhub.URLS_setupRest (trace s))).
  intros s0. simpl. unfold visits. rewrite filter_app, length_app. simpl. lia.
Defined.

(** C5 on a page whose checkout button is disabled: [fillOrders], the
    second step, returns [retry: false]. *)
Lemma C5_failure_halts_attempt_witness :
  let env := Fixture.scripted (Fixture.calm [] (Some false)) in
  let out := failure false [Text "Delivery minimum not met."] in
  exists s2,
    fst (Grubhub.fillOrders env Fixture.simplifyOption [Fixture.order1] s2) = Ok (Some out)
    /\ fst (Grubhub.orderFromRestaurant env Fixture.cfg Fixture.simplifyOption
              Fixture.atUser "Pizza" [Fixture.order1] INITIAL_RETRIES Fixture.start)
       = Ok out.
Proof.
  intros env out.
  pose (s1 := snd (Grubhub.setupRestaurant env Fixture.cfg "Pizza" Fixture.start)).
  pose (s2 := snd (Grubhub.fillOrders env Fixture.simplifyOption [Fixture.order1] s1)).
  exists s1. split; [evaluate |].
  destruct (C5_failure_halts_attempt
              [fun _ => Grubhub.setupRestaurant env Fixture.cfg "Pizza"]
              (fun _ => Grubhub.fillOrders env Fixture.simplifyOption [Fixture.order1])
              [fun result => Grubhub.fillNames env Fixture.atUser ["U1"] result;
               fun _ => Grubhub.fillPhoneNumber env [Fixture.order1]]
              (submit env Fixture.cfg "Pizza")
              Fixture.start s1 s2 emptyObj out) as (_ & Hfinal & _).
  - eapply Pipeline.continues_undefined; [evaluate | apply Pipeline.continues_nil].
  - evaluate.
  - discriminate.
  - assert (Hno : retry out <> Some true) by discriminate.
    exact (f_equal fst (Hfinal INITIAL_RETRIES Hno)).
Defined.

(** C6 on a page without a checkout button: the query of [fillOrders]
    for it throws outside the [try] blocks of that step. *)
Lemma C6_exception_ends_batch_witness :
  let env := Fixture.scripted (Fixture.calm [] None) in
  fst (Grubhub.orderFromRestaurant env Fixture.cfg Fixture.simplifyOption
         Fixture.atUser "Pizza" [Fixture.order1] INITIAL_RETRIES Fixture.start)
  = Ok Pipeline.unknownFailure.
Proof.
  intros env.
  pose (s1 := snd (Grubhub.setupRestaurant env Fixture.cfg "Pizza" Fixture.start)).
  pose (s2 := snd (Grubhub.fillOrders env Fixture.simplifyOption [Fixture.order1] s1)).
  assert (Hraise : Pipeline.raises (submit env Fixture.cfg "Pizza")
            (Grubhub.steps env Fixture.cfg Fixture.simplifyOption Fixture.atUser
               "Pizza" [Fixture.order1])
            emptyObj Fixture.start
            (Error "failed to find element matching selector") s2).
  { apply (Pipeline.raises_step _
             [fun _ => Grubhub.setupRestaurant env Fixture.cfg "Pizza"]
             (fun _ => Grubhub.fillOrders env Fixture.simplifyOption [Fixture.order1])
             _ emptyObj Fixture.start emptyObj s1).
    - eapply Pipeline.continues_undefined; [evaluate | apply Pipeline.continues_nil].
    - evaluate. }
  destruct (C6_exception_ends_batch _ _ _ _ _ Hraise INITIAL_RETRIES) as (Hrun & _).
  exact (f_equal fst Hrun).
Defined.

(** C6 as the claim states it fails: with two retries left, the
    exception of the missing checkout button ends the batch after one
    visit of the start page, with a failure that asks for no retry. *)
Lemma C6_counterexample :
  let env := Fixture.scripted (Fixture.calm [] None) in
  let r := Grubhub.orderFromRestaurant env Fixture.cfg Fixture.simplifyOption
             Fixture.atUser "Pizza" [Fixture.order1] INITIAL_RETRIES Fixture.start in
  fst (Grubhub.fillOrders env Fixture.simplifyOption [Fixture.order1] Fixture.start)
    = Throw (Error "failed to find element matching selector")
  /\ (exists o, fst r = Ok o /\ isRetryable o = false)
  /\ visits Grubhub.URLS_setupRest (trace (snd r)) = 1.
Proof.
  split; [evaluate |]. split; [| evaluate].
  eexists. split; [evaluate | reflexivity].
Qed.

(** ** Fuzzy matching *)

(** A reduction that replaces its memo at every match ends with the
    last match. *)
Lemma fold_override_none {A B : Type} (p : A -> bool) (f : A -> B) l : forall init,
  (forall y, In y l -> p y = false) ->
  fold_left (fun memo y => if p y then f y else memo) l init = init.
Proof.
  induction l as [| y l IH]; intros init Hno; simpl; [reflexivity |].
  rewrite (Hno y (or_introl eq_refl)). apply IH. intros z Hz. apply Hno. now right.
Qed.

Lemma fold_override_last {A B : Type} (p : A -> bool) (f : A -> B) before x after init :
  p x = true ->
  (forall y, In y after -> p y = false) ->
  fold_left (fun memo y => if p y then f y else memo) (before ++ x :: after) init = f x.
Proof.
  intros Hx Hafter. rewrite fold_left_app. simpl. rewrite Hx.
  now apply fold_override_none.
Qed.

Lemma get_unique {V : Type} (before : Object V) k v after :
  ~ In k (keys before) -> get (before ++ (k, v) :: after) k = Some v.
Proof.
  induction before as [| [k' v'] before IH]; simpl; intros Hnot.
  - now rewrite String.eqb_refl.
  - destruct (String.eqb_spec k' k) as [-> | _]; [tauto | apply IH; tauto].
Qed.

Lemma state_eta {W : Type} (s : PSt W) : mkPSt (world s) (trace s) = s.
Proof. now destruct s. Qed.

Section FuzzyMatching.

Context {W : Type} (env : Env W).

(** The page shows a fixed text for every element. *)
Variable texts : Handle -> string.
Hypothesis Htexts : forall h w, ask env (InnerText h) w = (Ok (texts h), w).

Lemma query_text h s : query env (InnerText h) s = (Ok (texts h), s).
Proof. unfold query. rewrite Htexts. now rewrite state_eta. Qed.

Lemma findItem_fold item itemLinks : forall ourItem s,
  Seamless.findItem env item itemLinks ourItem s =
    (Ok (fold_left
           (fun memo anchor =>
              if includes (toLowerCase (texts anchor)) (toLowerCase item)
              then Some anchor else memo) itemLinks ourItem), s).
Proof.
  induction itemLinks as [| anchor rest IH]; intros ourItem s; simpl; [reflexivity |].
  rewrite (bind_ok _ _ _ _ _ (query_text anchor s)). apply IH.
Qed.

Lemma findRestaurant_fold restaurant restLinks : forall ourRest s,
  Seamless.findRestaurant env restaurant restLinks ourRest s =
    (Ok (fold_left
           (fun memo anchor =>
              if includes (texts anchor) restaurant then Some anchor else memo)
           restLinks ourRest), s).
Proof.
  induction restLinks as [| anchor rest IH]; intros ourRest s; simpl; [reflexivity |].
  rewrite (bind_ok _ _ _ _ _ (query_text anchor s)). apply IH.
Qed.

(** C2 (as the code has it).  Restaurant and item resolution keep the
    last candidate, in iteration order, whose text contains the query:
    [find_restaurant_by_name] and the item search of [fillOrders]
    compare lower-cased texts, the restaurant search of
    [chooseRestaurant] compares the texts as they are. *)
Theorem C2_last_match_wins :
  (forall (MENU_DATA : Object DataUtil.Restaurant) before name r after rest_name,
      MENU_DATA = before ++ (name, r) :: after ->
      ~ In name (keys before) ->
      includes (toLowerCase name) (toLowerCase rest_name) = true ->
      (forall n, In n (keys after) ->
                 includes (toLowerCase n) (toLowerCase rest_name) = false) ->
      DataUtil.find_restaurant_by_name MENU_DATA rest_name = Some r)
  /\ (forall item before anchor after s,
        includes (toLowerCase (texts anchor)) (toLowerCase item) = true ->
        (forall h, In h after ->
                   includes (toLowerCase (texts h)) (toLowerCase item) = false) ->
        Seamless.findItem env item (before ++ anchor :: after) None s
        = (Ok (Some anchor), s))
  /\ (forall restaurant before anchor after s,
        includes (texts anchor) restaurant = true ->
        (forall h, In h after -> includes (texts h) restaurant = false) ->
        Seamless.findRestaurant env restaurant (before ++ anchor :: after) None s
        = (Ok (Some anchor), s)).
Proof.
  split; [| split].
  - intros MENU_DATA before name r after rest_name -> Hfresh Hname Hafter.
    unfold DataUtil.find_restaurant_by_name, DataUtil.REST_NAMES, keys.
    rewrite map_app. simpl map.
    rewrite (fold_override_last
               (fun n => includes (toLowerCase n) (toLowerCase rest_name))
               (fun n => get (before ++ (name, r) :: after) n)); auto.
    now apply get_unique.
  - intros item before anchor after s Hanchor Hafter.
    rewrite findItem_fold.
    now rewrite (fold_override_last
                   (fun h => includes (toLowerCase (texts h)) (toLowerCase item)) Some).
  - intros restaurant before anchor after s Hanchor Hafter.
    rewrite findRestaurant_fold.
    now rewrite (fold_override_last (fun h => includes (texts h) restaurant) Some).
Qed.

End FuzzyMatching.

(** C2 on the two-pizzeria catalog and page: "pizza" resolves to the
    second entry, "Extreme Pizza". *)
Lemma C2_last_match_wins_witness :
  let env := Fixture.scripted (Fixture.calm [] (Some true)) in
  DataUtil.find_restaurant_by_name Fixture.menuData "pizza" = Some Fixture.extremePizza
  /\ Seamless.findItem env "pizza" [1; 2] None Fixture.start = (Ok (Some 2), Fixture.start)
  /\ Seamless.findRestaurant env "Pizza" [1; 2] None Fixture.start
     = (Ok (Some 2), Fixture.start).
Proof.
  intros env.
  assert (Htexts : forall h w, ask env (InnerText h) w = (Ok (Fixture.pizzaTexts h), w))
    by reflexivity.
  destruct (C2_last_match_wins env Fixture.pizzaTexts Htexts) as (Hcat & Hitem & Hrest).
  split; [| split].
  - apply (Hcat Fixture.menuData [("Pizza Hut", Fixture.pizzaHut)] "Extreme Pizza"
             Fixture.extremePizza [] "pizza").
    + reflexivity.
    + simpl. intros [H | []]. discriminate H.
    + reflexivity.
    + intros n [].
  - apply (Hitem "pizza" [1] 2 [] Fixture.start); [reflexivity | intros h []].
  - apply (Hrest "Pizza" [1] 2 [] Fixture.start); [reflexivity | intros h []].
Defined.

(** C2 as the claim states it fails.  With two candidates that contain
    the query, the first in iteration order ([find] gives it) is not
    the one selected; and the restaurant search of [chooseRestaurant]
    does not see "Pizza Hut" in "pizza hut". *)
Lemma C2_counterexample :
  let env := Fixture.scripted (Fixture.calm [] (Some true)) in
  let contains (q text : string) := includes (toLowerCase text) (toLowerCase q) in
  (option_map snd (find (fun c => contains "pizza" (fst c)) Fixture.menuData)
     = Some Fixture.pizzaHut
   /\ DataUtil.find_restaurant_by_name Fixture.menuData "pizza"
      = Some Fixture.extremePizza
   /\ Fixture.pizzaHut <> Fixture.extremePizza)
  /\ (find (fun h => contains "pizza" (Fixture.pizzaTexts h)) [1; 2] = Some 1
      /\ fst (Seamless.findItem env "pizza" [1; 2] None Fixture.start) = Ok (Some 2))
  /\ (contains "pizza hut" (Fixture.pizzaTexts 1) = true
      /\ fst (Seamless.findRestaurant env "pizza hut" [1; 2] None Fixture.start) = Ok None).
Proof.
  intros env contains. repeat split; try evaluate.
  discriminate.
Qed.

(** ** Inversion of runs *)

Lemma bind_inv {S A B : Type} (m : M S A) (k : A -> M S B) s b s' :
  bind m k s = (Ok b, s') ->
  exists a s1, m s = (Ok a, s1) /\ k a s1 = (Ok b, s').
Proof.
  unfold bind. destruct (m s) as [[a | e] s1]; [eauto | discriminate].
Qed.

Lemma tryCatch_inv {S A : Type} (m : M S A) (h : Exn -> M S A) s r s' :
  tryCatch m h s = (r, s') ->
  (exists a, m s = (Ok a, s') /\ r = Ok a)
  \/ (exists e s1, m s = (Throw e, s1) /\ h e s1 = (r, s')).
Proof.
  unfold tryCatch. destruct (m s) as [[a | e] s1]; intros H.
  - inversion H; subst. left. eauto.
  - right. eauto.
Qed.

Lemma caught_inv {S : Type} (m : M S unit) s s' :
  caught m s = (Ok None, s') -> m s = (Ok tt, s').
Proof.
  unfold caught, tryCatch, bind, ret.
  destruct (m s) as [[[] | e] s1]; intros H; inversion H; reflexivity.
Qed.

Lemma caught_ok {S : Type} (m : M S unit) s s' :
  m s = (Ok tt, s') -> caught m s = (Ok None, s').
Proof. intros H. unfold caught, tryCatch, bind. now rewrite H. Qed.

Lemma run_inv {W : Type} (env : Env W) c s u s' :
  run env c s = (Ok u, s') -> trace s' = trace s ++ [c].
Proof.
  unfold run. destruct (exec env c (world s)) as [r w].
  intros H. inversion H. reflexivity.
Qed.

Lemma query_inv {W A : Type} (env : Env W) (q : Query A) s a s' :
  query env q s = (Ok a, s') ->
  trace s' = trace s /\ exists w', ask env q (world s) = (Ok a, w').
Proof.
  unfold query. destruct (ask env q (world s)) as [r w].
  intros H. inversion H. subst. eauto.
Qed.

Lemma typedTexts_app t1 t2 : typedTexts (t1 ++ t2) = typedTexts t1 ++ typedTexts t2.
Proof. apply flat_map_app. Qed.

(** Take a completed sequence of binds apart, one bind at a time:
    [a] is the value of the first computation, [s] the state it leaves
    and [Hm] its run. *)
Tactic Notation "unbind" hyp(H) "as" ident(a) ident(s) ident(Hm) :=
  apply bind_inv in H; destruct H as (a & s & Hm & H).

(** ** The fill-items step of Grubhub *)

Section GrubhubSteps.

Context {W : Type} (env : Env W) (cfg : Config).
Variable simplifyOption : string -> string.
Variable atUser : option string -> string.

Local Abbreviation fillOrders := (Grubhub.fillOrders env simplifyOption).
Local Abbreviation addItems := (Grubhub.addItems env simplifyOption).
Local Abbreviation fillNames := (Grubhub.fillNames env atUser).
Local Abbreviation enterNames := (Grubhub.enterNames env).

(** C4 (as the code has it).  When all the items have been added and
    the page shows the checkout button disabled, [fillOrders] returns
    [{ retry: false, errors: ["Delivery minimum not met."] }], a
    failure that asks for no retry. *)
Theorem C4_minimum_not_met_is_final (userOrders : list Grubhub.UserOrder)
    (s s1 s2 : PSt W)
    (Hitems : addItems userOrders s = (Ok tt, s1))
    (Hmin : query env (EvalEnabled "button#ghs-cart-checkout-button") s1 = (Ok false, s2)) :
  fillOrders userOrders s
    = (Ok (Some (failure false [Text "Delivery minimum not met."])), s2)
  /\ isRetryable (failure false [Text "Delivery minimum not met."]) = false.
Proof.
  split; [| reflexivity].
  unfold Grubhub.fillOrders.
  rewrite (bind_ok _ _ _ _ _ (caught_ok _ _ _ Hitems)).
  rewrite (bind_ok _ _ _ _ _ Hmin). reflexivity.
Qed.

(** What [fillOrders] can return: a failure, or [{ orderAmounts }] with
    the empty object it created. *)
Lemma fillOrders_output userOrders s out s' :
  fillOrders userOrders s = (Ok out, s') ->
  exists o, out = Some o
            /\ (errors o <> None \/ o = mkObj None None (Some []) None).
Proof.
  unfold Grubhub.fillOrders. intros H. unbind H as thrown s1 Hitems.
  destruct thrown as [e |].
  - inversion H. eexists. split; [reflexivity |]. left. discriminate.
  - unbind H as minimumMet s2 Hmin. destruct minimumMet.
    + simpl in H. apply tryCatch_inv in H.
      destruct H as [(x & Hbody & Hx) | (e & sx & _ & H)].
      * inversion Hx; subst. unbind Hbody as u1 t1 R1. unbind Hbody as u2 t2 R2.
        inversion Hbody. eexists. split; [reflexivity |]. now right.
      * inversion H. eexists. split; [reflexivity |]. left. discriminate.
    + inversion H. eexists. split; [reflexivity |]. left. discriminate.
Qed.

End GrubhubSteps.

(** ** The fill-participants step of Grubhub *)

Section GrubhubNames.

Context {W : Type} (env : Env W).
Variable atUser : option string -> string.

Local Abbreviation fillNames := (Grubhub.fillNames env atUser).
Local Abbreviation enterNames := (Grubhub.enterNames env).

Local Abbreviation notMe :=
  (fun u : User => negb (String.eqb (toLowerCase (Users.name u)) "ajay gandhi")).

Lemma enterNames_typed slackIds : forall s s',
  enterNames slackIds s = (Ok tt, s') ->
  exists people,
    Forall2 (resolved env) slackIds people
    /\ typedTexts (trace s')
       = typedTexts (trace s) ++ map Users.name (filter notMe people).
Proof.
  induction slackIds as [| slackId rest IH]; intros s s' Hrun.
  - inversion Hrun; subst. exists []. split; [constructor |].
    simpl. now rewrite app_nil_r.
  - unfold Grubhub.enterNames in Hrun. simpl in Hrun. unbind Hrun as u0 s0 Hbody.
    destruct (IH _ _ Hrun) as (people & Hpeople & Htyped). clear IH Hrun.
    unbind Hbody as found t0 Hget. destruct found as [u |]; [| discriminate].
    apply query_inv in Hget. destruct Hget as (Htrace & w' & Hask).
    exists (u :: people). split.
    + constructor; [now exists (world s), w' | exact Hpeople].
    + rewrite Htyped. simpl filter.
      destruct (String.eqb (toLowerCase (Users.name u)) "ajay gandhi"); simpl negb; cbv iota.
      * inversion Hbody; subst. now rewrite Htrace.
      * unbind Hbody as u1 t1 R1. unbind Hbody as u2 t2 R2.
        unbind Hbody as u3 t3 R3. unbind Hbody as u4 t4 R4.
        apply run_inv in R1, R2, R3, R4, Hbody.
        rewrite Hbody, R4, R3, R2, R1, Htrace, !typedTexts_app. simpl.
        now rewrite !app_nil_r, <- app_assoc.
Qed.

(** The failure [fillNames] builds on a budget violation. *)
Local Abbreviation violation :=
  (fun (slackIds : list string) (amountAllocated : list Q) (orderAmounts : Object Q) =>
     failure false
       [ExceededBudget (excessOf amountAllocated (List.length slackIds))
          (atUser (who (maxOrder orderAmounts))) (amount (maxOrder orderAmounts))]).

(** What [fillNames] has done when it returns: the names are entered,
    the allocations are read from the page, and an object is returned
    exactly when the largest of them exceeds 25. *)
Lemma fillNames_inv slackIds result s out s' :
  fillNames slackIds result s = (Ok out, s') ->
  exists s1 s2 amountAllocated,
    enterNames slackIds s1 = (Ok tt, s2)
    /\ typedTexts (trace s1) = typedTexts (trace s)
    /\ typedTexts (trace s') = typedTexts (trace s2)
    /\ (exists w w', ask env (EvalNumbers "div.allocation-saved-cell") w
                     = (Ok amountAllocated, w'))
    /\ match maxExceeds (max amountAllocated) 25, orderAmounts result with
       | true, Some orderAmounts =>
           out = Some (violation slackIds amountAllocated orderAmounts)
       | true, None => False
       | false, _ => out = None
       end.
Proof.
  unfold Grubhub.fillNames. intros H.
  unbind H as u1 t1 R1. unbind H as u2 t2 R2. unbind H as u3 t3 R3.
  unbind H as u4 t4 Henter. unbind H as u5 t5 R5.
  unbind H as found t6 Q6. destruct found as [myAllocation |]; [| discriminate].
  unbind H as u7 t7 R7. unbind H as u8 t8 R8. unbind H as u9 t9 R9.
  unbind H as u10 t10 R10. unbind H as amountAllocated t11 Q11.
  apply run_inv in R1, R2, R3, R5, R7, R8, R9, R10.
  apply query_inv in Q6, Q11.
  destruct Q6 as (Ht6 & _). destruct Q11 as (Ht11 & w' & Hask).
  exists t3, t4, amountAllocated. destruct u4. split; [exact Henter |]. split.
  { rewrite R3, R2, R1, !typedTexts_app. simpl. now rewrite !app_nil_r. }
  assert (Hs9 : typedTexts (trace t11) = typedTexts (trace t4)).
  { rewrite Ht11, R10, R9, R8, R7, Ht6, R5, !typedTexts_app. simpl.
    now rewrite !app_nil_r. }
  destruct (maxExceeds (max amountAllocated) 25).
  - destruct (orderAmounts result) as [orderAmounts |]; [| discriminate].
    inversion H; subst. split; [exact Hs9 |]. split; [eauto | reflexivity].
  - inversion H; subst. split; [exact Hs9 |]. split; [eauto | reflexivity].
Qed.


End GrubhubNames.

(** ** Frames: what a run leaves unchanged *)

Section Frames.

Context {S : Type} (R : S -> S -> Prop) {HR : PreOrder R}.

Lemma framed_ret {A : Type} (a : A) : framed R (ret a).
Proof. intros s r s' H. inversion H. reflexivity. Qed.

Lemma framed_throw {A : Type} (e : Exn) : framed R (throw (A := A) e).
Proof. intros s r s' H. inversion H. reflexivity. Qed.

(** The continuation need only be framed for the values the first
    computation can return. *)
Lemma framed_bind {A B : Type} (m : M S A) (k : A -> M S B) :
  framed R m ->
  (forall a s s1, m s = (Ok a, s1) -> framed R (k a)) ->
  framed R (bind m k).
Proof.
  intros Hm Hk s r s' H. unfold bind in H.
  destruct (m s) as [[a | e] s1] eqn:Hrun.
  - transitivity s1; [exact (Hm _ _ _ Hrun) | exact (Hk _ _ _ Hrun _ _ _ H)].
  - inversion H; subst. exact (Hm _ _ _ Hrun).
Qed.

Lemma framed_tryCatch {A : Type} (m : M S A) (h : Exn -> M S A) :
  framed R m -> (forall e, framed R (h e)) -> framed R (tryCatch m h).
Proof.
  intros Hm Hh s r s' H. apply tryCatch_inv in H.
  destruct H as [(a & Hrun & _) | (e & s1 & Hrun & Hhandler)].
  - exact (Hm _ _ _ Hrun).
  - transitivity s1; [exact (Hm _ _ _ Hrun) | exact (Hh _ _ _ _ Hhandler)].
Qed.

Lemma framed_caught (m : M S unit) : framed R m -> framed R (caught m).
Proof.
  intros Hm. unfold caught. apply framed_tryCatch.
  - apply framed_bind; [exact Hm | intros; apply framed_ret].
  - intros e. apply framed_ret.
Qed.

Lemma framed_forEach {A : Type} (l : list A) (body : A -> M S unit) :
  (forall x, In x l -> framed R (body x)) -> framed R (forEach l body).
Proof.
  induction l as [| x l IH]; intros Hbody; simpl.
  - apply framed_ret.
  - apply framed_bind; [apply Hbody; now left |].
    intros _ _ _ _. apply IH. intros y Hy. apply Hbody. now right.
Qed.

Lemma framed_promiseAll (ms : list (M S unit)) :
  (forall m, In m ms -> framed R m) -> framed R (promiseAll ms).
Proof.
  induction ms as [| m ms IH]; intros Hall; simpl.
  - apply framed_ret.
  - apply framed_bind; [apply framed_caught, Hall; now left |].
    intros first _ _ _. apply framed_bind.
    + apply framed_caught, IH. intros m' Hm'. apply Hall. now right.
    + intros others _ _ _.
      destruct first; [apply framed_throw |].
      destruct others; [apply framed_throw | apply framed_ret].
Qed.

End Frames.

#[local] Instance sameResults_preorder {W BR : Type} : PreOrder (@sameResults W BR).
Proof.
  split.
  - intros s. reflexivity.
  - intros s1 s2 s3 H12 H23. unfold sameResults in *. congruence.
Qed.

#[local] Instance callsOnly_preorder {W BR : Type} (P : Service -> Prop)
  : PreOrder (@callsOnly W BR P).
Proof.
  split.
  - intros s. exists []. split; [now rewrite app_nil_r | constructor].
  - intros s1 s2 s3 (n1 & H1 & P1) (n2 & H2 & P2).
    exists (n1 ++ n2). split.
    + now rewrite H2, H1, app_assoc.
    + apply Forall_app. now split.
Qed.

Section RunFrames.

Context {W BR : Type} (env : Env W).

Lemma liftP_sameResults {A : Type} (m : M (PSt W) A) :
  framed sameResults (liftP (BR := BR) m).
Proof.
  intros s r s' H. unfold liftP in H. destruct (m (page s)) as [r0 p].
  inversion H. reflexivity.
Qed.

Lemma call_sameResults c : framed sameResults (call (BR := BR) env c).
Proof.
  intros s r s' H. unfold call in H.
  destruct (serve env c (world (page s))) as [r0 w]. inversion H. reflexivity.
Qed.

Lemma liftP_callsOnly {A : Type} P (m : M (PSt W) A) :
  framed (callsOnly P) (liftP (BR := BR) m).
Proof.
  intros s r s' H. unfold liftP in H. destruct (m (page s)) as [r0 p].
  inversion H. exists []. simpl. split; [now rewrite app_nil_r | constructor].
Qed.

Lemma call_callsOnly (P : Service -> Prop) c :
  P c -> framed (callsOnly P) (call (BR := BR) env c).
Proof.
  intros Hc s r s' H. unfold call in H.
  destruct (serve env c (world (page s))) as [r0 w]. inversion H.
  exists [c]. simpl. split; [reflexivity | now constructor].
Qed.

Lemma push_callsOnly P (b : BR) : framed (callsOnly P) (push (W := W) b).
Proof.
  intros s r s' H. inversion H. exists []. simpl.
  split; [now rewrite app_nil_r | constructor].
Qed.

Lemma resetResults_callsOnly P : framed (callsOnly P) (resetResults (W := W) (BR := BR)).
Proof.
  intros s r s' H. inversion H. exists []. simpl.
  split; [now rewrite app_nil_r | constructor].
Qed.

Lemma publish_callsOnly P : framed (callsOnly P) (publish (W := W) (BR := BR)).
Proof.
  intros s r s' H. inversion H. exists []. simpl.
  split; [now rewrite app_nil_r | constructor].
Qed.

(** A loop whose every turn appends at most one result for its batch,
    and exactly one when it completes, leaves results that follow the
    batches: one per batch taken, in order. *)
Lemma forEach_results {A : Type} (body : A -> M (RSt W BR) unit)
    (key : A -> string) (keyOf : BR -> string) :
  (forall x s r s', body x s = (r, s') ->
     exists done, results s' = results s ++ done
                  /\ map keyOf done = firstn (List.length done) [key x]
                  /\ (r = Ok tt -> List.length done = 1)) ->
  forall l s r s', forEach l body s = (r, s') ->
    exists done, results s' = results s ++ done
                 /\ map keyOf done = firstn (List.length done) (map key l)
                 /\ (r = Ok tt -> List.length done = List.length l).
Proof.
  intros Hbody. induction l as [| x l IH]; intros s r s' H; simpl in H.
  - inversion H. exists []. simpl. now rewrite app_nil_r.
  - unfold bind in H. destruct (body x s) as [[[] | e] s1] eqn:Hx.
    + destruct (Hbody _ _ _ _ Hx) as (d1 & Hr1 & Hk1 & Hn1).
      destruct (IH _ _ _ H) as (d2 & Hr2 & Hk2 & Hn2).
      specialize (Hn1 eq_refl).
      destruct d1 as [| b [| c d1]]; try discriminate Hn1.
      exists (b :: d2). split; [| split].
      * rewrite Hr2, Hr1, <- app_assoc. reflexivity.
      * simpl in Hk1. injection Hk1 as Hb. simpl. now rewrite Hk2, Hb.
      * intros Hr. simpl. now rewrite (Hn2 Hr).
    + inversion H; subst.
      destruct (Hbody _ _ _ _ Hx) as (d1 & Hr1 & Hk1 & _).
      exists d1. split; [exact Hr1 |]. split; [| discriminate].
      destruct d1 as [| b [| c d1]]; simpl in *; try exact Hk1.
      discriminate Hk1.
Qed.

End RunFrames.

(** ** What a successful Grubhub pipeline returns *)

Section SuccessfulSteps.

Context {S : Type}.
Variable submit : M S unit.

Local Abbreviation runSteps := (Pipeline.runSteps submit).

(** The loop returns, without [errors], only if its next step
    continued. *)
Lemma runSteps_success_inv (step : Pipeline.Step) rest result (s : S) o s' :
  runSteps None (step :: rest) result s = (Ok o, s') ->
  errors o = None ->
  exists out s1,
    step result s = (Ok out, s1)
    /\ match out with
       | None => runSteps None rest result s1 = (Ok o, s')
       | Some v => errors v = None
                   /\ runSteps None rest (assign result v) s1 = (Ok o, s')
       end.
Proof.
  simpl. intros H Ho. unbind H as out s1 Hstep.
  exists out, s1. split; [exact Hstep |].
  destruct out as [v |]; [| exact H].
  destruct (errors v) as [es |] eqn:Hv; [| now split].
  exfalso.
  assert (Hret : o = v) by (destruct (retry v) as [[|] |]; now inversion H).
  subst o. congruence.
Qed.

Lemma runSteps_nil_inv result (s : S) o s' :
  runSteps None [] result s = (Ok o, s') -> o = result.
Proof.
  simpl. intros H. unbind H as u s1 Hsub. now inversion H.
Qed.

Lemma attempt_eq (steps : list (@Pipeline.Step S)) :
  Pipeline.attempt steps submit
  = tryCatch (runSteps None steps emptyObj) (fun _ => ret Pipeline.unknownFailure).
Proof. reflexivity. Qed.

End SuccessfulSteps.

(** Take apart a completed sequence of binds, forgetting the runs. *)
Ltac unbinds H :=
  repeat (apply bind_inv in H; destruct H as (? & ? & _ & H)).

Section GrubhubSuccess.

Context {W : Type} (env : Env W) (cfg : Config).
Variable simplifyOption : string -> string.
Variable atUser : option string -> string.

Local Abbreviation orderFromRestaurant :=
  (Grubhub.orderFromRestaurant env cfg simplifyOption atUser).

Lemma setupRestaurant_output restaurant s v s' :
  Grubhub.setupRestaurant env cfg restaurant s = (Ok (Some v), s') ->
  errors v <> None.
Proof.
  unfold Grubhub.setupRestaurant. intros H. apply tryCatch_inv in H.
  destruct H as [(a & Hbody & Ha) | (e & s1 & _ & H)].
  - unbinds Hbody. inversion Hbody; subst. discriminate Ha.
  - destruct (isTypeError e); inversion H; discriminate.
Qed.

(** [fillPhoneNumber] returns a failure or [{ user }], the directory's
    record for the slack id picked, by the draw, among [eligible]. *)
Lemma fillPhoneNumber_output orders s out s' :
  Grubhub.fillPhoneNumber env orders s = (Ok out, s') ->
  exists v, out = Some v
    /\ ((exists e, v = failure true [Text (toString e)])
        \/ exists r callee,
             v = mkObj None None None (Some callee)
             /\ (exists w w', ask env Random w = (Ok r, w'))
             /\ (exists w w', ask env (GetUser (Grubhub.pick (Grubhub.eligible orders) r)) w
                              = (Ok (Some callee), w'))).
Proof.
  unfold Grubhub.fillPhoneNumber. intros H. apply tryCatch_inv in H.
  destruct H as [(a & Hbody & Ha) | (e & s1 & _ & H)].
  - inversion Ha; subst a. clear Ha.
    unbind Hbody as r t1 Hrandom. unbind Hbody as found t2 Hget.
    unbind Hbody as shouldClick t3 Q3. unbind Hbody as u4 t4 R4.
    unbind Hbody as who t5 Q5.
    destruct who as [whoYaGonnaCall |]; [| discriminate].
    unbind Hbody as u6 t6 R6. destruct found as [callee |]; [| discriminate].
    unbinds Hbody. inversion Hbody; subst.
    apply query_inv in Hrandom, Hget.
    destruct Hrandom as (_ & w1 & Hrandom). destruct Hget as (_ & w2 & Hget).
    eexists. split; [reflexivity |]. right. exists r, callee.
    split; [reflexivity |].
    split; [now exists (world s), w1 | now exists (world t1), w2].
  - inversion H. eexists. split; [reflexivity |]. left. now exists e.
Qed.

(** A result without [errors] carries the empty [orderAmounts] of
    [fillOrders] and the [user] of [fillPhoneNumber]. *)
Lemma attempt_success restaurant userOrders s o s' :
  Pipeline.attempt (Grubhub.steps env cfg simplifyOption atUser restaurant userOrders)
    (submit env cfg restaurant) s = (Ok o, s') ->
  errors o = None ->
  orderAmounts o = Some [] /\ exists callee, user o = Some callee.
Proof.
  rewrite attempt_eq. intros H Ho. apply tryCatch_inv in H.
  destruct H as [(a & H & Ha) | (e & s1 & _ & H)];
    [| inversion H; subst; discriminate Ho].
  inversion Ha; subst a. clear Ha. unfold Grubhub.steps in H.
  apply runSteps_success_inv in H; [| exact Ho].
  destruct H as (out1 & s1 & H1 & H).
  destruct out1 as [v1 |].
  { destruct H as (Hv1 & _). now apply setupRestaurant_output in H1. }
  apply runSteps_success_inv in H; [| exact Ho].
  destruct H as (out2 & s2 & H2 & H).
  apply fillOrders_output in H2. destruct H2 as (v2 & -> & Hv2).
  destruct H as (Hno2 & H). destruct Hv2 as [Hv2 | ->]; [contradiction |].
  apply runSteps_success_inv in H; [| exact Ho].
  destruct H as (out3 & s3 & H3 & H).
  apply fillNames_inv in H3.
  destruct H3 as (_ & _ & amountAllocated & _ & _ & _ & _ & H3).
  simpl orderAmounts in H3.
  destruct out3 as [v3 |].
  { destruct H as (Hv3 & _).
    destruct (maxExceeds (max amountAllocated) 25); [| discriminate H3].
    inversion H3; subst v3. discriminate Hv3. }
  apply runSteps_success_inv in H; [| exact Ho].
  destruct H as (out4 & s4 & H4 & H).
  apply fillPhoneNumber_output in H4. destruct H4 as (v4 & -> & Hv4).
  destruct H as (Hno4 & H).
  destruct Hv4 as [(e & ->) | (r & callee & -> & _)]; [discriminate Hno4 |].
  apply runSteps_nil_inv in H. subst o. simpl. eauto.
Qed.

Lemma orderFromRestaurant_success restaurant userOrders retries : forall s o s',
  orderFromRestaurant restaurant userOrders retries s = (Ok o, s') ->
  errors o = None ->
  orderAmounts o = Some [] /\ exists callee, user o = Some callee.
Proof.
  unfold Grubhub.orderFromRestaurant.
  induction retries as [| retries IH]; intros s o s' H Ho.
  - now apply (attempt_success restaurant userOrders s o s').
  - rewrite orderFromRestaurant_succ in H.
    destruct (Pipeline.attempt _ _ s) as [[o1 | e] s1] eqn:Hat; [| discriminate].
    destruct (isRetryable o1).
    + now apply (IH s1 o s').
    + inversion H; subst. now apply (attempt_success restaurant userOrders s o s').
Qed.

End GrubhubSuccess.

(** ** The choice of the callee *)

Lemma eligible_filter (orders : list Grubhub.UserOrder) :
  Grubhub.eligible orders
  = map Grubhub.slackId (filter (fun o => negb (Grubhub.isDonor o)) orders).
Proof.
  unfold Grubhub.eligible.
  assert (Hgen : forall memo,
    fold_left (fun memo o => if Grubhub.isDonor o then memo else memo ++ [Grubhub.slackId o])
      orders memo
    = memo ++ map Grubhub.slackId (filter (fun o => negb (Grubhub.isDonor o)) orders)).
  { induction orders as [| o orders IH]; intros memo; simpl.
    - now rewrite app_nil_r.
    - rewrite IH. destruct (Grubhub.isDonor o); simpl; [reflexivity |].
      now rewrite <- app_assoc. }
  apply Hgen.
Qed.

(** A draw in [0, 1) picks an element of a list that is not empty. *)
Lemma pick_in (slackIds : list string) (r : Q) :
  slackIds <> [] -> (0 <= r)%Q -> (r < 1)%Q ->
  exists id, Grubhub.pick slackIds r = Some id /\ In id slackIds.
Proof.
  intros Hne H0 H1. unfold Grubhub.pick, index.
  set (n := Z.of_nat (List.length slackIds)).
  assert (Hn : (0 < n)%Z).
  { subst n. destruct slackIds; [contradiction | simpl; lia]. }
  set (z := Qfloor (r * inject_Z n)).
  assert (Hlo : (0 <= z)%Z).
  { subst z. rewrite <- (Qfloor_Z 0). apply Qfloor_resp_le.
    apply Qmult_le_0_compat; [exact H0 |].
    change 0%Q with (inject_Z 0). rewrite <- Zle_Qle. lia. }
  assert (Hhi : (z < n)%Z).
  { rewrite Zlt_Qlt. apply Qle_lt_trans with (r * inject_Z n)%Q.
    - apply Qfloor_le.
    - rewrite <- (Qmult_1_l (inject_Z n)) at 2.
      apply Qmult_lt_compat_r; [| exact H1].
      change 0%Q with (inject_Z 0). rewrite <- Zlt_Qlt. exact Hn. }
  destruct (Z.ltb_spec z 0) as [Hneg | _]; [lia |].
  destruct (nth_error slackIds (Z.to_nat z)) as [id |] eqn:Hnth.
  - exists id. split; [reflexivity |]. eapply nth_error_In, Hnth.
  - apply nth_error_None in Hnth. subst n. lia.
Qed.

(** ** The run of [go] on Grubhub *)

Section GrubhubRun.

Context {W : Type} (env : Env W) (cfg : Config).
Variable simplifyOption : string -> string.
Variable atUser : option string -> string.

Local Abbreviation processOrderSet :=
  (Grubhub.processOrderSet env cfg simplifyOption atUser).
Local Abbreviation go := (Grubhub.go env cfg simplifyOption atUser).

(** The calls of one turn of the loop: stats for the participants that
    are not donors, with an undefined amount, and the callee. *)
Lemma processOrderSet_calls (P : Service -> Prop) orderSet :
  (forall o isCallee,
      In o (Grubhub.users orderSet) -> Grubhub.isDonor o = false ->
      P (RecordStats (Grubhub.slackId o) (Grubhub.restaurant orderSet) None
           (Grubhub.items o) isCallee)) ->
  (forall id, P (SetCallee id)) ->
  framed (callsOnly P) (processOrderSet orderSet).
Proof.
  intros Hstats Hcallee. unfold Grubhub.processOrderSet.
  apply framed_bind; [typeclasses eauto | apply liftP_callsOnly |].
  intros orderResult s s1 Hrun.
  apply framed_bind; [typeclasses eauto | | intros; apply liftP_callsOnly].
  destruct (errors orderResult) as [errs |] eqn:Herr; [apply push_callsOnly |].
  destruct (user orderResult) as [callee |];
    [| apply framed_throw; typeclasses eauto].
  assert (Hamounts : orderAmounts orderResult = Some []).
  { unfold liftP in Hrun.
    destruct (Grubhub.orderFromRestaurant env cfg simplifyOption atUser
                (Grubhub.restaurant orderSet) (Grubhub.users orderSet)
                INITIAL_RETRIES (page s)) as [r p] eqn:Hpipe.
    inversion Hrun; subst.
    now destruct (orderFromRestaurant_success _ _ _ _ _ _ _ _ _ _ Hpipe Herr). }
  rewrite Hamounts.
  apply framed_bind; [typeclasses eauto | apply push_callsOnly |].
  intros _ _ _ _.
  destruct (negb (DRY_RUN cfg)); [| apply framed_ret; typeclasses eauto].
  apply framed_bind; [typeclasses eauto | | intros; now apply call_callsOnly].
  apply framed_promiseAll; [typeclasses eauto |].
  intros m Hm. apply in_map_iff in Hm. destruct Hm as (o & <- & Ho).
  apply filter_In in Ho. destruct Ho as (Ho & Hdonor).
  apply call_callsOnly. simpl. apply Hstats; [exact Ho |].
  now destruct (Grubhub.isDonor o).
Qed.

Lemma go_calls (P : Service -> Prop) orderSets :
  (forall orderSet o isCallee,
      In orderSet orderSets ->
      In o (Grubhub.users orderSet) -> Grubhub.isDonor o = false ->
      P (RecordStats (Grubhub.slackId o) (Grubhub.restaurant orderSet) None
           (Grubhub.items o) isCallee)) ->
  (forall id, P (SetCallee id)) ->
  framed (callsOnly P) (go orderSets).
Proof.
  intros Hstats Hcallee. unfold Grubhub.go.
  apply framed_bind; [typeclasses eauto | apply resetResults_callsOnly |].
  intros _ _ _ _.
  apply framed_bind; [typeclasses eauto | | intros; apply publish_callsOnly].
  apply framed_tryCatch; [typeclasses eauto | | intros; apply framed_ret; typeclasses eauto].
  unfold Grubhub.ordering.
  apply framed_bind; [typeclasses eauto | apply liftP_callsOnly |].
  intros _ _ _ _. apply framed_forEach; [typeclasses eauto |].
  intros orderSet Hin. apply processOrderSet_calls; [| exact Hcallee].
  intros o isCallee. now apply Hstats.
Qed.

(** One turn of the loop appends at most one result, for its batch,
    and exactly one when it completes. *)
Lemma processOrderSet_results orderSet s r s' :
  processOrderSet orderSet s = (r, s') ->
  exists done, results s' = results s ++ done
               /\ map Grubhub.restaurantOf done
                  = firstn (List.length done) [Grubhub.restaurant orderSet]
               /\ (r = Ok tt -> List.length done = 1).
Proof.
  unfold Grubhub.processOrderSet. intros H. unfold bind at 1 in H.
  match type of H with
  | context [liftP ?m s] => destruct (liftP m s) as [[o | e] s1] eqn:Hpipe
  end.
  2: { inversion H; subst. apply liftP_sameResults in Hpipe.
       exists []. rewrite Hpipe, app_nil_r. repeat split. discriminate. }
  apply liftP_sameResults in Hpipe. unfold sameResults in Hpipe.
  unfold bind at 1 in H.
  assert (Htail : forall b s2 r0 s0,
    results s2 = results s1 ++ [b] ->
    Grubhub.restaurantOf b = Grubhub.restaurant orderSet ->
    liftP (BR := Grubhub.BatchResult) (run env (WaitFor (Ms 5000))) s2 = (r0, s0) ->
    exists done, results s0 = results s ++ done
                 /\ map Grubhub.restaurantOf done
                    = firstn (List.length done) [Grubhub.restaurant orderSet]
                 /\ (r0 = Ok tt -> List.length done = 1)).
  { intros b s2 r0 s0 Hb Hkey Hwait. apply liftP_sameResults in Hwait.
    exists [b]. rewrite Hwait, Hb, Hpipe. simpl. now rewrite Hkey. }
  destruct (errors o) as [errs |].
  - simpl in H. refine (Htail _ _ _ _ _ _ H); reflexivity.
  - destruct (user o) as [callee |].
    + match type of H with
      | context [bind (push ?b) ?k s1] =>
          destruct (bind (push b) k s1) as [r2 s2] eqn:Hpush
      end.
      unfold bind at 1 in Hpush. unfold push at 1 in Hpush. cbv beta iota in Hpush.
      assert (Hstats : results s2 = results s1 ++
                [Grubhub.Succeeded (Grubhub.restaurant orderSet) (Users.slackId callee)
                   (confirmationUrlOf (Grubhub.restaurant orderSet))]).
      { match type of Hpush with
        | ?m ?st = _ => assert (Hf : framed sameResults m)
        end.
        { destruct (negb (DRY_RUN cfg)); [| apply framed_ret; typeclasses eauto].
          apply framed_bind; [typeclasses eauto | | intros; apply call_sameResults].
          apply framed_promiseAll; [typeclasses eauto |].
          intros m Hm. apply in_map_iff in Hm. destruct Hm as (x & <- & _).
          destruct (orderAmounts o);
            [apply call_sameResults | apply framed_throw; typeclasses eauto]. }
        apply Hf in Hpush. exact Hpush. }
      destruct r2 as [[] | e].
      * refine (Htail _ _ _ _ Hstats _ H). reflexivity.
      * inversion H; subst. eexists. split; [rewrite Hstats, Hpipe; reflexivity |].
        split; [reflexivity | discriminate].
    + inversion H; subst. exists []. rewrite Hpipe, app_nil_r.
      repeat split. discriminate.
Qed.

(** The results of a run follow the batches: one result per batch
    taken, in order; all the batches are taken when the [try] block of
    [go] completes. *)
Lemma go_results orderSets s :
  let s' := snd (go orderSets s) in
  map Grubhub.restaurantOf (results s')
    = firstn (List.length (results s')) (map Grubhub.restaurant orderSets)
  /\ published s' = Some (results s')
  /\ (fst (Grubhub.ordering env cfg simplifyOption atUser orderSets (snd (resetResults s)))
        = Ok tt ->
      List.length (results s') = List.length orderSets).
Proof.
  intros s'.
  set (s0 := mkRSt (page s) (calls s) [] (published s)).
  change (snd (resetResults s)) with s0.
  destruct (Grubhub.ordering env cfg simplifyOption atUser orderSets s0)
    as [r s1] eqn:Hord.
  assert (Hs' : s' = mkRSt (page s1) (calls s1) (results s1) (Some (results s1))).
  { subst s'. unfold Grubhub.go, bind, resetResults, tryCatch, publish, ret.
    fold s0. rewrite Hord. now destruct r as [[] | e]. }
  assert (Hloop : exists done, results s1 = done
             /\ map Grubhub.restaurantOf done
                = firstn (List.length done) (map Grubhub.restaurant orderSets)
             /\ (r = Ok tt -> List.length done = List.length orderSets)).
  { unfold Grubhub.ordering in Hord. unfold bind at 1 in Hord.
    match type of Hord with
    | context [liftP ?m s0] => destruct (liftP m s0) as [[[] | e] t0] eqn:Hlogin
    end; apply liftP_sameResults in Hlogin; unfold sameResults in Hlogin;
      simpl in Hlogin.
    - destruct (forEach_results processOrderSet Grubhub.restaurant
                  Grubhub.restaurantOf processOrderSet_results _ _ _ _ Hord)
        as (done & Hres & Hkeys & Hlen).
      rewrite Hlogin in Hres. simpl in Hres. exists done. now subst done.
    - inversion Hord; subst. exists []. rewrite Hlogin. simpl.
      repeat split. discriminate. }
  destruct Hloop as (done & Hres & Hkeys & Hlen).
  rewrite Hs'. simpl. rewrite Hres. repeat split; auto.
Qed.

End GrubhubRun.

(** ** The run of [go] on Seamless *)

Section SeamlessRun.

Context {W : Type} (env : Env W) (cfg : Config).
Variable fuel : nat.

Local Abbreviation processOrderSet := (Seamless.processOrderSet env cfg fuel).
Local Abbreviation go := (Seamless.go env cfg fuel).

Lemma seamless_processOrderSet_results orderSet s r s' :
  processOrderSet orderSet s = (r, s') ->
  exists done, results s' = results s ++ done
               /\ map Seamless.restaurantOf done
                  = firstn (List.length done) [Seamless.restaurant orderSet]
               /\ (r = Ok tt -> List.length done = 1).
Proof.
  unfold Seamless.processOrderSet. intros H. unfold bind at 1 in H.
  match type of H with
  | context [liftP ?m s] => destruct (liftP m s) as [[o | e] s1] eqn:Hpipe
  end.
  2: { inversion H; subst. apply liftP_sameResults in Hpipe.
       exists []. rewrite Hpipe, app_nil_r. repeat split. discriminate. }
  apply liftP_sameResults in Hpipe. unfold sameResults in Hpipe.
  unfold bind at 1 in H.
  assert (Htail : forall b s2 r0 s0,
    results s2 = results s1 ++ [b] ->
    Seamless.restaurantOf b = Seamless.restaurant orderSet ->
    liftP (BR := Seamless.BatchResult) (run env (WaitFor (Ms 5000))) s2 = (r0, s0) ->
    exists done, results s0 = results s ++ done
                 /\ map Seamless.restaurantOf done
                    = firstn (List.length done) [Seamless.restaurant orderSet]
                 /\ (r0 = Ok tt -> List.length done = 1)).
  { intros b s2 r0 s0 Hb Hkey Hwait. apply liftP_sameResults in Hwait.
    exists [b]. rewrite Hwait, Hb, Hpipe. simpl. now rewrite Hkey. }
  destruct (errors o) as [errs |].
  - simpl in H. refine (Htail _ _ _ _ _ _ H); reflexivity.
  - destruct (user o) as [callee |].
    + match type of H with
      | context [bind (push ?b) ?k s1] =>
          destruct (bind (push b) k s1) as [r2 s2] eqn:Hpush
      end.
      unfold bind at 1 in Hpush. unfold push at 1 in Hpush. cbv beta iota in Hpush.
      assert (Hstats : results s2 = results s1 ++
                [Seamless.Succeeded (Seamless.restaurant orderSet) (Users.username callee)
                   (confirmationUrlOf (Seamless.restaurant orderSet))]).
      { match type of Hpush with
        | ?m ?st = _ => assert (Hf : framed sameResults m)
        end.
        { destruct (negb (DRY_RUN cfg)); [| apply framed_ret; typeclasses eauto].
          apply framed_promiseAll; [typeclasses eauto |].
          intros m Hm. apply in_map_iff in Hm. destruct Hm as (x & <- & _).
          destruct (orderAmounts o);
            [apply call_sameResults | apply framed_throw; typeclasses eauto]. }
        apply Hf in Hpush. exact Hpush. }
      destruct r2 as [[] | e].
      * refine (Htail _ _ _ _ Hstats _ H). reflexivity.
      * inversion H; subst. eexists. split; [rewrite Hstats, Hpipe; reflexivity |].
        split; [reflexivity | discriminate].
    + inversion H; subst. exists []. rewrite Hpipe, app_nil_r.
      repeat split. discriminate.
Qed.

Lemma seamless_go_results orderSets s :
  let s' := snd (go orderSets s) in
  map Seamless.restaurantOf (results s')
    = firstn (List.length (results s')) (map Seamless.restaurant orderSets)
  /\ published s' = Some (results s')
  /\ (fst (Seamless.ordering env cfg fuel orderSets (snd (resetResults s))) = Ok tt ->
      List.length (results s') = List.length orderSets).
Proof.
  intros s'.
  set (s0 := mkRSt (page s) (calls s) [] (published s)).
  change (snd (resetResults s)) with s0.
  destruct (Seamless.ordering env cfg fuel orderSets s0) as [r s1] eqn:Hord.
  assert (Hs' : s' = mkRSt (page s1) (calls s1) (results s1) (Some (results s1))).
  { subst s'. unfold Seamless.go, bind, resetResults, tryCatch, publish, ret.
    fold s0. rewrite Hord. now destruct r as [[] | e]. }
  assert (Hloop : exists done, results s1 = done
             /\ map Seamless.restaurantOf done
                = firstn (List.length done) (map Seamless.restaurant orderSets)
             /\ (r = Ok tt -> List.length done = List.length orderSets)).
  { unfold Seamless.ordering in Hord. unfold bind at 1 in Hord.
    match type of Hord with
    | context [liftP ?m s0] => destruct (liftP m s0) as [[[] | e] t0] eqn:Hlogin
    end; apply liftP_sameResults in Hlogin; unfold sameResults in Hlogin;
      simpl in Hlogin.
    - destruct (forEach_results processOrderSet Seamless.restaurant
                  Seamless.restaurantOf seamless_processOrderSet_results _ _ _ _ Hord)
        as (done & Hres & Hkeys & Hlen).
      rewrite Hlogin in Hres. simpl in Hres. exists done. now subst done.
    - inversion Hord; subst. exists []. rewrite Hlogin. simpl.
      repeat split. discriminate. }
  destruct Hloop as (done & Hres & Hkeys & Hlen).
  rewrite Hs'. simpl. rewrite Hres. repeat split; auto.
Qed.

End SeamlessRun.

(** C8 (as the code has it).  In both variants the results of a run
    follow the batches: their restaurants are those of the first
    batches, in the order given, one result per batch, and they are
    what is published.  There is one result for every batch when no
    exception reaches the [catch] of [go]; an exception there (a failed
    login, a failed write of the stats) ends the loop, and the batches
    not yet taken get no result. *)
Theorem C8_results_follow_batches :
  (forall (W : Type) (env : Env W) (cfg : Config) simplifyOption atUser
          (orderSets : list Grubhub.OrderSet) (s : RSt W Grubhub.BatchResult),
      let s' := snd (Grubhub.go env cfg simplifyOption atUser orderSets s) in
      map Grubhub.restaurantOf (results s')
        = firstn (List.length (results s')) (map Grubhub.restaurant orderSets)
      /\ published s' = Some (results s')
      /\ (fst (Grubhub.ordering env cfg simplifyOption atUser orderSets
                 (snd (resetResults s))) = Ok tt ->
          List.length (results s') = List.length orderSets))
  /\ (forall (W : Type) (env : Env W) (cfg : Config) (fuel : nat)
             (orderSets : list Seamless.OrderSet) (s : RSt W Seamless.BatchResult),
        let s' := snd (Seamless.go env cfg fuel orderSets s) in
        map Seamless.restaurantOf (results s')
          = firstn (List.length (results s')) (map Seamless.restaurant orderSets)
        /\ published s' = Some (results s')
        /\ (fst (Seamless.ordering env cfg fuel orderSets (snd (resetResults s))) = Ok tt ->
            List.length (results s') = List.length orderSets)).
Proof.
  split.
  - intros. apply go_results.
  - intros. apply seamless_go_results.
Qed.

(** ** Donors, and the amounts Grubhub never records *)

Section GrubhubClaims.

Context {W : Type} (env : Env W) (cfg : Config).
Variable simplifyOption : string -> string.
Variable atUser : option string -> string.

Local Abbreviation go := (Grubhub.go env cfg simplifyOption atUser).

(** C7.  With draws of [Math.random] in [0, 1): when a batch has a
    participant that is not a donor, the user [fillPhoneNumber]
    returns is the directory's record for the Slack id of such a
    participant; and every call of [Stats.recordStats] made by a run
    is for a participant of one of its batches that is not a donor. *)
Theorem C7_donors_excluded
    (Hrandom : forall w r w', ask env Random w = (Ok r, w') -> (0 <= r)%Q /\ (r < 1)%Q) :
  (forall orders s out s' callee,
      (exists o, In o orders /\ Grubhub.isDonor o = false) ->
      Grubhub.fillPhoneNumber env orders s = (Ok (Some out), s') ->
      user out = Some callee ->
      exists o, In o orders /\ Grubhub.isDonor o = false
                /\ resolved env (Grubhub.slackId o) callee)
  /\ (forall orderSets s,
        callsOnly
          (fun c => match c with
                    | RecordStats id restaurant _ _ _ =>
                        exists orderSet o,
                          In orderSet orderSets
                          /\ restaurant = Grubhub.restaurant orderSet
                          /\ In o (Grubhub.users orderSet)
                          /\ Grubhub.isDonor o = false
                          /\ id = Grubhub.slackId o
                    | SetCallee _ => True
                    end)
          s (snd (go orderSets s))).
Proof.
  split.
  - intros orders s out s' callee (o0 & Hin0 & Hdonor0) Hrun Hcallee.
    apply fillPhoneNumber_output in Hrun.
    destruct Hrun
      as (v & Hv & [(e & ->) | (r & callee' & -> & (w1 & w1' & Hdraw) & Hget)]).
    { inversion Hv; subst out. discriminate Hcallee. }
    inversion Hv; subst out. simpl in Hcallee. inversion Hcallee; subst callee'.
    destruct (Hrandom _ _ _ Hdraw) as (H0 & H1).
    destruct (pick_in (Grubhub.eligible orders) r) as (id & Hpick & Hid); auto.
    { rewrite eligible_filter. intros Hnil.
      assert (Hin : In (Grubhub.slackId o0)
                (map Grubhub.slackId
                   (filter (fun o => negb (Grubhub.isDonor o)) orders))).
      { apply in_map, filter_In. split; [exact Hin0 | now rewrite Hdonor0]. }
      rewrite Hnil in Hin. exact Hin. }
    rewrite Hpick in Hget. rewrite eligible_filter in Hid.
    apply in_map_iff in Hid. destruct Hid as (o & <- & Ho).
    apply filter_In in Ho. destruct Ho as (Ho & Hdonor).
    exists o. split; [exact Ho |]. split; [now destruct (Grubhub.isDonor o) |].
    exact Hget.
  - intros orderSets s.
    destruct (go orderSets s) as [r s'] eqn:Hgo. simpl.
    refine (go_calls env cfg simplifyOption atUser _ orderSets _ _ _ _ _ Hgo).
    + intros orderSet o isCallee Hset Ho Hdonor. exists orderSet, o. auto.
    + intros id. exact I.
Qed.

(** C9.  On Grubhub [fillOrders], when it does not fail, returns the
    empty [orderAmounts] it created; with it the search of [fillNames]
    for the most expensive order ends where it started, at amount 0
    and no participant, which is what the budget failure reports; and
    every call of [Stats.recordStats] made by a run has an undefined
    amount. *)
Theorem C9_order_amounts_never_filled :
  (forall userOrders s o s',
      Grubhub.fillOrders env simplifyOption userOrders s = (Ok (Some o), s') ->
      errors o = None ->
      orderAmounts o = Some [])
  /\ maxOrder [] = mkMaxOrder None 0
  /\ (forall slackIds result s o s',
        orderAmounts result = Some [] ->
        Grubhub.fillNames env atUser slackIds result s = (Ok (Some o), s') ->
        exists excess, o = failure false [ExceededBudget excess (atUser None) 0])
  /\ (forall orderSets s,
        callsOnly
          (fun c => match c with
                    | RecordStats _ _ amount _ _ => amount = None
                    | SetCallee _ => True
                    end)
          s (snd (go orderSets s))).
Proof.
  split; [| split; [reflexivity | split]].
  - intros userOrders s o s' Hrun Ho.
    apply fillOrders_output in Hrun. destruct Hrun as (v & Hv & [Herr | ->]).
    + inversion Hv; subst v. contradiction.
    + inversion Hv. reflexivity.
  - intros slackIds result s o s' Hempty Hrun.
    apply fillNames_inv in Hrun.
    destruct Hrun as (_ & _ & amountAllocated & _ & _ & _ & _ & Hout).
    rewrite Hempty in Hout.
    destruct (maxExceeds (max amountAllocated) 25); [| discriminate Hout].
    inversion Hout. eexists. reflexivity.
  - intros orderSets s.
    destruct (go orderSets s) as [r s'] eqn:Hgo. simpl.
    refine (go_calls env cfg simplifyOption atUser _ orderSets _ _ _ _ _ Hgo).
    + intros orderSet o isCallee _ _ _. reflexivity.
    + intros id. exact I.
Qed.

End GrubhubClaims.

(** ** Concrete runs of the steps and of [go] *)

(** C4 on the page below the delivery minimum. *)
Lemma C4_minimum_not_met_is_final_witness :
  let env := Fixture.scripted Fixture.belowMinimum in
  fst (Grubhub.addItems env Fixture.simplifyOption [Fixture.order1] Fixture.start) = Ok tt
  /\ fst (Grubhub.fillOrders env Fixture.simplifyOption [Fixture.order1] Fixture.start)
     = Ok (Some (failure false [Text "Delivery minimum not met."])).
Proof.
  intros env. split; [evaluate |].
  pose (s1 := snd (Grubhub.addItems env Fixture.simplifyOption [Fixture.order1]
                     Fixture.start)).
  pose (s2 := snd (query env (EvalEnabled "button#ghs-cart-checkout-button") s1)).
  destruct (C4_minimum_not_met_is_final env Fixture.simplifyOption [Fixture.order1]
              Fixture.start s1 s2) as (Hrun & _); [evaluate | evaluate |].
  exact (f_equal fst Hrun).
Defined.

(** C4 as the claim states it fails: below the delivery minimum the
    Grubhub step returns a failure that asks for no retry, and the
    batch ends after one visit of the start page; the Seamless step
    does not return at all, it throws. *)
Lemma C4_counterexample :
  let env := Fixture.scripted Fixture.belowMinimum in
  let r := Grubhub.orderFromRestaurant env Fixture.cfg Fixture.simplifyOption
             Fixture.atUser "Pizza" [Fixture.order1] INITIAL_RETRIES Fixture.start in
  (fst (Grubhub.addItems env Fixture.simplifyOption [Fixture.order1] Fixture.start) = Ok tt
   /\ exists o,
        fst (Grubhub.fillOrders env Fixture.simplifyOption [Fixture.order1] Fixture.start)
          = Ok (Some o)
        /\ isRetryable o = false)
  /\ visits Grubhub.URLS_setupRest (trace (snd r)) = 1
  /\ fst (Seamless.fillOrders env [Fixture.lunch1] Fixture.start)
     = Throw (TypeError "orderAmounts.map is not a function").
Proof.
  intros env r. split; [split; [evaluate |] | split; evaluate].
  eexists. split; [evaluate | reflexivity].
Qed.

(** C7 on a calm page with a participant and a donor: the callee is
    the participant. *)
Lemma C7_donors_excluded_witness :
  let env := Fixture.scripted (Fixture.calm [12%Q] (Some true)) in
  exists o, In o [Fixture.order1; Fixture.order2]
            /\ Grubhub.isDonor o = false
            /\ resolved env (Grubhub.slackId o) Fixture.alice.
Proof.
  intros env.
  assert (Hrandom : forall w r w',
             ask env Random w = (Ok r, w') -> (0 <= r)%Q /\ (r < 1)%Q).
  { intros w r w' H. inversion H. split; unfold Qle, Qlt; simpl; lia. }
  destruct (C7_donors_excluded env Fixture.cfg Fixture.simplifyOption Fixture.atUser
              Hrandom) as (Hcallee & _).
  apply (Hcallee [Fixture.order1; Fixture.order2] Fixture.start
           (mkObj None None None (Some Fixture.alice))
           (snd (Grubhub.fillPhoneNumber env [Fixture.order1; Fixture.order2]
                   Fixture.start))
           Fixture.alice).
  - exists Fixture.order1. split; [now left | reflexivity].
  - evaluate.
  - reflexivity.
Defined.


(** C8 as the claim states it fails: when logging in fails no batch
    gets a result; when the stats store is down the first batch is the
    last one taken. *)
Lemma C8_counterexample :
  let batches := [Grubhub.mkOrderSet "Pizza" [Fixture.order1; Fixture.order2];
                  Grubhub.mkOrderSet "Sushi" [Fixture.order1]] in
  let loggedOut :=
    snd (Grubhub.go (Fixture.scripted Fixture.loggedOut) Fixture.cfg
           Fixture.simplifyOption Fixture.atUser batches Fixture.startRun) in
  let statsDown :=
    snd (Grubhub.go (Fixture.scripted Fixture.statsDown) Fixture.actual
           Fixture.simplifyOption Fixture.atUser batches Fixture.startRun) in
  List.length batches = 2
  /\ published loggedOut = Some []
  /\ published statsDown
     = Some [Grubhub.Succeeded "Pizza" "U1"
               "https://alfred.ajay-gandhi.com/confirmations/pizza.pdf"].
Proof.
  intros batches loggedOut statsDown. repeat split; evaluate.
Qed.

(** On a calm page every batch gets its result. *)
Example go_two_batches :
  let batches := [Grubhub.mkOrderSet "Pizza" [Fixture.order1; Fixture.order2];
                  Grubhub.mkOrderSet "Sushi" [Fixture.order1]] in
  map Grubhub.restaurantOf
    (results (snd (Grubhub.go (Fixture.scripted (Fixture.calm [12%Q] (Some true)))
                     Fixture.actual Fixture.simplifyOption Fixture.atUser batches
                     Fixture.startRun)))
  = ["Pizza"; "Sushi"].
Proof. evaluate. Qed.

(** ** The budget check *)

Lemma gt_true (a b : Q) : gt a b = true <-> (b < a)%Q.
Proof.
  unfold gt. rewrite negb_true_iff. split.
  - intros H. apply Qnot_le_lt. intros Hle.
    apply Qle_bool_iff in Hle. congruence.
  - intros H. destruct (Qle_bool a b) eqn:Hle; [| reflexivity].
    apply Qle_bool_iff in Hle. exfalso. exact (Qlt_not_le _ _ H Hle).
Qed.

Lemma gt_false (a b : Q) : gt a b = false <-> (a <= b)%Q.
Proof.
  unfold gt. rewrite negb_false_iff. apply Qle_bool_iff.
Qed.

(** The check [Math.max.apply(null, l) > c] holds exactly when some
    element of [l] exceeds [c]. *)
Lemma maxExceeds_iff (l : list Q) (c : Q) :
  maxExceeds (max l) c = true <-> exists a, In a l /\ (c < a)%Q.
Proof.
  unfold max.
  assert (Hgen : forall m,
    maxExceeds
      (fold_left (fun m a => match m with
                             | None => Some a
                             | Some b => Some (if gt a b then a else b)
                             end) l m) c = true
    <-> maxExceeds m c = true \/ exists a, In a l /\ (c < a)%Q).
  { induction l as [| a l IH]; intros m; simpl.
    - split; [now left | intros [H | (a & [] & _)]; exact H].
    - rewrite IH. clear IH. split.
      + intros [Hm | (x & Hx & Hc)]; [| right; eauto].
        destruct m as [b |]; simpl in Hm.
        * destruct (gt a b) eqn:Hab; [right | now left].
          exists a. split; [now left | now apply gt_true].
        * right. exists a. split; [now left | now apply gt_true].
      + intros [Hm | (x & [-> | Hx] & Hc)]; [| | right; eauto].
        * left. destruct m as [b |]; [| discriminate]. simpl in *.
          apply gt_true in Hm. apply gt_true.
          destruct (gt a b) eqn:Hab; [| exact Hm].
          apply gt_true in Hab. now apply Qlt_trans with b.
        * left. destruct m as [b |]; simpl; apply gt_true; [| exact Hc].
          destruct (gt x b) eqn:Hxb; [exact Hc |].
          apply gt_false in Hxb. now apply Qlt_le_trans with x. }
  rewrite Hgen. simpl. split; [intros [H | H]; [discriminate | exact H] | now right].
Qed.

Lemma get_in {V : Type} (o : Object V) k v :
  NoDup (keys o) -> In (k, v) o -> get o k = Some v.
Proof.
  induction o as [| [k' v'] o IH]; simpl; intros Hnd Hin; [contradiction |].
  inversion Hnd as [| ? ? Hfresh Hnd']; subst.
  destruct Hin as [Heq | Hin].
  - inversion Heq; subst. now rewrite String.eqb_refl.
  - destruct (String.eqb_spec k' k) as [-> | _]; [| now apply IH].
    exfalso. apply Hfresh. unfold keys. now apply (in_map fst _ (k, v)).
Qed.

(** The search for the most expensive order, read off the entries. *)
Lemma maxOrder_entries (orderAmounts : Object Q) :
  NoDup (keys orderAmounts) ->
  maxOrder orderAmounts
  = fold_left (fun memo entry =>
                 if gt (snd entry) (amount memo)
                 then mkMaxOrder (Some (fst entry)) (snd entry) else memo)
      orderAmounts (mkMaxOrder None 0).
Proof.
  intros Hnd. unfold maxOrder, keys.
  assert (Hgen : forall l memo,
    (forall k a, In (k, a) l -> get orderAmounts k = Some a) ->
    fold_left (fun memo k =>
                 match get orderAmounts k with
                 | Some a => if gt a (amount memo) then mkMaxOrder (Some k) a else memo
                 | None => memo
                 end) (map fst l) memo
    = fold_left (fun memo entry =>
                   if gt (snd entry) (amount memo)
                   then mkMaxOrder (Some (fst entry)) (snd entry) else memo) l memo).
  { induction l as [| [k a] l IH]; intros memo Hget; simpl; [reflexivity |].
    rewrite (Hget k a (or_introl eq_refl)). apply IH.
    intros k' a' Hin. apply Hget. now right. }
  apply Hgen. intros k a Hin. now apply get_in.
Qed.

(** The person named is the first with the highest amount, provided
    that amount is positive. *)
Lemma maxOrder_first_highest (before after : Object Q) (k : string) (a : Q) :
  NoDup (keys (before ++ (k, a) :: after)) ->
  (0 < a)%Q ->
  (forall k' a', In (k', a') before -> (a' < a)%Q) ->
  (forall k' a', In (k', a') after -> (a' <= a)%Q) ->
  maxOrder (before ++ (k, a) :: after) = mkMaxOrder (Some k) a.
Proof.
  intros Hnd Hpos Hbefore Hafter.
  rewrite (maxOrder_entries _ Hnd), fold_left_app. simpl.
  set (step := fun memo (entry : string * Q) =>
                 if gt (snd entry) (amount memo)
                 then mkMaxOrder (Some (fst entry)) (snd entry) else memo).
  assert (Hlow : forall l memo,
    (amount memo < a)%Q ->
    (forall k' a', In (k', a') l -> (a' < a)%Q) ->
    (amount (fold_left step l memo) < a)%Q).
  { induction l as [| [k' a'] l IH]; intros memo Hmemo Hl; simpl; [exact Hmemo |].
    apply IH; [| intros k2 a2 Hin; apply (Hl k2); now right].
    unfold step. simpl. destruct (gt a' (amount memo)); [| exact Hmemo].
    simpl. apply (Hl k'). now left. }
  assert (Hkeep : forall l,
    (forall k' a', In (k', a') l -> (a' <= a)%Q) ->
    fold_left step l (mkMaxOrder (Some k) a) = mkMaxOrder (Some k) a).
  { induction l as [| [k' a'] l IH]; intros Hl; simpl; [reflexivity |].
    unfold step at 2. simpl.
    assert (Hno : gt a' a = false) by (apply gt_false, (Hl k'); now left).
    rewrite Hno. apply IH. intros k2 a2 Hin. apply (Hl k2). now right. }
  assert (Hhere : gt a (amount (fold_left step before (mkMaxOrder None 0))) = true).
  { apply gt_true, Hlow; [exact Hpos | exact Hbefore]. }
  rewrite Hhere. now apply Hkeep.
Qed.

(** On Seamless a budget violation is reported as a failure that asks
    for no retry, with the excess over 25 per username and the person
    found by the search. *)
Lemma seamless_budget_violation {W : Type} (env : Env W) usernames result
    (s s1 s2 : PSt W) amountAllocated orderAmounts0 userAt :
  query env (EvalNumbers "input.allocationAmt") s = (Ok amountAllocated, s1) ->
  maxExceeds (max amountAllocated) 25 = true ->
  orderAmounts result = Some orderAmounts0 ->
  Seamless.atUser env (who (maxOrder orderAmounts0)) s1 = (Ok userAt, s2) ->
  Seamless.checkBudget env usernames result s
  = (Ok (Some (failure false
                 [ExceededBudget
                    (sum amountAllocated
                     - inject_Z (Z.of_nat (List.length usernames)) * 25)%Q
                    userAt (amount (maxOrder orderAmounts0))])), s2).
Proof.
  intros Hread Hmax Hamounts Hat. unfold Seamless.checkBudget.
  rewrite (bind_ok _ _ _ _ _ Hread), Hmax, Hamounts.
  now rewrite (bind_ok _ _ _ _ _ Hat).
Qed.

(** C1 fails on Grubhub.  One participant, U1, whose allocation the
    page shows as 30: the failure asks for no retry and reports the
    excess 30 - 1 * 25 = 5, but the person it names is
    [atUser(undefined)] with the amount 0, not U1 with 30, because
    [fillOrders] never fills [orderAmounts]. *)
Theorem C1_grubhub_names_nobody :
  let env := Fixture.scripted (Fixture.calm [30%Q] (Some true)) in
  fst (Grubhub.orderFromRestaurant env Fixture.cfg Fixture.simplifyOption Fixture.atUser
         "Pizza" [Fixture.order1] INITIAL_RETRIES Fixture.start)
  = Ok (failure false [ExceededBudget 5 (Fixture.atUser None) 0])
  /\ maxExceeds (max [30%Q]) 25 = true
  /\ Grubhub.slackId Fixture.order1 = "U1".
Proof. repeat split; evaluate. Qed.

(** On Seamless the same batch names its participant. *)
Example seamless_names_the_participant :
  let env := Fixture.scripted (Fixture.calm [30%Q] (Some true)) in
  fst (Seamless.orderFromRestaurant env Fixture.cfg 5 "Pizza" [Fixture.lunch1]
         INITIAL_RETRIES Fixture.start)
  = Ok (failure false [ExceededBudget 5 "<@U1>" 12]).
Proof. evaluate. Qed.

(** C8 on a calm page, with [--actual]: the [try] block completes and
    both batches have their result. *)
Lemma C8_results_follow_batches_witness :
  let batches := [Grubhub.mkOrderSet "Pizza" [Fixture.order1; Fixture.order2];
                  Grubhub.mkOrderSet "Sushi" [Fixture.order1]] in
  let s' := snd (Grubhub.go (Fixture.scripted (Fixture.calm [12%Q] (Some true)))
                   Fixture.actual Fixture.simplifyOption Fixture.atUser batches
                   Fixture.startRun) in
  map Grubhub.restaurantOf (results s')
    = firstn (List.length (results s')) ["Pizza"; "Sushi"]
  /\ List.length (results s') = 2.
Proof.
  intros batches s'.
  destruct C8_results_follow_batches as (Hgrubhub & _).
  destruct (Hgrubhub nat (Fixture.scripted (Fixture.calm [12%Q] (Some true)))
              Fixture.actual Fixture.simplifyOption Fixture.atUser batches
              Fixture.startRun) as (Horder & _ & Hall).
  split; [exact Horder |].
  apply Hall. evaluate.
Defined.

(** C9 on a calm page that shows an allocation of 30. *)
Lemma C9_order_amounts_never_filled_witness :
  let env := Fixture.scripted (Fixture.calm [30%Q] (Some true)) in
  orderAmounts (mkObj None None (Some []) None) = Some []
  /\ exists excess,
       fst (Grubhub.fillNames env Fixture.atUser ["U1"]
              (mkObj None None (Some []) None) Fixture.start)
       = Ok (Some (failure false [ExceededBudget excess (Fixture.atUser None) 0])).
Proof.
  intros env.
  destruct (C9_order_amounts_never_filled env Fixture.cfg Fixture.simplifyOption
              Fixture.atUser) as (Hfill & _ & Hnames & _).
  split.
  - apply (Hfill [Fixture.order1] Fixture.start (mkObj None None (Some []) None)
             (snd (Grubhub.fillOrders env Fixture.simplifyOption [Fixture.order1]
                     Fixture.start))); [evaluate | reflexivity].
  - pose (s' := snd (Grubhub.fillNames env Fixture.atUser ["U1"]
                       (mkObj None None (Some []) None) Fixture.start)).
    destruct (Hnames ["U1"] (mkObj None None (Some []) None) Fixture.start
                (failure false [ExceededBudget 5 (Fixture.atUser None) 0]) s')
      as (excess & Hout); [reflexivity | evaluate |].
    exists excess. rewrite <- Hout. evaluate.
Defined.

(** * Further properties of the engine *)

(** ** The retry loop, for any budget *)

Section RetryBounds.

Context {S : Type}.
Variable steps : list (@Pipeline.Step S).
Variable submit : M S unit.

Local Abbreviation orderFromRestaurant := (Pipeline.orderFromRestaurant steps submit).
Local Abbreviation attempt := (Pipeline.attempt steps submit).

(** X1.  Whatever the steps do, a call with [retries] retries runs the
    step sequence at least once and at most [retries + 1] times: any
    counter that each run advances by one has advanced by that much. *)
Theorem X1_attempts_bounded (count : S -> nat)
    (Hcount : forall s0, count (snd (attempt s0)) = Datatypes.S (count s0)) :
  forall retries s,
    Datatypes.S (count s) <= count (snd (orderFromRestaurant retries s))
    /\ count (snd (orderFromRestaurant retries s)) <= Datatypes.S retries + count s.
Proof.
  induction retries as [| retries IH]; intros s.
  - change (orderFromRestaurant 0 s) with (attempt s). rewrite Hcount. lia.
  - rewrite orderFromRestaurant_succ. specialize (Hcount s).
    destruct (attempt s) as [[o | e] s1]; simpl in Hcount.
    + destruct (isRetryable o).
      * specialize (IH s1). lia.
      * simpl. lia.
    + simpl. lia.
Qed.

(** X2.  When every step continues and the submission succeeds, the
    call returns the object in which the outputs of the steps were
    merged, in the state the submission left: the batch is submitted
    once and is not run again, whatever the retries left. *)
Theorem X2_success_is_not_retried (s s1 s2 : S) (result : Obj)
    (Hsteps : Pipeline.continues steps emptyObj s result s1)
    (Hsubmit : submit s1 = (Ok tt, s2)) :
  forall retries,
    orderFromRestaurant retries s = (Ok result, s2) /\ errors result = None.
Proof.
  assert (Hres : errors result = None)
    by now apply (continues_no_errors _ _ _ _ _ Hsteps).
  intros retries. split; [| exact Hres].
  apply orderFromRestaurant_final; [| now apply not_retryable_without_errors].
  rewrite attempt_eq. apply tryCatch_ok.
  rewrite <- (app_nil_r steps).
  rewrite (runSteps_continues _ _ _ _ _ _ _ Hsteps). simpl.
  now rewrite (bind_ok _ _ _ _ _ Hsubmit).
Qed.

End RetryBounds.

(** X1 on the page whose navigations time out, with five retries: the
    start page is visited six times. *)
Lemma X1_attempts_bounded_witness :
  let env := Fixture.scripted Fixture.stalled in
  let s' := snd (Grubhub.orderFromRestaurant env Fixture.cfg Fixture.simplifyOption
                   Fixture.atUser "Pizza" [Fixture.order1] 5 Fixture.start) in
  1 <= visits Grubhub.URLS_setupRest (trace s')
  /\ visits Grubhub.URLS_setupRest (trace s') <= 6.
Proof.
  intros env s'.
  assert (Hcount : forall s0,
    visits Grubhub.URLS_setupRest
      (trace (snd (Pipeline.attempt
                     (Grubhub.steps env Fixture.cfg Fixture.simplifyOption
                        Fixture.atUser "Pizza" [Fixture.order1])
                     (submit env Fixture.cfg "Pizza") s0)))
    = Datatypes.S (visits Grubhub.URLS_setupRest (trace s0))).
  { intros s0. simpl. unfold visits. rewrite filter_app, length_app. simpl. lia. }
  destruct (X1_attempts_bounded _ _
              (fun s => visits Grubhub.URLS_setupRest (trace s)) Hcount 5 Fixture.start)
    as (Hlow & Hhigh).
  split; [exact Hlow | exact Hhigh].
Defined.

(** X2 on a calm page: the four Grubhub steps continue and the
    confirmation is captured. *)
Lemma X2_success_is_not_retried_witness :
  let env := Fixture.scripted (Fixture.calm [12%Q] (Some true)) in
  fst (Grubhub.orderFromRestaurant env Fixture.cfg Fixture.simplifyOption Fixture.atUser
         "Pizza" [Fixture.order1] INITIAL_RETRIES Fixture.start)
  = Ok (mkObj None None (Some []) (Some Fixture.alice)).
Proof.
  intros env.
  pose (s1 := snd (Grubhub.setupRestaurant env Fixture.cfg "Pizza" Fixture.start)).
  pose (s2 := snd (Grubhub.fillOrders env Fixture.simplifyOption [Fixture.order1] s1)).
  pose (r2 := mkObj None None (Some []) None).
  pose (s3 := snd (Grubhub.fillNames env Fixture.atUser ["U1"] r2 s2)).
  pose (s4 := snd (Grubhub.fillPhoneNumber env [Fixture.order1] s3)).
  pose (s5 := snd (submit env Fixture.cfg "Pizza" s4)).
  assert (Hsteps : Pipeline.continues
            (Grubhub.steps env Fixture.cfg Fixture.simplifyOption Fixture.atUser
               "Pizza" [Fixture.order1])
            emptyObj Fixture.start (mkObj None None (Some []) (Some Fixture.alice)) s4).
  { eapply Pipeline.continues_undefined with (s1 := s1); [evaluate |].
    eapply Pipeline.continues_output with (s1 := s2) (out := r2);
      [evaluate | reflexivity |].
    eapply Pipeline.continues_undefined with (s1 := s3); [evaluate |].
    eapply Pipeline.continues_output with (s1 := s4)
      (out := mkObj None None None (Some Fixture.alice)); [evaluate | reflexivity |].
    apply Pipeline.continues_nil. }
  assert (Hsubmit : submit env Fixture.cfg "Pizza" s4 = (Ok tt, s5)) by evaluate.
  destruct (X2_success_is_not_retried _ _ _ _ _ _ Hsteps Hsubmit INITIAL_RETRIES)
    as (Hrun & _).
  exact (f_equal fst Hrun).
Defined.

(** ** What a run sends to the page *)

#[local] Instance traceOnly_preorder {W : Type} (P : Cmd -> Prop)
  : PreOrder (@traceOnly W P).
Proof.
  split.
  - intros s. exists []. split; [now rewrite app_nil_r | constructor].
  - intros s1 s2 s3 (n1 & H1 & P1) (n2 & H2 & P2).
    exists (n1 ++ n2). split.
    + now rewrite H2, H1, app_assoc.
    + apply Forall_app. now split.
Qed.

#[local] Instance pageTraceOnly_preorder {W BR : Type} (P : Cmd -> Prop)
  : PreOrder (@pageTraceOnly W BR P).
Proof.
  split.
  - intros s. unfold pageTraceOnly. reflexivity.
  - intros s1 s2 s3 H12 H23. unfold pageTraceOnly in *. now transitivity (page s2).
Qed.

Section TraceFrames.

Context {W : Type} (env : Env W) (P : Cmd -> Prop).

Lemma run_traceOnly c : P c -> framed (traceOnly P) (run env c).
Proof.
  intros Hc s r s' H. unfold run in H.
  destruct (exec env c (world s)) as [r0 w]. inversion H.
  exists [c]. simpl. split; [reflexivity | now constructor].
Qed.

Lemma query_traceOnly {A : Type} (q : Query A) : framed (traceOnly P) (query env q).
Proof.
  intros s r s' H. unfold query in H.
  destruct (ask env q (world s)) as [r0 w]. inversion H.
  exists []. simpl. split; [now rewrite app_nil_r | constructor].
Qed.

Lemma trace_ret {A : Type} (a : A) : framed (traceOnly (W := W) P) (ret a).
Proof. apply framed_ret. typeclasses eauto. Qed.

Lemma trace_throw {A : Type} e : framed (traceOnly (W := W) P) (throw (A := A) e).
Proof. apply framed_throw. typeclasses eauto. Qed.

Lemma trace_bind {A B : Type} (m : M (PSt W) A) (k : A -> M (PSt W) B) :
  framed (traceOnly P) m -> (forall a, framed (traceOnly P) (k a)) ->
  framed (traceOnly P) (bind m k).
Proof. intros Hm Hk. apply framed_bind; [typeclasses eauto | exact Hm | auto]. Qed.

Lemma trace_tryCatch {A : Type} (m : M (PSt W) A) h :
  framed (traceOnly P) m -> (forall e, framed (traceOnly P) (h e)) ->
  framed (traceOnly P) (tryCatch m h).
Proof. intros Hm Hh. apply framed_tryCatch; [typeclasses eauto | exact Hm | exact Hh]. Qed.

Lemma trace_forEach {A : Type} (l : list A) (body : A -> M (PSt W) unit) :
  (forall x, framed (traceOnly P) (body x)) -> framed (traceOnly P) (forEach l body).
Proof. intros Hb. apply framed_forEach; [typeclasses eauto | auto]. Qed.

(** The retry loop sends what its steps and the submission send. *)
Lemma orderFromRestaurant_traceOnly (steps : list (@Pipeline.Step (PSt W))) submit0 :
  (forall step result, In step steps -> framed (traceOnly P) (step result)) ->
  framed (traceOnly P) submit0 ->
  forall retries, framed (traceOnly P) (Pipeline.orderFromRestaurant steps submit0 retries).
Proof.
  intros Hsteps Hsubmit.
  assert (Hloop : forall again,
    (forall k, again = Some k -> framed (traceOnly P) k) ->
    forall todo, (forall step, In step todo -> In step steps) ->
    forall result, framed (traceOnly P) (Pipeline.runSteps submit0 again todo result)).
  { intros again Hagain. induction todo as [| step rest IH]; intros Hin result; simpl.
    - apply trace_bind; [exact Hsubmit | intros; apply trace_ret].
    - apply trace_bind; [apply Hsteps, Hin; now left |].
      intros [out |]; [| apply IH; intros; apply Hin; now right].
      destruct (errors out).
      + destruct (retry out) as [[|] |]; try apply trace_ret.
        destruct again as [k |]; [now apply Hagain | apply trace_ret].
      + apply IH. intros; apply Hin; now right. }
  induction retries as [| retries IH]; simpl.
  - apply trace_tryCatch; [| intros; apply trace_ret].
    apply Hloop; [discriminate | auto].
  - apply trace_tryCatch; [| intros; apply trace_ret].
    apply Hloop; [| auto]. intros k Hk. inversion Hk. subst k. exact IH.
Qed.

End TraceFrames.

(** Reduce a statement on what a sequence of commands sends to
    statements on its commands. *)
Ltac frame_with tac :=
  repeat first
    [ apply trace_ret
    | apply trace_throw
    | apply query_traceOnly
    | apply run_traceOnly; tac
    | apply trace_bind; [| intros]
    | apply trace_tryCatch; [| intros]
    | apply trace_forEach; intros
    | match goal with
      | |- framed _ (match ?x with _ => _ end) => destruct x
      | |- framed _ (let '(_, _) := ?x in _) => destruct x
      end ].

Ltac harmless := unfold placesOrder; discriminate.

Section DryRun.

Context {W : Type} (env : Env W) (cfg : Config).
Hypothesis Hdry : DRY_RUN cfg = true.

Local Abbreviation quiet := (traceOnly (W := W) (fun c => ~ placesOrder c)).

Lemma submit_quiet restaurant : framed quiet (submit env cfg restaurant).
Proof. unfold submit. rewrite Hdry. frame_with harmless. Qed.

Variable simplifyOption : string -> string.
Variable atUser : option string -> string.

Lemma grubhub_clickItem_quiet item itemLinks :
  framed quiet (Grubhub.clickItem env item itemLinks).
Proof.
  induction itemLinks as [| anchor rest IH]; simpl; frame_with harmless. exact IH.
Qed.

Lemma grubhub_selectOption_quiet opt optionLinks :
  framed quiet (Grubhub.selectOption env simplifyOption opt optionLinks).
Proof.
  induction optionLinks as [| input rest IH]; simpl; frame_with harmless. exact IH.
Qed.

Lemma grubhub_steps_quiet restaurant userOrders step result :
  In step (Grubhub.steps env cfg simplifyOption atUser restaurant userOrders) ->
  framed quiet (step result).
Proof.
  unfold Grubhub.steps. simpl.
  intros [<- | [<- | [<- | [<- | []]]]].
  - unfold Grubhub.setupRestaurant. frame_with harmless.
  - unfold Grubhub.fillOrders, caught, Grubhub.addItems. frame_with harmless.
    + apply grubhub_clickItem_quiet.
    + apply grubhub_selectOption_quiet.
  - unfold Grubhub.fillNames, Grubhub.enterNames. frame_with harmless.
  - unfold Grubhub.fillPhoneNumber. frame_with harmless.
Qed.

Variable fuel : nat.

Lemma seamless_findRestaurant_quiet restaurant restLinks : forall ourRest,
  framed quiet (Seamless.findRestaurant env restaurant restLinks ourRest).
Proof.
  induction restLinks as [| anchor rest IH]; intros ourRest; simpl;
    frame_with harmless. apply IH.
Qed.

Lemma seamless_findItem_quiet item itemLinks : forall ourItem,
  framed quiet (Seamless.findItem env item itemLinks ourItem).
Proof.
  induction itemLinks as [| anchor rest IH]; intros ourItem; simpl;
    frame_with harmless. apply IH.
Qed.

Lemma seamless_selectOption_quiet opt optionLinks :
  framed quiet (Seamless.selectOption env opt optionLinks).
Proof.
  induction optionLinks as [| input rest IH]; simpl; frame_with harmless. exact IH.
Qed.

Lemma seamless_addOrders_quiet userOrders : forall orderAmounts,
  framed quiet (Seamless.addOrders env userOrders orderAmounts).
Proof.
  induction userOrders as [| userOrder rest IH]; intros orderAmounts; simpl;
    frame_with harmless.
  - unfold Seamless.addItem. frame_with harmless.
    + apply seamless_findItem_quiet.
    + apply seamless_selectOption_quiet.
  - apply IH.
Qed.

Lemma seamless_clearNames_quiet n : framed quiet (Seamless.clearNames env n).
Proof.
  induction n as [| n IH]; simpl; frame_with harmless. exact IH.
Qed.

Lemma seamless_steps_quiet restaurant userOrders step result :
  In step (Seamless.steps env cfg fuel restaurant userOrders) ->
  framed quiet (step result).
Proof.
  unfold Seamless.steps. simpl.
  intros [<- | [<- | [<- | [<- | [<- | []]]]]].
  - unfold Seamless.chooseTime. frame_with harmless.
  - unfold Seamless.chooseRestaurant. frame_with harmless.
    apply seamless_findRestaurant_quiet.
  - unfold Seamless.fillOrders. frame_with harmless.
    apply seamless_addOrders_quiet.
  - unfold Seamless.fillNames, Seamless.enterNames, Seamless.checkBudget,
      Seamless.typeText, Seamless.atUser.
    frame_with harmless. apply seamless_clearNames_quiet.
  - unfold Seamless.fillPhoneNumber. frame_with harmless.
Qed.

End DryRun.

Section RunTraceFrames.

Context {W BR : Type} (env : Env W) (P : Cmd -> Prop).

Lemma liftP_page {A : Type} (m : M (PSt W) A) :
  framed (traceOnly P) m -> framed (pageTraceOnly P) (liftP (BR := BR) m).
Proof.
  intros Hm s r s' H. unfold liftP in H.
  destruct (m (page s)) as [r0 p] eqn:Hrun. inversion H. subst.
  unfold pageTraceOnly. simpl. exact (Hm _ _ _ Hrun).
Qed.

Lemma call_page c : framed (pageTraceOnly P) (call (BR := BR) env c).
Proof.
  intros s r s' H. unfold call in H.
  destruct (serve env c (world (page s))) as [r0 w]. inversion H.
  exists []. simpl. split; [now rewrite app_nil_r | constructor].
Qed.

Lemma push_page (b : BR) : framed (pageTraceOnly P) (push (W := W) b).
Proof. intros s r s' H. inversion H. unfold pageTraceOnly. simpl. reflexivity. Qed.

Lemma resetResults_page : framed (pageTraceOnly P) (resetResults (W := W) (BR := BR)).
Proof. intros s r s' H. inversion H. unfold pageTraceOnly. simpl. reflexivity. Qed.

Lemma publish_page : framed (pageTraceOnly P) (publish (W := W) (BR := BR)).
Proof. intros s r s' H. inversion H. unfold pageTraceOnly. simpl. reflexivity. Qed.

End RunTraceFrames.

(** Reduce a statement on a run of [go] to statements on its parts. *)
Ltac frame_run :=
  repeat first
    [ apply framed_ret; typeclasses eauto
    | apply framed_throw; typeclasses eauto
    | apply push_page | apply resetResults_page | apply publish_page
    | apply call_page
    | apply push_callsOnly | apply resetResults_callsOnly | apply publish_callsOnly
    | apply liftP_callsOnly
    | apply framed_bind; [typeclasses eauto | | intros]
    | apply framed_tryCatch; [typeclasses eauto | | intros]
    | apply framed_forEach; [typeclasses eauto | intros]
    | match goal with
      | |- framed _ (match ?x with _ => _ end) => destruct x
      end ].

Section DryRunOfGo.

Context {W : Type} (env : Env W) (cfg : Config).
Hypothesis Hdry : DRY_RUN cfg = true.

Local Abbreviation quiet := (fun c : Cmd => ~ placesOrder c).

Lemma grubhub_go_quiet simplifyOption atUser orderSets :
  framed (pageTraceOnly quiet) (Grubhub.go env cfg simplifyOption atUser orderSets).
Proof.
  unfold Grubhub.go, Grubhub.ordering, Grubhub.processOrderSet. rewrite Hdry. simpl negb.
  frame_run.
  - apply liftP_page. unfold Grubhub.loginToGrubhub. frame_with harmless.
  - apply liftP_page. apply orderFromRestaurant_traceOnly.
    + intros step result. now apply grubhub_steps_quiet.
    + now apply submit_quiet.
  - apply liftP_page. frame_with harmless.
Qed.

Lemma seamless_go_quiet fuel orderSets :
  framed (pageTraceOnly quiet) (Seamless.go env cfg fuel orderSets).
Proof.
  unfold Seamless.go, Seamless.ordering, Seamless.processOrderSet. rewrite Hdry. simpl negb.
  frame_run.
  - apply liftP_page. unfold Seamless.loginToSeamless. frame_with harmless.
  - apply liftP_page. apply orderFromRestaurant_traceOnly.
    + intros step result. now apply seamless_steps_quiet.
    + now apply submit_quiet.
  - apply liftP_page. frame_with harmless.
Qed.

Lemma grubhub_go_silent simplifyOption atUser orderSets :
  framed (callsOnly (fun _ => False)) (Grubhub.go env cfg simplifyOption atUser orderSets).
Proof.
  unfold Grubhub.go, Grubhub.ordering, Grubhub.processOrderSet. rewrite Hdry. simpl negb.
  frame_run.
Qed.

Lemma seamless_go_silent fuel orderSets :
  framed (callsOnly (fun _ => False)) (Seamless.go env cfg fuel orderSets).
Proof.
  unfold Seamless.go, Seamless.ordering, Seamless.processOrderSet. rewrite Hdry. simpl negb.
  frame_run.
Qed.

(** X3.  Without [--actual] a run never sends
    [page.click("a.findfoodbutton")], the command of the "Submit order"
    block that places the order: in both variants, every command sent
    to the page during [go] is another one. *)
Theorem X3_dry_run_places_no_order :
  (forall simplifyOption atUser orderSets s,
      exists new,
        trace (page (snd (Grubhub.go env cfg simplifyOption atUser orderSets s)))
          = trace (page s) ++ new
        /\ ~ In (Click "a.findfoodbutton") new)
  /\ (forall fuel orderSets s,
        exists new,
          trace (page (snd (Seamless.go env cfg fuel orderSets s)))
            = trace (page s) ++ new
          /\ ~ In (Click "a.findfoodbutton") new).
Proof.
  assert (Hnot : forall new, Forall (fun c => ~ placesOrder c) new ->
                             ~ In (Click "a.findfoodbutton") new).
  { intros new Hall Hin. rewrite Forall_forall in Hall.
    now apply (Hall _ Hin). }
  split.
  - intros simplifyOption atUser orderSets s.
    destruct (Grubhub.go env cfg simplifyOption atUser orderSets s) as [r s'] eqn:Hgo.
    destruct (grubhub_go_quiet _ _ _ _ _ _ Hgo) as (new & Htrace & Hall).
    exists new. simpl. auto.
  - intros fuel orderSets s.
    destruct (Seamless.go env cfg fuel orderSets s) as [r s'] eqn:Hgo.
    destruct (seamless_go_quiet _ _ _ _ _ Hgo) as (new & Htrace & Hall).
    exists new. simpl. auto.
Qed.

(** X4.  Without [--actual] a run makes no call to the stores: neither
    [Stats.recordStats] nor [Orders.setCallee] is called, in either
    variant, whatever happens on the page. *)
Theorem X4_dry_run_records_nothing :
  (forall simplifyOption atUser orderSets s,
      calls (snd (Grubhub.go env cfg simplifyOption atUser orderSets s)) = calls s)
  /\ (forall fuel orderSets s,
        calls (snd (Seamless.go env cfg fuel orderSets s)) = calls s).
Proof.
  assert (Hnone : forall new : list Service, Forall (fun _ => False) new -> new = []).
  { intros [| c new] Hall; [reflexivity | now inversion Hall]. }
  split.
  - intros simplifyOption atUser orderSets s.
    destruct (Grubhub.go env cfg simplifyOption atUser orderSets s) as [r s'] eqn:Hgo.
    destruct (grubhub_go_silent _ _ _ _ _ _ Hgo) as (new & Hcalls & Hall).
    simpl. rewrite Hcalls, (Hnone _ Hall). apply app_nil_r.
  - intros fuel orderSets s.
    destruct (Seamless.go env cfg fuel orderSets s) as [r s'] eqn:Hgo.
    destruct (seamless_go_silent _ _ _ _ _ Hgo) as (new & Hcalls & Hall).
    simpl. rewrite Hcalls, (Hnone _ Hall). apply app_nil_r.
Qed.

End DryRunOfGo.

(** X3 on a calm page: the simulated run does not click; the run with
    [--actual] on the same page does. *)
Lemma X3_dry_run_places_no_order_witness :
  let env := Fixture.scripted (Fixture.calm [12%Q] (Some true)) in
  let batches := [Grubhub.mkOrderSet "Pizza" [Fixture.order1; Fixture.order2]] in
  ~ In (Click "a.findfoodbutton")
      (trace (page (snd (Grubhub.go env Fixture.cfg Fixture.simplifyOption
                           Fixture.atUser batches Fixture.startRun))))
  /\ existsb (fun c => match c with
                       | Click sel => String.eqb sel "a.findfoodbutton"
                       | _ => false
                       end)
       (trace (page (snd (Grubhub.go env Fixture.actual Fixture.simplifyOption
                            Fixture.atUser batches Fixture.startRun)))) = true.
Proof.
  intros env batches. split; [| evaluate].
  destruct (X3_dry_run_places_no_order env Fixture.cfg eq_refl) as (Hgrubhub & _).
  destruct (Hgrubhub Fixture.simplifyOption Fixture.atUser batches Fixture.startRun)
    as (new & Htrace & Hnot).
  rewrite Htrace. exact Hnot.
Defined.

(** X4 on a calm page. *)
Lemma X4_dry_run_records_nothing_witness :
  let env := Fixture.scripted (Fixture.calm [12%Q] (Some true)) in
  let batches := [Grubhub.mkOrderSet "Pizza" [Fixture.order1; Fixture.order2]] in
  calls (snd (Grubhub.go env Fixture.cfg Fixture.simplifyOption Fixture.atUser batches
                Fixture.startRun)) = [].
Proof.
  intros env batches.
  destruct (X4_dry_run_records_nothing env Fixture.cfg eq_refl) as (Hgrubhub & _).
  exact (Hgrubhub Fixture.simplifyOption Fixture.atUser batches Fixture.startRun).
Defined.

(** ** Edge behaviour of the Seamless steps *)

Section SeamlessEdges.

Context {W : Type} (env : Env W).

(** The page shows a fixed text for every element. *)
Variable texts : Handle -> string.
Hypothesis Htexts : forall h w, ask env (InnerText h) w = (Ok (texts h), w).

(** X5.  When no restaurant link of the page contains the name asked
    for (or the page has no such link at all), [chooseRestaurant]
    clicks nothing and returns the failure "Restaurant does not exist
    or is closed at this time." with [retry: false]. *)
Theorem X5_unknown_restaurant_is_final (restaurant : string) (s s1 : PSt W)
    (restLinks : list Handle)
    (Hlinks : query env (QueryAll "a[name='vendorLocation']") s = (Ok restLinks, s1))
    (Hnone : forall h, In h restLinks -> includes (texts h) restaurant = false) :
  Seamless.chooseRestaurant env restaurant s
    = (Ok (Some (failure false
                   [Text "Restaurant does not exist or is closed at this time."])), s1)
  /\ trace s1 = trace s.
Proof.
  split; [| now apply query_inv in Hlinks].
  unfold Seamless.chooseRestaurant.
  rewrite (tryCatch_throw _ _ _ (TypeError "Cannot read property 'click' of undefined") s1);
    [reflexivity |].
  rewrite (bind_ok _ _ _ _ _ Hlinks).
  rewrite (bind_ok _ _ _ _ _ (findRestaurant_fold env texts Htexts restaurant restLinks None s1)).
  now rewrite (fold_override_none (fun h => includes (texts h) restaurant) Some).
Qed.

End SeamlessEdges.

Section SeamlessTime.

Context {W : Type} (env : Env W) (cfg : Config).

(** X6.  In [chooseTime] a failure of [page.select] is ignored: the
    step goes on with the click and continues.  A failure of
    [page.goto] ends the step with the exception as message, and asks
    for a retry only when that message contains "Navigation Timeout
    Exceeded". *)
Theorem X6_chooseTime_failures :
  (forall s s1 e s2 s3 s4,
      run env (Goto Seamless.URLS_chooseTime) s = (Ok tt, s1) ->
      run env (Select "#time" (ORDER_TIME_SEAMLESS cfg)) s1 = (Throw e, s2) ->
      run env (Click "tr.startorder a") s2 = (Ok tt, s3) ->
      run env WaitForNavigation s3 = (Ok tt, s4) ->
      Seamless.chooseTime env cfg s = (Ok None, s4))
  /\ (forall s e s1,
        run env (Goto Seamless.URLS_chooseTime) s = (Throw e, s1) ->
        Seamless.chooseTime env cfg s
        = (Ok (Some (failure (includes (toString e) "Navigation Timeout Exceeded")
                       [Text (toString e)])), s1)).
Proof.
  split.
  - intros s s1 e s2 s3 s4 Hgoto Hselect Hclick Hnav.
    unfold Seamless.chooseTime. apply tryCatch_ok.
    rewrite (bind_ok _ _ _ _ _ Hgoto).
    rewrite (bind_ok _ _ _ tt s2); [| now rewrite (tryCatch_throw _ _ _ e s2)].
    rewrite (bind_ok _ _ _ _ _ Hclick).
    now rewrite (bind_ok _ _ _ _ _ Hnav).
  - intros s e s1 Hgoto. unfold Seamless.chooseTime.
    rewrite (tryCatch_throw _ _ _ e s1); [reflexivity | now apply bind_throw].
Qed.

End SeamlessTime.

(** ** Participants the directory does not know *)

Lemma forEach_throws {S A : Type} (body : A -> M S unit) before x after s s1 e s2 :
  forEach before body s = (Ok tt, s1) ->
  body x s1 = (Throw e, s2) ->
  forEach (before ++ x :: after) body s = (Throw e, s2).
Proof.
  revert s. induction before as [| y before IH]; intros s Hbefore Hx; simpl in *.
  - inversion Hbefore; subst. now apply bind_throw.
  - unbind Hbefore as u t Hy. destruct u.
    rewrite (bind_ok _ _ _ _ _ Hy). now apply IH.
Qed.

Section UnknownParticipant.

Context {W : Type} (env : Env W).
Variable atUser : option string -> string.

(** X7.  When the directory has no record for a listed Slack id,
    [fillNames] of Grubhub throws a [TypeError] at that id: the names
    before it are entered, nothing is typed for it nor for the ids
    after it, and no failure object is returned. *)
Theorem X7_unknown_participant_throws (before after : list string) (slackId : string)
    (result : Obj) (s s0 s1 s2 : PSt W)
    (Hopen : (run env (WaitFor (Selector "label[for='showAllocations']")) ;;
              run env (Click "label[for='showAllocations']") ;;
              run env (WaitFor (Ms 200))) s = (Ok tt, s0))
    (Hbefore : Grubhub.enterNames env before s0 = (Ok tt, s1))
    (Hnull : query env (GetUser (Some slackId)) s1 = (Ok None, s2)) :
  Grubhub.fillNames env atUser (before ++ slackId :: after) result s
    = (Throw (TypeError "Cannot read property 'name' of null"), s2)
  /\ typedTexts (trace s2) = typedTexts (trace s1).
Proof.
  split.
  - unfold Grubhub.fillNames.
    unbind Hopen as u1 t1 R1. unbind Hopen as u2 t2 R2.
    rewrite (bind_ok _ _ _ _ _ R1), (bind_ok _ _ _ _ _ R2), (bind_ok _ _ _ _ _ Hopen).
    apply bind_throw. unfold Grubhub.enterNames.
    apply forEach_throws with (s1 := s1); [exact Hbefore |].
    now rewrite (bind_ok _ _ _ _ _ Hnull).
  - apply query_inv in Hnull. destruct Hnull as (Htrace & _). now rewrite Htrace.
Qed.

End UnknownParticipant.

(** X5 on the two-pizzeria page, asked for sushi. *)
Lemma X5_unknown_restaurant_is_final_witness :
  let env := Fixture.scripted (Fixture.calm [] (Some true)) in
  Seamless.chooseRestaurant env "Sushi" Fixture.start
  = (Ok (Some (failure false
                 [Text "Restaurant does not exist or is closed at this time."])),
     Fixture.start).
Proof.
  intros env.
  assert (Htexts : forall h w, ask env (InnerText h) w = (Ok (Fixture.pizzaTexts h), w))
    by reflexivity.
  destruct (X5_unknown_restaurant_is_final env Fixture.pizzaTexts Htexts "Sushi"
              Fixture.start Fixture.start [1; 2]) as (Hrun & _).
  - reflexivity.
  - intros h [<- | [<- | []]]; reflexivity.
  - exact Hrun.
Defined.

(** X6 on a page whose time selector is missing, and on the page whose
    navigations time out. *)
Lemma X6_chooseTime_failures_witness :
  let noSelector :=
    Fixture.scripted
      (Fixture.mkScript
         (fun c => match c with
                   | Select _ _ => Some (Error "No node found for selector: #time")
                   | _ => None
                   end)
         Fixture.pizzaElements Fixture.pizzaTexts [] (Some true) 12 (1 # 2)
         Fixture.people (fun _ => None)) in
  fst (Seamless.chooseTime noSelector Fixture.cfg Fixture.start) = Ok None
  /\ fst (Seamless.chooseTime (Fixture.scripted Fixture.stalled) Fixture.cfg Fixture.start)
     = Ok (Some (failure true
                   [Text "Error: Navigation Timeout Exceeded: 30000ms exceeded"])).
Proof.
  intros noSelector. split.
  - destruct (X6_chooseTime_failures noSelector Fixture.cfg) as (Hselect & _).
    pose (s1 := mkPSt 0 [Goto Seamless.URLS_chooseTime]).
    pose (s2 := mkPSt 0 [Goto Seamless.URLS_chooseTime; Select "#time" "5:30 PM"]).
    pose (s3 := mkPSt 0 [Goto Seamless.URLS_chooseTime; Select "#time" "5:30 PM";
                         Click "tr.startorder a"]).
    pose (s4 := mkPSt 0 [Goto Seamless.URLS_chooseTime; Select "#time" "5:30 PM";
                         Click "tr.startorder a"; WaitForNavigation]).
    rewrite (Hselect Fixture.start s1 (Error "No node found for selector: #time")
               s2 s3 s4); reflexivity.
  - destruct (X6_chooseTime_failures (Fixture.scripted Fixture.stalled) Fixture.cfg)
      as (_ & Hgoto).
    rewrite (Hgoto Fixture.start
               (Error "Navigation Timeout Exceeded: 30000ms exceeded")
               (mkPSt 0 [Goto Seamless.URLS_chooseTime])); reflexivity.
Defined.

(** X7 on a batch of Alice and a stranger. *)
Lemma X7_unknown_participant_throws_witness :
  let env := Fixture.scripted (Fixture.calm [12%Q] (Some true)) in
  let r := Grubhub.fillNames env Fixture.atUser ["U1"; "U9"; "U2"] emptyObj Fixture.start in
  fst r = Throw (TypeError "Cannot read property 'name' of null")
  /\ typedTexts (trace (snd r)) = ["Alice Liddell"].
Proof.
  intros env r.
  pose (s0 := snd ((run env (WaitFor (Selector "label[for='showAllocations']")) ;;
                    run env (Click "label[for='showAllocations']") ;;
                    run env (WaitFor (Ms 200))) Fixture.start)).
  pose (s1 := snd (Grubhub.enterNames env ["U1"] s0)).
  pose (s2 := snd (query env (GetUser (Some "U9")) s1)).
  destruct (X7_unknown_participant_throws env Fixture.atUser ["U1"] ["U2"] "U9" emptyObj
              Fixture.start s0 s1 s2) as (Hrun & Htyped); try evaluate.
  split.
  - exact (f_equal fst Hrun).
  - replace (snd r) with s2 by (symmetry; exact (f_equal snd Hrun)).
    rewrite Htyped. evaluate.
Defined.

(** ** The amounts Seamless records *)

Lemma keys_set_in {V : Type} (o : Object V) k v k' :
  In k' (keys (set o k v)) <-> k' = k \/ In k' (keys o).
Proof.
  induction o as [| [k0 v0] o IH]; simpl.
  - intuition.
  - destruct (String.eqb_spec k0 k) as [-> | Hneq]; simpl.
    + intuition.
    + rewrite IH. intuition.
Qed.

Lemma keys_set_nodup {V : Type} (o : Object V) k v :
  NoDup (keys o) -> NoDup (keys (set o k v)).
Proof.
  induction o as [| [k0 v0] o IH]; simpl; intros Hnd.
  - constructor; [intros [] | constructor].
  - inversion Hnd as [| ? ? Hfresh Hnd']; subst.
    destruct (String.eqb_spec k0 k) as [-> | Hneq]; simpl.
    + now constructor.
    + constructor; [| now apply IH].
      intros Hin. apply keys_set_in in Hin. destruct Hin as [Heq | Hin]; auto.
Qed.

Lemma get_set_same {V : Type} (o : Object V) k v : get (set o k v) k = Some v.
Proof.
  induction o as [| [k0 v0] o IH]; simpl.
  - now rewrite String.eqb_refl.
  - destruct (String.eqb_spec k0 k) as [-> | Hneq]; simpl.
    + now rewrite String.eqb_refl.
    + destruct (String.eqb_spec k0 k); [contradiction | exact IH].
Qed.

Lemma get_set_other {V : Type} (o : Object V) k v k' :
  k' <> k -> get (set o k v) k' = get o k'.
Proof.
  intros Hneq. induction o as [| [k0 v0] o IH]; simpl.
  - destruct (String.eqb_spec k k'); [congruence | reflexivity].
  - destruct (String.eqb_spec k0 k) as [-> | Hk0]; simpl.
    + destruct (String.eqb_spec k k'); [congruence | reflexivity].
    + destruct (String.eqb_spec k0 k'); [reflexivity | exact IH].
Qed.

Section SeamlessAmounts.

Context {W : Type} (env : Env W).

(** A total the page showed. *)
Local Abbreviation shown :=
  (fun total : Q => exists w w', ask env FoodBevTotal w = (Ok total, w')).

Lemma addOrders_inv userOrders : forall orderAmounts0 s orderAmounts1 s',
  Seamless.addOrders env userOrders orderAmounts0 s = (Ok orderAmounts1, s') ->
  NoDup (keys orderAmounts0) ->
  NoDup (keys orderAmounts1)
  /\ (forall k, In k (keys orderAmounts1)
                <-> In k (keys orderAmounts0)
                    \/ In k (map Seamless.username userOrders))
  /\ (forall k, ~ In k (map Seamless.username userOrders) ->
                get orderAmounts1 k = get orderAmounts0 k)
  /\ (forall k, In k (map Seamless.username userOrders) ->
                exists before after,
                  get orderAmounts1 k = Some (after - before)%Q
                  /\ shown before /\ shown after).
Proof.
  induction userOrders as [| userOrder rest IH];
    intros orderAmounts0 s orderAmounts1 s' Hrun Hnd; simpl in Hrun.
  - inversion Hrun; subst. split; [exact Hnd |].
    split; [intros k; simpl; tauto |]. split; [reflexivity | intros k []].
  - unbind Hrun as totalBefore s1 Hbefore. unbind Hrun as u s2 Hitems.
    unbind Hrun as totalAfter s3 Hafter.
    apply query_inv in Hbefore, Hafter.
    destruct Hbefore as (_ & wb & Hbefore). destruct Hafter as (_ & wa & Hafter).
    destruct (IH _ _ _ _ Hrun (keys_set_nodup _ _ _ Hnd))
      as (Hnd1 & Hkeys & Hkeep & Hamount).
    split; [exact Hnd1 |]. split; [| split].
    + intros k. rewrite Hkeys, keys_set_in. simpl. intuition.
    + intros k Hnot. simpl in Hnot.
      rewrite Hkeep by tauto. apply get_set_other. intros ->. tauto.
    + intros k Hin.
      destruct (in_dec string_dec k (map Seamless.username rest)) as [Hrest | Hrest].
      * now apply Hamount.
      * simpl in Hin. destruct Hin as [<- | Hin]; [| contradiction].
        exists totalBefore, totalAfter. rewrite (Hkeep _ Hrest), get_set_same.
        split; [reflexivity |]. split; eauto.
Qed.


End SeamlessAmounts.


(** ** The budget check, in both variants *)

Lemma maxExceeds_false_iff (l : list Q) (c : Q) :
  maxExceeds (max l) c = false <-> forall a, In a l -> (a <= c)%Q.
Proof.
  split.
  - intros Hno a Hin. apply Qnot_lt_le. intros Hlt.
    assert (Hyes : maxExceeds (max l) c = true) by (apply maxExceeds_iff; eauto).
    congruence.
  - intros Hall. destruct (maxExceeds (max l) c) eqn:Hmax; [| reflexivity].
    apply maxExceeds_iff in Hmax. destruct Hmax as (a & Hin & Hlt).
    exfalso. exact (Qlt_not_le _ _ Hlt (Hall a Hin)).
Qed.

Section BudgetBothVariants.

Context {W : Type} (env : Env W).
Variable atUser : option string -> string.

(** X9.  The budget check fails a batch only for an allocation above
    25: when [fillNames] of Grubhub, or the budget check that ends
    [fillNames] of Seamless, returns, it has read the allocations from
    the page, and it returns no object (the pipeline continues) exactly
    when every one of them is at most 25, which includes a page that
    shows none. *)
Theorem X9_no_violation_within_budget :
  (forall slackIds result s out s',
      Grubhub.fillNames env atUser slackIds result s = (Ok out, s') ->
      exists amountAllocated,
        (exists w w', ask env (EvalNumbers "div.allocation-saved-cell") w
                      = (Ok amountAllocated, w'))
        /\ (out = None <-> forall a, In a amountAllocated -> (a <= 25)%Q))
  /\ (forall usernames result s out s',
        Seamless.checkBudget env usernames result s = (Ok out, s') ->
        exists amountAllocated,
          (exists w w', ask env (EvalNumbers "input.allocationAmt") w
                        = (Ok amountAllocated, w'))
          /\ (out = None <-> forall a, In a amountAllocated -> (a <= 25)%Q)).
Proof.
  split.
  - intros slackIds result s out s' Hrun. apply fillNames_inv in Hrun.
    destruct Hrun as (_ & _ & amountAllocated & _ & _ & _ & Hread & Hout).
    exists amountAllocated. split; [exact Hread |].
    rewrite <- maxExceeds_false_iff.
    destruct (maxExceeds (max amountAllocated) 25).
    + destruct (orderAmounts result); [| contradiction].
      subst out. split; discriminate.
    + subst out. tauto.
  - intros usernames result s out s' Hrun. unfold Seamless.checkBudget in Hrun.
    unbind Hrun as amountAllocated s1 Hread. apply query_inv in Hread.
    destruct Hread as (_ & w' & Hread).
    exists amountAllocated. split; [eauto |].
    rewrite <- maxExceeds_false_iff.
    destruct (maxExceeds (max amountAllocated) 25).
    + destruct (orderAmounts result) as [orderAmounts0 |]; [| discriminate Hrun].
      unbind Hrun as userAt s2 Hat. inversion Hrun. split; discriminate.
    + inversion Hrun. tauto.
Qed.

(** X10.  On Seamless, when some allocation shown exceeds 25, the
    failure is final ([retry: false]), its excess is the sum of the
    allocations minus 25 per username, and the person it names is the
    first user, in the order of [orderAmounts], whose recorded amount
    is the highest, with that amount, provided the amount is
    positive. *)
Theorem X10_seamless_names_first_highest (usernames : list string) (result : Obj)
    (s s1 s2 : PSt W) (amountAllocated : list Q)
    (before after : Object Q) (k userAt : string) (a : Q)
    (Hread : query env (EvalNumbers "input.allocationAmt") s = (Ok amountAllocated, s1))
    (Hover : exists x, In x amountAllocated /\ (25 < x)%Q)
    (Hamounts : orderAmounts result = Some (before ++ (k, a) :: after))
    (Hnodup : NoDup (keys (before ++ (k, a) :: after)))
    (Hpos : (0 < a)%Q)
    (Hbefore : forall k' a', In (k', a') before -> (a' < a)%Q)
    (Hafter : forall k' a', In (k', a') after -> (a' <= a)%Q)
    (Hat : Seamless.atUser env (Some k) s1 = (Ok userAt, s2)) :
  Seamless.checkBudget env usernames result s
  = (Ok (Some (failure false
                 [ExceededBudget
                    (sum amountAllocated
                     - inject_Z (Z.of_nat (List.length usernames)) * 25)%Q
                    userAt a])), s2).
Proof.
  pose proof (maxOrder_first_highest before after k a Hnodup Hpos Hbefore Hafter)
    as Hmax.
  rewrite (seamless_budget_violation env usernames result s s1 s2 amountAllocated
             (before ++ (k, a) :: after) userAt Hread);
    [now rewrite Hmax | now apply maxExceeds_iff | exact Hamounts | now rewrite Hmax].
Qed.

End BudgetBothVariants.

(** X9 on calm pages that show 25 and 30. *)
Lemma X9_no_violation_within_budget_witness :
  let within := Fixture.scripted (Fixture.calm [25%Q; 10%Q] (Some true)) in
  let over := Fixture.scripted (Fixture.calm [30%Q] (Some true)) in
  let result := mkObj None None (Some []) None in
  fst (Grubhub.fillNames within Fixture.atUser ["U1"; "U2"] result Fixture.start) = Ok None
  /\ fst (Grubhub.fillNames over Fixture.atUser ["U1"] result Fixture.start) <> Ok None.
Proof.
  intros within over result. split.
  - destruct (X9_no_violation_within_budget within Fixture.atUser) as (Hgrubhub & _).
    destruct (Grubhub.fillNames within Fixture.atUser ["U1"; "U2"] result Fixture.start)
      as [r s'] eqn:Hrun.
    assert (Hr : exists out, r = Ok out).
    { assert (Hfst : r = fst (Grubhub.fillNames within Fixture.atUser ["U1"; "U2"]
                                result Fixture.start)) by now rewrite Hrun.
      rewrite Hfst. eexists. evaluate. }
    destruct Hr as (out & ->).
    destruct (Hgrubhub _ _ _ _ _ Hrun) as (amounts & (w & w' & Hread) & Hout).
    inversion Hread; subst amounts. simpl. f_equal. apply Hout.
    intros a [<- | [<- | []]]; unfold Qle; simpl; lia.
  - destruct (X9_no_violation_within_budget over Fixture.atUser) as (Hgrubhub & _).
    destruct (Grubhub.fillNames over Fixture.atUser ["U1"] result Fixture.start)
      as [r s'] eqn:Hrun.
    simpl. intros Hr. subst r.
    destruct (Hgrubhub _ _ _ _ _ Hrun) as (amounts & (w & w' & Hread) & Hout).
    inversion Hread; subst amounts.
    assert (Hle : (30 <= 25)%Q) by (apply Hout; [reflexivity | now left]).
    unfold Qle in Hle. simpl in Hle. lia.
Defined.

(** X10 on a calm page that shows an allocation of 30, with amounts
    recorded for Alice and Bob: Bob is named. *)
Lemma X10_seamless_names_first_highest_witness :
  let env := Fixture.scripted (Fixture.calm [30%Q] (Some true)) in
  let result := mkObj None None (Some [("alice", 12%Q); ("bob", 24%Q); ("carol", 24%Q)]) None in
  fst (Seamless.checkBudget env ["alice"; "bob"; "carol"] result Fixture.start)
  = Ok (Some (failure false [ExceededBudget (30 - 3 * 25)%Q "<@U2>" 24])).
Proof.
  intros env result.
  rewrite (X10_seamless_names_first_highest env ["alice"; "bob"; "carol"] result
             Fixture.start Fixture.start Fixture.start [30%Q]
             [("alice", 12%Q)] [("carol", 24%Q)] "bob" "<@U2>" 24%Q).
  - evaluate.
  - reflexivity.
  - exists 30%Q. split; [now left | unfold Qlt; simpl; lia].
  - reflexivity.
  - repeat constructor; simpl; intuition discriminate.
  - unfold Qlt; simpl; lia.
  - intros k' a' [H | []]. inversion H. unfold Qlt; simpl; lia.
  - intros k' a' [H | []]. inversion H. unfold Qle; simpl; lia.
  - reflexivity.
Defined.

(** ** The callee *)

Section SeamlessCallee.

Context {W : Type} (env : Env W).

(** X11.  On Seamless every user of the batch can be the callee: with
    a draw of [Math.random] in [0, 1) and a batch that is not empty,
    the user [fillPhoneNumber] returns is the directory's record for
    one of the usernames of the batch, and its phone number is what
    was typed. *)
Theorem X11_seamless_callee_is_participant
    (Hrandom : forall w r w', ask env Random w = (Ok r, w') -> (0 <= r)%Q /\ (r < 1)%Q)
    (usernames : list string) (s s' : PSt W) (out : Obj) (callee : User)
    (Hsome : usernames <> [])
    (Hrun : Seamless.fillPhoneNumber env usernames s = (Ok (Some out), s'))
    (Hcallee : user out = Some callee) :
  (exists username, In username usernames /\ resolved env username callee)
  /\ typedTexts (trace s') = typedTexts (trace s) ++ [Users.phone callee].
Proof.
  unfold Seamless.fillPhoneNumber in Hrun. apply tryCatch_inv in Hrun.
  destruct Hrun as [(a & Hbody & Ha) | (e & s1 & _ & Hhandler)].
  2: { inversion Hhandler; subst. discriminate Hcallee. }
  inversion Ha; subst a. clear Ha.
  unbind Hbody as r t1 Hdraw. unbind Hbody as found t2 Hget.
  unbind Hbody as u3 t3 R3. unbind Hbody as u4 t4 R4.
  destruct found as [userData |]; [| discriminate].
  unbind Hbody as u5 t5 R5. unbind Hbody as u6 t6 R6.
  inversion Hbody; subst. simpl in Hcallee. inversion Hcallee; subst userData.
  apply query_inv in Hdraw, Hget.
  destruct Hdraw as (Ht1 & w1 & Hdraw). destruct Hget as (Ht2 & w2 & Hget).
  apply run_inv in R3, R4, R5, R6.
  split.
  - destruct (Hrandom _ _ _ Hdraw) as (H0 & H1).
    destruct (pick_in usernames r Hsome H0 H1) as (username & Hpick & Hin).
    change (Seamless.pick usernames r) with (Grubhub.pick usernames r) in Hget.
    rewrite Hpick in Hget. exists username. split; [exact Hin |].
    now exists (world t1), w2.
  - rewrite R6, R5, R4, R3, Ht2, Ht1, !typedTexts_app. simpl.
    now rewrite !app_nil_r.
Qed.

End SeamlessCallee.

(** X11 on a calm page: the draw 1/2 picks Bob among Alice and Bob. *)
Lemma X11_seamless_callee_is_participant_witness :
  let env := Fixture.scripted (Fixture.calm [12%Q] (Some true)) in
  (exists username, In username ["alice"; "bob"] /\ resolved env username Fixture.bob)
  /\ typedTexts
       (trace (snd (Seamless.fillPhoneNumber env ["alice"; "bob"] Fixture.start)))
     = ["555-0102"].
Proof.
  intros env.
  assert (Hrandom : forall w r w',
             ask env Random w = (Ok r, w') -> (0 <= r)%Q /\ (r < 1)%Q).
  { intros w r w' H. inversion H. split; unfold Qle, Qlt; simpl; lia. }
  apply (X11_seamless_callee_is_participant env Hrandom ["alice"; "bob"] Fixture.start
           (snd (Seamless.fillPhoneNumber env ["alice"; "bob"] Fixture.start))
           (mkObj None None None (Some Fixture.bob)) Fixture.bob).
  - discriminate.
  - evaluate.
  - reflexivity.
Defined.

(** ** The results of a Grubhub run *)

#[local] Instance resultsOnly_preorder {W BR : Type} (P : BR -> Prop)
  : PreOrder (@resultsOnly W BR P).
Proof.
  split.
  - intros s. exists []. split; [now rewrite app_nil_r | constructor].
  - intros s1 s2 s3 (n1 & H1 & P1) (n2 & H2 & P2).
    exists (n1 ++ n2). split.
    + now rewrite H2, H1, app_assoc.
    + apply Forall_app. now split.
Qed.

Section ResultFrames.

Context {W BR : Type} (env : Env W) (P : BR -> Prop).

Lemma liftP_resultsOnly {A : Type} (m : M (PSt W) A) :
  framed (resultsOnly P) (liftP (BR := BR) m).
Proof.
  intros s r s' H. apply liftP_sameResults in H.
  exists []. rewrite H. split; [now rewrite app_nil_r | constructor].
Qed.

Lemma call_resultsOnly c : framed (resultsOnly P) (call (BR := BR) env c).
Proof.
  intros s r s' H. apply call_sameResults in H.
  exists []. rewrite H. split; [now rewrite app_nil_r | constructor].
Qed.

Lemma push_resultsOnly (b : BR) : P b -> framed (resultsOnly P) (push (W := W) b).
Proof.
  intros Hb s r s' H. inversion H. exists [b]. simpl.
  split; [reflexivity | now constructor].
Qed.

End ResultFrames.

Section GrubhubResults.

Context {W : Type} (env : Env W) (cfg : Config).
Variable simplifyOption : string -> string.
Variable atUser : option string -> string.

(** The user of a result without [errors] is the directory's answer
    for the slack id picked, by a draw, among the eligible ones. *)
Local Abbreviation pickedFor :=
  (fun (userOrders : list Grubhub.UserOrder) (callee : User) =>
     exists r,
       (exists w w', ask env Random w = (Ok r, w'))
       /\ (exists w w',
             ask env (GetUser (Grubhub.pick (Grubhub.eligible userOrders) r)) w
             = (Ok (Some callee), w'))).

Lemma attempt_callee restaurant userOrders s o s' :
  Pipeline.attempt (Grubhub.steps env cfg simplifyOption atUser restaurant userOrders)
    (submit env cfg restaurant) s = (Ok o, s') ->
  errors o = None ->
  exists callee, user o = Some callee /\ pickedFor userOrders callee.
Proof.
  rewrite attempt_eq. intros H Ho. apply tryCatch_inv in H.
  destruct H as [(a & H & Ha) | (e & s1 & _ & H)];
    [| inversion H; subst; discriminate Ho].
  inversion Ha; subst a. clear Ha. unfold Grubhub.steps in H.
  apply runSteps_success_inv in H; [| exact Ho].
  destruct H as (out1 & s1 & H1 & H).
  destruct out1 as [v1 |].
  { destruct H as (Hv1 & _). now apply setupRestaurant_output in H1. }
  apply runSteps_success_inv in H; [| exact Ho].
  destruct H as (out2 & s2 & H2 & H).
  apply fillOrders_output in H2. destruct H2 as (v2 & -> & Hv2).
  destruct H as (Hno2 & H). destruct Hv2 as [Hv2 | ->]; [contradiction |].
  apply runSteps_success_inv in H; [| exact Ho].
  destruct H as (out3 & s3 & H3 & H).
  apply fillNames_inv in H3.
  destruct H3 as (_ & _ & amountAllocated & _ & _ & _ & _ & H3).
  simpl orderAmounts in H3.
  destruct out3 as [v3 |].
  { destruct H as (Hv3 & _).
    destruct (maxExceeds (max amountAllocated) 25); [| discriminate H3].
    inversion H3; subst v3. discriminate Hv3. }
  apply runSteps_success_inv in H; [| exact Ho].
  destruct H as (out4 & s4 & H4 & H).
  apply fillPhoneNumber_output in H4. destruct H4 as (v4 & -> & Hv4).
  destruct H as (Hno4 & H).
  destruct Hv4 as [(e & ->) | (r & callee & -> & Hdraw & Hget)];
    [discriminate Hno4 |].
  apply runSteps_nil_inv in H. subst o. simpl. exists callee. split; [reflexivity |].
  exists r. now split.
Qed.

Lemma orderFromRestaurant_callee restaurant userOrders retries : forall s o s',
  Grubhub.orderFromRestaurant env cfg simplifyOption atUser restaurant userOrders
    retries s = (Ok o, s') ->
  errors o = None ->
  exists callee, user o = Some callee /\ pickedFor userOrders callee.
Proof.
  unfold Grubhub.orderFromRestaurant.
  induction retries as [| retries IH]; intros s o s' H Ho.
  - now apply (attempt_callee restaurant userOrders s o s').
  - rewrite orderFromRestaurant_succ in H.
    destruct (Pipeline.attempt _ _ s) as [[o1 | e] s1] eqn:Hat; [| discriminate].
    destruct (isRetryable o1).
    + now apply (IH s1 o s').
    + inversion H; subst. now apply (attempt_callee restaurant userOrders s o s').
Qed.

(** What a result says of its batch. *)
Local Abbreviation describes :=
  (fun (orderSet : Grubhub.OrderSet) (b : Grubhub.BatchResult) =>
     match b with
     | Grubhub.Failed restaurant users _ =>
         restaurant = Grubhub.restaurant orderSet
         /\ users = filter (fun u => negb (Grubhub.isDonor u)) (Grubhub.users orderSet)
     | Grubhub.Succeeded restaurant userCall confirmationUrl =>
         restaurant = Grubhub.restaurant orderSet
         /\ confirmationUrl = confirmationUrlOf restaurant
         /\ exists callee,
              userCall = Users.slackId callee
              /\ pickedFor (Grubhub.users orderSet) callee
     end).

Lemma processOrderSet_describes (P : Grubhub.BatchResult -> Prop) orderSet :
  (forall b, describes orderSet b -> P b) ->
  framed (resultsOnly P)
    (Grubhub.processOrderSet env cfg simplifyOption atUser orderSet).
Proof.
  intros HP. unfold Grubhub.processOrderSet.
  apply framed_bind; [typeclasses eauto | apply liftP_resultsOnly |].
  intros orderResult s s1 Hrun.
  apply framed_bind; [typeclasses eauto | | intros; apply liftP_resultsOnly].
  destruct (errors orderResult) as [errs |] eqn:Herr.
  { apply push_resultsOnly, HP. simpl. now split. }
  destruct (user orderResult) as [callee |] eqn:Huser;
    [| apply framed_throw; typeclasses eauto].
  assert (Hpicked : pickedFor (Grubhub.users orderSet) callee).
  { unfold liftP in Hrun.
    destruct (Grubhub.orderFromRestaurant env cfg simplifyOption atUser
                (Grubhub.restaurant orderSet) (Grubhub.users orderSet)
                INITIAL_RETRIES (page s)) as [r p] eqn:Hpipe.
    inversion Hrun; subst.
    destruct (orderFromRestaurant_callee _ _ _ _ _ _ Hpipe Herr) as (c & Hc & Hpicked).
    rewrite Huser in Hc. inversion Hc; subst c. exact Hpicked. }
  apply framed_bind; [typeclasses eauto | |].
  { apply push_resultsOnly, HP. simpl. split; [reflexivity |].
    split; [reflexivity |]. now exists callee. }
  intros _ _ _ _.
  destruct (negb (DRY_RUN cfg)); [| apply framed_ret; typeclasses eauto].
  apply framed_bind; [typeclasses eauto | | intros; apply call_resultsOnly].
  apply framed_promiseAll; [typeclasses eauto |].
  intros m Hm. apply in_map_iff in Hm. destruct Hm as (o & <- & _).
  destruct (orderAmounts orderResult);
    [apply call_resultsOnly | apply framed_throw; typeclasses eauto].
Qed.

(** X12.  Every result a Grubhub run publishes belongs to one of its
    batches.  A failure lists the participants of the batch that are
    not donors.  A success names as [userCall] the Slack id of the
    directory's record of a participant of the batch that is not a
    donor, when the draws of [Math.random] lie in [0, 1) and the batch
    has such a participant, and its confirmation URL is the one made
    from the restaurant's name. *)
Theorem X12_results_describe_batches
    (Hrandom : forall w r w', ask env Random w = (Ok r, w') -> (0 <= r)%Q /\ (r < 1)%Q)
    (orderSets : list Grubhub.OrderSet) (s : RSt W Grubhub.BatchResult)
    (b : Grubhub.BatchResult)
    (Hin : In b (results (snd (Grubhub.go env cfg simplifyOption atUser orderSets s)))) :
  exists orderSet,
    In orderSet orderSets
    /\ match b with
       | Grubhub.Failed restaurant users _ =>
           restaurant = Grubhub.restaurant orderSet
           /\ users = filter (fun u => negb (Grubhub.isDonor u)) (Grubhub.users orderSet)
       | Grubhub.Succeeded restaurant userCall confirmationUrl =>
           restaurant = Grubhub.restaurant orderSet
           /\ confirmationUrl = confirmationUrlOf restaurant
           /\ ((forall o, In o (Grubhub.users orderSet) -> Grubhub.isDonor o = true)
               \/ exists o callee,
                    In o (Grubhub.users orderSet)
                    /\ Grubhub.isDonor o = false
                    /\ resolved env (Grubhub.slackId o) callee
                    /\ userCall = Users.slackId callee)
       end.
Proof.
  set (P := fun b => exists orderSet, In orderSet orderSets /\ describes orderSet b).
  assert (Hord : framed (resultsOnly P)
                   (Grubhub.ordering env cfg simplifyOption atUser orderSets)).
  { unfold Grubhub.ordering.
    apply framed_bind; [typeclasses eauto | apply liftP_resultsOnly |].
    intros _ _ _ _. apply framed_forEach; [typeclasses eauto |].
    intros orderSet Hset. apply processOrderSet_describes.
    intros b0 Hb0. now exists orderSet. }
  set (s0 := mkRSt (page s) (calls s) [] (published s)).
  destruct (Grubhub.ordering env cfg simplifyOption atUser orderSets s0)
    as [r s1] eqn:Hrun.
  assert (Hs' : results (snd (Grubhub.go env cfg simplifyOption atUser orderSets s))
                = results s1).
  { unfold Grubhub.go, bind, resetResults, tryCatch, publish, ret.
    fold s0. rewrite Hrun. now destruct r as [[] | e]. }
  rewrite Hs' in Hin. destruct (Hord _ _ _ Hrun) as (new & Hnew & Hall).
  simpl in Hnew. rewrite Hnew in Hin. rewrite Forall_forall in Hall.
  destruct (Hall _ Hin) as (orderSet & Hset & Hb).
  exists orderSet. split; [exact Hset |].
  destruct b as [restaurant users errs | restaurant userCall confirmationUrl];
    [exact Hb |].
  destruct Hb as (Hrest & Hurl & callee & Hcall & r0 & (w1 & w1' & Hdraw) & Hget).
  split; [exact Hrest |]. split; [exact Hurl |].
  destruct (filter (fun o => negb (Grubhub.isDonor o)) (Grubhub.users orderSet))
    as [| o0 others] eqn:Hfilter.
  - left. intros o Ho. destruct (Grubhub.isDonor o) eqn:Hdonor; [reflexivity |].
    assert (Hmem : In o (filter (fun o => negb (Grubhub.isDonor o))
                           (Grubhub.users orderSet)))
      by (apply filter_In; now rewrite Hdonor).
    rewrite Hfilter in Hmem. contradiction.
  - right. destruct (Hrandom _ _ _ Hdraw) as (H0 & H1).
    destruct (pick_in (Grubhub.eligible (Grubhub.users orderSet)) r0) as (id & Hpick & Hid);
      auto.
    { rewrite eligible_filter, Hfilter. discriminate. }
    rewrite Hpick in Hget. rewrite eligible_filter in Hid.
    apply in_map_iff in Hid. destruct Hid as (o & <- & Ho).
    apply filter_In in Ho. destruct Ho as (Ho & Hdonor).
    exists o, callee. split; [exact Ho |].
    split; [now destruct (Grubhub.isDonor o) |]. split; [exact Hget | exact Hcall].
Qed.

End GrubhubResults.

(** X12 on a calm page: the batch of a participant and a donor
    succeeds and calls the participant. *)
Lemma X12_results_describe_batches_witness :
  let env := Fixture.scripted (Fixture.calm [12%Q] (Some true)) in
  let batch := Grubhub.mkOrderSet "Pizza Palace!" [Fixture.order1; Fixture.order2] in
  exists orderSet,
    In orderSet [batch]
    /\ ((forall o, In o (Grubhub.users orderSet) -> Grubhub.isDonor o = true)
        \/ exists o callee,
             In o (Grubhub.users orderSet)
             /\ Grubhub.isDonor o = false
             /\ resolved env (Grubhub.slackId o) callee
             /\ "U1" = Users.slackId callee).
Proof.
  intros env batch.
  assert (Hrandom : forall w r w',
             ask env Random w = (Ok r, w') -> (0 <= r)%Q /\ (r < 1)%Q).
  { intros w r w' H. inversion H. split; unfold Qle, Qlt; simpl; lia. }
  destruct (X12_results_describe_batches env Fixture.cfg Fixture.simplifyOption
              Fixture.atUser Hrandom [batch] Fixture.startRun
              (Grubhub.Succeeded "Pizza Palace!" "U1"
                 "https://alfred.ajay-gandhi.com/confirmations/pizza_palace.pdf"))
    as (orderSet & Hset & _ & _ & Hcallee).
  - vm_compute. now left.
  - exists orderSet. now split.
Defined.

(** * Properties of the helpers and of the stores *)

(** ** Catalog lookups *)

(** A reduction that replaces its memo at every match ends with its
    start value or with the image of a match. *)
Lemma fold_override_cases {A B : Type} (p : A -> bool) (f : A -> B) l : forall init,
  (fold_left (fun memo y => if p y then f y else memo) l init = init
   /\ forall y, In y l -> p y = false)
  \/ exists y, In y l /\ p y = true
               /\ fold_left (fun memo y => if p y then f y else memo) l init = f y.
Proof.
  induction l as [| x l IH]; intros init; simpl.
  - left. split; [reflexivity | intros y []].
  - destruct (p x) eqn:Hx.
    + destruct (IH (f x)) as [(Hfold & Hno) | (y & Hy & Hp & Hfold)].
      * right. exists x. auto.
      * right. exists y. auto.
    + destruct (IH init) as [(Hfold & Hno) | (y & Hy & Hp & Hfold)].
      * left. split; [exact Hfold |]. intros y [<- | Hy]; auto.
      * right. exists y. auto.
Qed.

Lemma get_key {V : Type} (o : Object V) k :
  In k (keys o) -> exists v, get o k = Some v /\ In (k, v) o.
Proof.
  induction o as [| [k' v'] o IH]; simpl; intros Hin; [contradiction |].
  destruct (String.eqb_spec k' k) as [-> | Hne].
  - exists v'. auto.
  - destruct Hin as [Heq | Hin]; [contradiction |].
    destruct (IH Hin) as (v & Hget & Hv). exists v. auto.
Qed.

Lemma get_some_in {V : Type} (o : Object V) k v :
  get o k = Some v -> In (k, v) o.
Proof.
  induction o as [| [k' v'] o IH]; simpl; [discriminate |].
  destruct (String.eqb_spec k' k) as [-> | Hne].
  - intros H. inversion H. now left.
  - intros H. right. now apply IH.
Qed.

Section CatalogSearch.

Variable MENU_DATA : Object DataUtil.Restaurant.

(** X13.  The catalog searches answer with a match or with nothing.
    [find_restaurant_by_name] returns the data of a restaurant whose
    lower-cased name contains the lower-cased query, and the empty
    object exactly when no name does.  [find_item_by_name] throws a
    TypeError exactly when its restaurant is not a key of the catalog;
    otherwise it returns an item of that restaurant's menu whose
    lower-cased name contains the lower-cased query, and the empty
    object exactly when no item of the menu does. *)
Theorem X13_catalog_search_is_sound :
  (forall rest_name,
      match DataUtil.find_restaurant_by_name MENU_DATA rest_name with
      | Some r =>
          exists name,
            In (name, r) MENU_DATA
            /\ includes (toLowerCase name) (toLowerCase rest_name) = true
      | None =>
          forall name, In name (keys MENU_DATA) ->
            includes (toLowerCase name) (toLowerCase rest_name) = false
      end)
  /\ (forall restaurant item_name,
        match DataUtil.find_item_by_name MENU_DATA restaurant item_name with
        | Throw e => isTypeError e = true /\ get MENU_DATA restaurant = None
        | Ok found =>
            exists r,
              get MENU_DATA restaurant = Some r
              /\ match found with
                 | Some item =>
                     In item (DataUtil.menu r)
                     /\ includes (toLowerCase (DataUtil.name item))
                          (toLowerCase item_name) = true
                 | None =>
                     forall item, In item (DataUtil.menu r) ->
                       includes (toLowerCase (DataUtil.name item))
                         (toLowerCase item_name) = false
                 end
        end).
Proof.
  split.
  - intros rest_name. unfold DataUtil.find_restaurant_by_name, DataUtil.REST_NAMES.
    destruct (fold_override_cases
                (fun n => includes (toLowerCase n) (toLowerCase rest_name))
                (fun n => get MENU_DATA n) (keys MENU_DATA) None)
      as [(-> & Hno) | (name & Hname & Hmatch & ->)].
    + exact Hno.
    + destruct (get_key MENU_DATA name Hname) as (r & -> & Hr).
      exists name. now split.
  - intros restaurant item_name. unfold DataUtil.find_item_by_name.
    destruct (get MENU_DATA restaurant) as [r |] eqn:Hget.
    + exists r. split; [reflexivity |].
      destruct (fold_override_cases
                  (fun item => includes (toLowerCase (DataUtil.name item))
                                 (toLowerCase item_name))
                  (@Some DataUtil.MenuItem) (DataUtil.menu r) None)
        as [(-> & Hno) | (item & Hitem & Hmatch & ->)].
      * exact Hno.
      * now split.
    + now split.
Qed.

End CatalogSearch.

(** X13 on the two-pizzeria catalog: "hut" finds Pizza Hut, "sushi"
    nothing, and an item asked of a restaurant that is not in the
    catalog throws. *)
Lemma X13_catalog_search_is_sound_witness :
  (exists name,
      In (name, Fixture.pizzaHut) Fixture.menuData
      /\ includes (toLowerCase name) (toLowerCase "hut") = true)
  /\ (forall name, In name (keys Fixture.menuData) ->
        includes (toLowerCase name) (toLowerCase "sushi") = false)
  /\ (exists e, DataUtil.find_item_by_name Fixture.menuData "Sushi Bar" "roll" = Throw e
                /\ isTypeError e = true).
Proof.
  destruct (X13_catalog_search_is_sound Fixture.menuData) as (Hrest & Hitem).
  split; [| split].
  - exact (Hrest "hut").
  - exact (Hrest "sushi").
  - specialize (Hitem "Sushi Bar" "roll").
    destruct (DataUtil.find_item_by_name Fixture.menuData "Sushi Bar" "roll")
      as [found | e] eqn:Hfind; [discriminate Hfind |].
    exists e. split; [reflexivity | exact (proj1 Hitem)].
Defined.

(** ** The names of the confirmation files *)

Lemma lowerChar_alphanumeric c : isAlphanumeric (lowerChar c) = isAlphanumeric c.
Proof. destruct c as [[] [] [] [] [] [] [] []]; reflexivity. Qed.

Lemma lowerChar_idempotent c : lowerChar (lowerChar c) = lowerChar c.
Proof. destruct c as [[] [] [] [] [] [] [] []]; reflexivity. Qed.

Lemma lowerChar_underscore c : Ascii.eqb (lowerChar c) "_" = Ascii.eqb c "_".
Proof. destruct c as [[] [] [] [] [] [] [] []]; reflexivity. Qed.

Lemma lowerChar_fileChar c :
  isAlphanumeric c || Ascii.eqb c "_" = true -> isFileChar (lowerChar c) = true.
Proof. destruct c as [[] [] [] [] [] [] [] []]; intros H; try reflexivity; discriminate H. Qed.

Lemma toLowerCase_idempotent s : toLowerCase (toLowerCase s) = toLowerCase s.
Proof.
  induction s as [| c s IH]; simpl; [reflexivity |].
  now rewrite lowerChar_idempotent, IH.
Qed.

Lemma replaceNotAlphan_lower n : forall inRun,
  replaceNotAlphan (toLowerCase n) inRun = toLowerCase (replaceNotAlphan n inRun).
Proof.
  induction n as [| c n IH]; intros inRun; simpl; [reflexivity |].
  rewrite lowerChar_alphanumeric.
  destruct (isAlphanumeric c); simpl; [now rewrite IH |].
  destruct inRun; simpl; now rewrite IH.
Qed.

(** Dropping underscores, seen through [Ascii.eqb]. *)
Lemma dropLeadingUnderscores_eq c rest :
  dropLeadingUnderscores (String c rest)
  = if Ascii.eqb c "_" then dropLeadingUnderscores rest else String c rest.
Proof.
  destruct (Ascii.eqb_spec c "_") as [-> | Hne]; [reflexivity |].
  destruct c as [[] [] [] [] [] [] [] []]; try reflexivity. now contradiction Hne.
Qed.

Lemma dropLeadingUnderscores_lower s :
  dropLeadingUnderscores (toLowerCase s) = toLowerCase (dropLeadingUnderscores s).
Proof.
  induction s as [| c s IH]; [reflexivity |].
  simpl toLowerCase at 1. rewrite !dropLeadingUnderscores_eq, lowerChar_underscore.
  destruct (Ascii.eqb c "_"); [exact IH | reflexivity].
Qed.

Lemma dropTrailingUnderscores_lower s :
  dropTrailingUnderscores (toLowerCase s) = toLowerCase (dropTrailingUnderscores s).
Proof.
  induction s as [| c s IH]; [reflexivity |].
  simpl. rewrite IH, lowerChar_underscore.
  destruct (dropTrailingUnderscores s); simpl; [| reflexivity].
  now destruct (Ascii.eqb c "_").
Qed.

Lemma allChars_replaceNotAlphan n : forall inRun,
  allChars (fun c => isAlphanumeric c || Ascii.eqb c "_") (replaceNotAlphan n inRun) = true.
Proof.
  induction n as [| c n IH]; intros inRun; simpl; [reflexivity |].
  destruct (isAlphanumeric c) eqn:Hc; simpl; [now rewrite Hc, IH |].
  destruct inRun; simpl; now rewrite IH.
Qed.

Lemma allChars_dropLeading p s :
  allChars p s = true -> allChars p (dropLeadingUnderscores s) = true.
Proof.
  induction s as [| c s IH]; [trivial |].
  rewrite dropLeadingUnderscores_eq. simpl. intros H.
  apply andb_true_iff in H. destruct H as (Hc & Hs).
  destruct (Ascii.eqb c "_"); [now apply IH |]. simpl. now rewrite Hc, Hs.
Qed.

Lemma allChars_dropTrailing p s :
  allChars p s = true -> allChars p (dropTrailingUnderscores s) = true.
Proof.
  induction s as [| c s IH]; [trivial |].
  simpl. intros H. apply andb_true_iff in H. destruct H as (Hc & Hs).
  specialize (IH Hs). destruct (dropTrailingUnderscores s) as [| c' s'].
  - destruct (Ascii.eqb c "_"); simpl; [reflexivity | now rewrite Hc].
  - simpl in *. now rewrite Hc, IH.
Qed.

Lemma allChars_lower s :
  allChars (fun c => isAlphanumeric c || Ascii.eqb c "_") s = true ->
  allChars isFileChar (toLowerCase s) = true.
Proof.
  induction s as [| c s IH]; simpl; [trivial |]. intros H.
  apply andb_true_iff in H. destruct H as (Hc & Hs).
  now rewrite (lowerChar_fileChar c Hc), IH.
Qed.

(** No underscore at either end. *)
Lemma prefix_underscore c s : String.prefix "_" (String c s) = Ascii.eqb c "_".
Proof.
  change (String.prefix "_" (String c s))
    with (if ascii_dec "_" c then String.prefix "" s else false).
  destruct (ascii_dec "_" c) as [<- | Hne].
  - now destruct s.
  - symmetry. apply Ascii.eqb_neq. congruence.
Qed.

Lemma dropLeadingUnderscores_head s :
  String.prefix "_" (dropLeadingUnderscores s) = false.
Proof.
  induction s as [| c s IH]; [reflexivity |].
  rewrite dropLeadingUnderscores_eq.
  destruct (Ascii.eqb c "_") eqn:Hc; [exact IH |].
  now rewrite prefix_underscore.
Qed.

Lemma dropTrailingUnderscores_head s :
  String.prefix "_" s = false -> String.prefix "_" (dropTrailingUnderscores s) = false.
Proof.
  destruct s as [| c s]; [trivial |]. rewrite prefix_underscore. intros Hc.
  cbn [dropTrailingUnderscores]. destruct (dropTrailingUnderscores s).
  - rewrite Hc. now rewrite prefix_underscore.
  - now rewrite prefix_underscore.
Qed.

Lemma dropTrailingUnderscores_last s init :
  dropTrailingUnderscores s <> (init ++ "_")%string.
Proof.
  revert init. induction s as [| c s IH]; intros init; simpl.
  - destruct init; discriminate.
  - destruct (dropTrailingUnderscores s) as [| c' s'] eqn:Hs.
    + destruct (Ascii.eqb_spec c "_") as [-> | Hne].
      * destruct init; discriminate.
      * destruct init as [| d [| d' init]]; simpl; try discriminate.
        intros H. inversion H. contradiction.
    + destruct init as [| d init]; simpl; [discriminate |].
      intros H. inversion H as [[Hd Hrest]]. now apply (IH init).
Qed.

Lemma toLowerCase_head s :
  String.prefix "_" s = false -> String.prefix "_" (toLowerCase s) = false.
Proof.
  destruct s as [| c s]; [trivial |]. cbn [toLowerCase].
  now rewrite !prefix_underscore, lowerChar_underscore.
Qed.

Lemma toLowerCase_last s init :
  (forall init', s <> (init' ++ "_")%string) -> toLowerCase s <> (init ++ "_")%string.
Proof.
  revert init. induction s as [| c s IH]; intros init Hs; simpl.
  - destruct init; discriminate.
  - destruct init as [| d init]; simpl.
    + intros H. inversion H as [[Hc Hrest]]. destruct s; [| discriminate Hrest].
      apply (Hs ""). simpl. f_equal.
      pose proof (lowerChar_underscore c) as Hu. rewrite Hc in Hu. simpl in Hu.
      symmetry in Hu. now apply Ascii.eqb_eq in Hu.
    + intros H. inversion H as [[Hc Hrest]]. apply (IH init); [| exact Hrest].
      intros init' ->. now apply (Hs (String c init')).
Qed.

(** X14.  A sanitized file name holds nothing but digits, lower-case
    letters and underscores, and has no underscore at either end: the
    path of a confirmation has no separator and no dot of the
    restaurant's making. *)
Theorem X14_sanitized_names_are_plain (n : string) :
  allChars isFileChar (sanitizeFilename n) = true
  /\ String.prefix "_" (sanitizeFilename n) = false
  /\ forall init, sanitizeFilename n <> (init ++ "_")%string.
Proof.
  unfold sanitizeFilename. split; [| split].
  - apply allChars_lower, allChars_dropTrailing, allChars_dropLeading,
      allChars_replaceNotAlphan.
  - apply toLowerCase_head, dropTrailingUnderscores_head, dropLeadingUnderscores_head.
  - intros init. apply toLowerCase_last. intros init'.
    apply dropTrailingUnderscores_last.
Qed.

(** X15.  The file name does not see the case of the restaurant's
    name: two restaurants whose names differ in case only share their
    confirmation file and their confirmation URL. *)
Theorem X15_sanitize_ignores_case (a b : string)
    (Hcase : toLowerCase a = toLowerCase b) :
  sanitizeFilename a = sanitizeFilename b
  /\ confirmationUrlOf a = confirmationUrlOf b.
Proof.
  assert (Hlower : forall m, sanitizeFilename (toLowerCase m) = sanitizeFilename m).
  { intros m. unfold sanitizeFilename.
    now rewrite replaceNotAlphan_lower, dropLeadingUnderscores_lower,
      dropTrailingUnderscores_lower, toLowerCase_idempotent. }
  assert (Hsame : sanitizeFilename a = sanitizeFilename b)
    by now rewrite <- (Hlower a), Hcase, Hlower.
  split; [exact Hsame |]. unfold confirmationUrlOf. now rewrite Hsame.
Qed.

(** X14 and X15 on two spellings of a name. *)
Lemma X14_sanitized_names_are_plain_witness :
  allChars isFileChar (sanitizeFilename "../Joe's  Pizza & Co.") = true
  /\ String.prefix "_" (sanitizeFilename "../Joe's  Pizza & Co.") = false.
Proof.
  destruct (X14_sanitized_names_are_plain "../Joe's  Pizza & Co.") as (Hchars & Hhead & _).
  now split.
Defined.

Lemma X15_sanitize_ignores_case_witness :
  sanitizeFilename "Pizza Hut" = sanitizeFilename "PIZZA hut"
  /\ confirmationUrlOf "Pizza Hut" = confirmationUrlOf "PIZZA hut".
Proof.
  apply (X15_sanitize_ignores_case "Pizza Hut" "PIZZA hut"). reflexivity.
Defined.

(** ** The order window *)

(** X16.  [isLate] holds from 15:31 on: exactly when the time of day
    is past 15:30, for a minute count below 60. *)
Theorem X16_late_after_half_past_three (hours minutes : nat)
    (Hminutes : (minutes < 60)%nat) :
  Commander.isLate hours minutes = true
  <-> (15 * 60 + 30 < hours * 60 + minutes)%nat.
Proof.
  unfold Commander.isLate. rewrite orb_true_iff, andb_true_iff, !Nat.ltb_lt. lia.
Qed.

Lemma X16_late_after_half_past_three_witness :
  Commander.isLate 15 30 = true <-> (15 * 60 + 30 < 15 * 60 + 30)%nat.
Proof.
  apply (X16_late_after_half_past_three 15 30). lia.
Defined.

(** ** Splitting an order into its items *)

Lemma length_append p q :
  String.length (p ++ q) = (String.length p + String.length q)%nat.
Proof. induction p as [| c p IH]; simpl; [reflexivity | now rewrite IH]. Qed.

Lemma append_assoc (p q r : string) : ((p ++ q) ++ r = p ++ (q ++ r))%string.
Proof. induction p as [| c p IH]; simpl; [reflexivity | now rewrite IH]. Qed.

Lemma append_nil_r (p : string) : (p ++ "")%string = p.
Proof. induction p as [| c p IH]; simpl; [reflexivity | now rewrite IH]. Qed.

Lemma get_append_right p q i :
  String.get (String.length p + i) (p ++ q) = String.get i q.
Proof. induction p as [| c p IH]; simpl; [reflexivity | exact IH]. Qed.

Lemma substring_append_right p q a m :
  String.substring (String.length p + a) m (p ++ q) = String.substring a m q.
Proof. induction p as [| c p IH]; simpl; [reflexivity | exact IH]. Qed.

Lemma substring_prefix p q :
  String.substring 0 (String.length p) (p ++ q) = p.
Proof.
  induction p as [| c p IH]; simpl; [now destruct q | now rewrite IH].
Qed.

Lemma substring_all s : String.substring 0 (String.length s) s = s.
Proof. rewrite <- (append_nil_r s) at 2. apply substring_prefix. Qed.

Section Splitting.

Import Parser.

(** A stretch of the string without a comma outside brackets leaves
    [result] and [start] as they are. *)
Lemma scan_stretch s : forall pre q inside b st,
  bracketsAfter s inside = Some b ->
  insideParens st = inside ->
  fold_left (scanAt (pre ++ s ++ q)) (seq (String.length pre) (String.length s)) st
  = mkScan b (result st) (start st).
Proof.
  induction s as [| c s IH]; intros pre q inside b st Hs Hin.
  - simpl in *. inversion Hs; subst. now destruct st.
  - set (str := (pre ++ String c s ++ q)%string).
    assert (Hc : String.get (String.length pre) str = Some c).
    { unfold str. rewrite <- (Nat.add_0_r (String.length pre)).
      now rewrite get_append_right. }
    assert (Hstep : exists inside',
               scanAt str st (String.length pre) = mkScan inside' (result st) (start st)
               /\ bracketsAfter s inside' = Some b).
    { unfold scanAt. rewrite Hc. unfold isChar. simpl in Hs.
      destruct (Ascii.eqb c "[") eqn:Hopen.
      - apply Ascii.eqb_eq in Hopen. subst c. simpl. now exists true.
      - destruct (Ascii.eqb c "]") eqn:Hclose.
        + apply Ascii.eqb_eq in Hclose. subst c. simpl. now exists false.
        + rewrite Hin. destruct (Ascii.eqb c "," && negb inside) eqn:Hcomma;
            [discriminate Hs |].
          now exists inside. }
    destruct Hstep as (inside' & Hstep & Hrest).
    change (seq (String.length pre) (String.length (String c s)))
      with (String.length pre :: seq (S (String.length pre)) (String.length s)).
    cbn [fold_left]. rewrite Hstep.
    assert (Hnext : str = ((pre ++ String c "") ++ s ++ q)%string)
      by (unfold str; now rewrite append_assoc).
    assert (Hlen : S (String.length pre) = String.length (pre ++ String c ""))
      by (rewrite length_append; simpl; lia).
    rewrite Hlen, Hnext.
    now rewrite (IH (pre ++ String c "")%string q inside' b).
Qed.

(** After a prefix, the loop runs on the rest as it does on the rest
    alone, with indices shifted. *)
Lemma scan_shift p q : forall n k st st',
  insideParens st = insideParens st' ->
  start st = (String.length p + start st')%nat ->
  let r := fold_left (scanAt (p ++ q)) (seq (String.length p + k) n) st in
  let r' := fold_left (scanAt q) (seq k n) st' in
  insideParens r = insideParens r'
  /\ start r = (String.length p + start r')%nat
  /\ exists new, result r = result st ++ new /\ result r' = result st' ++ new.
Proof.
  induction n as [| n IH]; intros k st st' Hin Hstart; cbn zeta.
  - simpl. repeat split; auto. exists []. now rewrite !app_nil_r.
  - cbn [seq fold_left]. rewrite plus_n_Sm.
    set (st1 := scanAt (p ++ q) st (String.length p + k)).
    set (st1' := scanAt q st' k).
    assert (H1 : insideParens st1 = insideParens st1'
                 /\ start st1 = (String.length p + start st1')%nat
                 /\ exists new, result st1 = result st ++ new
                                /\ result st1' = result st' ++ new).
    { unfold st1, st1', scanAt. rewrite get_append_right, Hin.
      set (inside2 := if isChar (String.get k q) "]" then false
                      else if isChar (String.get k q) "[" then true
                           else insideParens st').
      destruct (isChar (String.get k q) "," && negb inside2); simpl.
      - repeat split; [lia |].
        exists [trim (slice q (start st') k)]. split; [| reflexivity].
        unfold slice. rewrite Hstart.
        replace (String.length p + k - (String.length p + start st'))%nat
          with (k - start st')%nat by lia.
        now rewrite substring_append_right.
      - repeat split; [exact Hstart |]. exists []. now rewrite !app_nil_r. }
    destruct H1 as (Hin1 & Hstart1 & new1 & Hres1 & Hres1').
    destruct (IH (S k) st1 st1' Hin1 Hstart1) as (Hin2 & Hstart2 & new2 & Hres2 & Hres2').
    repeat split; [exact Hin2 | exact Hstart2 |].
    exists (new1 ++ new2). rewrite Hres2, Hres2', Hres1, Hres1'.
    now rewrite !app_assoc.
Qed.

(** The loop on [head,tail] ends as the loop on [tail] does, with
    [head] as first item and the indices shifted. *)
Lemma scan_cons head tail :
  bracketsAfter head false = Some false ->
  start (scan (head ++ "," ++ tail))
  = (String.length (head ++ ",") + start (scan tail))%nat
  /\ result (scan (head ++ "," ++ tail)) = trim head :: result (scan tail).
Proof.
  intros Hhead. unfold scan.
  set (p := (head ++ ",")%string).
  assert (Hstr : (head ++ "," ++ tail = p ++ tail)%string)
    by (unfold p; now rewrite append_assoc).
  assert (Hlp : String.length p = S (String.length head))
    by (unfold p; rewrite length_append; simpl; lia).
  rewrite Hstr, length_append.
  assert (Hfirst : fold_left (scanAt (p ++ tail)) (seq 0 (String.length p))
                     (mkScan false [] 0)
                   = mkScan false [trim head] (String.length p)).
  { rewrite Hlp, seq_S, fold_left_app, <- Hstr.
    pose proof (scan_stretch head "" ("," ++ tail) false false (mkScan false [] 0)
                  Hhead eq_refl) as Hscan.
    cbn [String.append String.length Nat.add] in Hscan.
    cbn [String.append Nat.add]. rewrite Hscan. cbn [fold_left result start].
    assert (Hget : String.get (String.length head) (head ++ String "," tail)
                   = Some ","%char).
    { rewrite <- (Nat.add_0_r (String.length head)). now rewrite get_append_right. }
    unfold scanAt. rewrite Hget. simpl. unfold slice.
    now rewrite Nat.sub_0_r, substring_prefix. }
  rewrite seq_app, fold_left_app, Hfirst.
  replace (0 + String.length p)%nat with (String.length p + 0)%nat by lia.
  pose proof (scan_shift p tail (String.length tail) 0
                (mkScan false [trim head] (String.length p)) (mkScan false [] 0)
                eq_refl (eq_sym (Nat.add_0_r _))) as Hshift.
  cbn zeta in Hshift.
  destruct Hshift as (_ & Hstart & new & Hres & Hres').
  cbn [result] in Hres, Hres'. simpl in Hres'.
  split; [exact Hstart |]. now rewrite Hres, Hres'.
Qed.

(** Without a comma outside brackets there is one item, or none. *)
Lemma splitOutsideParens_single str b :
  bracketsAfter str false = Some b ->
  splitOutsideParens str
  = if (String.length str =? 1)%nat then [] else [trim str].
Proof.
  intros Hstr. unfold splitOutsideParens, scan.
  pose proof (scan_stretch str "" "" false b (mkScan false [] 0) Hstr eq_refl) as Hscan.
  cbn [String.append String.length] in Hscan. rewrite append_nil_r in Hscan.
  rewrite Hscan. cbn [result start]. simpl Nat.add.
  destruct (Nat.eqb_spec 1 (String.length str)) as [He | Hne].
  - rewrite <- He. reflexivity.
  - destruct (Nat.eqb_spec (String.length str) 1) as [He | _]; [congruence |].
    simpl. unfold slice. now rewrite Nat.sub_0_r, substring_all.
Qed.

(** X17.  A comma outside brackets ends an item: when [head] has no
    comma outside brackets and closes its brackets, the items of
    [head,tail] are [head], trimmed, and the items of [tail]. *)
Theorem X17_comma_outside_brackets_splits (head tail : string)
    (Hhead : bracketsAfter head false = Some false) :
  splitOutsideParens (head ++ "," ++ tail) = trim head :: splitOutsideParens tail.
Proof.
  destruct (scan_cons head tail Hhead) as (Hstart & Hresult).
  unfold splitOutsideParens. rewrite Hstart, Hresult.
  assert (Hstr : (head ++ "," ++ tail = (head ++ ",") ++ tail)%string)
    by now rewrite append_assoc.
  rewrite Hstr, (length_append (head ++ ",") tail).
  set (p := (head ++ ",")%string). set (r' := scan tail).
  destruct (Nat.eqb_spec (start r' + 1) (String.length tail)) as [He | Hne];
    destruct (Nat.eqb_spec (String.length p + start r' + 1)
                (String.length p + String.length tail)) as [He' | Hne'];
    try lia; [reflexivity |].
  simpl. do 2 f_equal. unfold slice.
  replace (String.length p + String.length tail - (String.length p + start r'))%nat
    with (String.length tail - start r')%nat by lia.
  now rewrite substring_append_right.
Qed.

(** X18.  A string without a comma outside brackets is one item, the
    string trimmed; but a string of one character gives no item at
    all: [start !== str.length - 1] holds of every other length,
    the empty string included. *)
Theorem X18_single_item (str : string)
    (Hstr : bracketsAfter str false <> None) :
  splitOutsideParens str
  = if (String.length str =? 1)%nat then [] else [trim str].
Proof.
  destruct (bracketsAfter str false) as [b |] eqn:Hb; [| contradiction].
  now apply (splitOutsideParens_single str b).
Qed.

(** X19.  An item of one character that ends the order is lost:
    when [head] has no comma outside brackets and closes its brackets,
    and [c] is not a comma, the items of [head,c] are [head] alone. *)
Theorem X19_last_character_is_lost (head : string) (c : ascii)
    (Hhead : bracketsAfter head false = Some false)
    (Hc : c <> ","%char) :
  splitOutsideParens (head ++ "," ++ String c "") = [trim head].
Proof.
  destruct (scan_cons head (String c "") Hhead) as (Hstart & Hresult).
  assert (Hlast : start (scan (String c "")) = 0%nat
                  /\ result (scan (String c "")) = []).
  { unfold scan, scanAt. simpl.
    destruct (Ascii.eqb_spec c ",") as [-> | _]; [contradiction |].
    now split. }
  destruct Hlast as (Hstart' & Hresult').
  unfold splitOutsideParens. rewrite Hstart, Hresult, Hstart', Hresult'.
  assert (Hlen : String.length (head ++ "," ++ String c "")
                 = (String.length (head ++ ",") + 0 + 1)%nat).
  { rewrite !length_append. simpl. lia. }
  now rewrite Hlen, Nat.eqb_refl.
Qed.

End Splitting.

(** X17 to X19 on orders. *)
Lemma X17_comma_outside_brackets_splits_witness :
  Parser.splitOutsideParens "pizza [large, thin], fries and a coke"
  = ["pizza [large, thin]"; "fries and a coke"].
Proof.
  exact (X17_comma_outside_brackets_splits "pizza [large, thin]" " fries and a coke"
           eq_refl).
Defined.

Lemma X18_single_item_witness :
  Parser.splitOutsideParens "x" = [] /\ Parser.splitOutsideParens "" = [""].
Proof.
  split.
  - apply (X18_single_item "x"). discriminate.
  - apply (X18_single_item ""). discriminate.
Defined.

Lemma X19_last_character_is_lost_witness :
  Parser.splitOutsideParens "pizza [large, thin],7" = ["pizza [large, thin]"].
Proof.
  apply (X19_last_character_is_lost "pizza [large, thin]" "7"); [reflexivity | discriminate].
Defined.

(** ** The sanitizers of the stats store *)

Lemma prefix_char d c s : String.prefix (String d "") (String c s) = Ascii.eqb c d.
Proof.
  change (String.prefix (String d "") (String c s))
    with (if ascii_dec d c then String.prefix "" s else false).
  destruct (ascii_dec d c) as [<- | Hne].
  - rewrite Ascii.eqb_refl. now destruct s.
  - symmetry. apply Ascii.eqb_neq. congruence.
Qed.

Lemma prefix_head d p c s :
  Ascii.eqb c d = false -> String.prefix (String d p) (String c s) = false.
Proof.
  intros Hc.
  change (String.prefix (String d p) (String c s))
    with (if ascii_dec d c then String.prefix p s else false).
  destruct (ascii_dec d c) as [<- | Hne]; [| reflexivity].
  now rewrite Ascii.eqb_refl in Hc.
Qed.

Lemma prefix_append p q : String.prefix p (p ++ q) = true.
Proof.
  induction p as [| c p IH]; [now destruct q |].
  change (String.prefix (String c p) (String c p ++ q))
    with (if ascii_dec c c then String.prefix p (p ++ q) else false).
  now destruct (ascii_dec c c).
Qed.

Lemma replace_eq s pattern replacement :
  Stats.replace s pattern replacement
  = if String.prefix pattern s
    then (replacement
          ++ String.substring (String.length pattern)
               (String.length s - String.length pattern) s)%string
    else match s with
         | EmptyString => EmptyString
         | String c rest => String c (Stats.replace rest pattern replacement)
         end.
Proof. now destruct s. Qed.

(** The pattern at the head of the string is the one replaced. *)
Lemma replace_head p q r : Stats.replace (p ++ q) p r = (r ++ q)%string.
Proof.
  rewrite replace_eq, prefix_append, length_append.
  replace (String.length p + String.length q - String.length p)%nat
    with (String.length q) by lia.
  rewrite <- (Nat.add_0_r (String.length p)) at 1.
  now rewrite substring_append_right, substring_all.
Qed.

(** What comes before the first character of the pattern is kept. *)
Lemma replace_after a d p b r :
  allChars (fun c => negb (Ascii.eqb c d)) a = true ->
  Stats.replace (a ++ String d p ++ b) (String d p) r = (a ++ r ++ b)%string.
Proof.
  induction a as [| c a IH]; intros Ha.
  - exact (replace_head (String d p) b r).
  - simpl in Ha. apply andb_true_iff in Ha. destruct Ha as (Hc & Ha).
    apply negb_true_iff in Hc.
    cbn [String.append]. rewrite replace_eq, (prefix_head d p c _ Hc).
    f_equal. exact (IH Ha).
Qed.

Lemma replace_absent s d p r :
  allChars (fun c => negb (Ascii.eqb c d)) s = true ->
  Stats.replace s (String d p) r = s.
Proof.
  induction s as [| c s IH]; intros Hs; [reflexivity |].
  simpl in Hs. apply andb_true_iff in Hs. destruct Hs as (Hc & Hs).
  apply negb_true_iff in Hc.
  rewrite replace_eq, (prefix_head d p c _ Hc). f_equal. exact (IH Hs).
Qed.

(** X20.  [toMongo] replaces the first dot only: what follows the
    first dot of an item's name reaches the key as it is, further
    dots included; a name without a dot is its own key. *)
Theorem X20_toMongo_first_dot_only :
  (forall a b,
      allChars (fun c => negb (Ascii.eqb c ".")) a = true ->
      Stats.toMongo (a ++ "." ++ b) = (a ++ "%PD%" ++ b)%string)
  /\ (forall s,
        allChars (fun c => negb (Ascii.eqb c ".")) s = true ->
        Stats.toMongo s = s).
Proof.
  split.
  - intros a b Ha. exact (replace_after a "." "" b "%PD%" Ha).
  - intros s Hs. exact (replace_absent s "." "" "%PD%" Hs).
Qed.

Lemma X20_toMongo_first_dot_only_witness :
  Stats.toMongo "dr. pepper 0.5l" = "dr%PD% pepper 0.5l"
  /\ Stats.toMongo "fries" = "fries".
Proof.
  destruct X20_toMongo_first_dot_only as (Hdot & Hnone). split.
  - exact (Hdot "dr" " pepper 0.5l" eq_refl).
  - exact (Hnone "fries" eq_refl).
Defined.

(** X21.  The sanitizers are inverse on the names without a percent
    sign: the key of such a name reads back as the name. *)
Theorem X21_sanitizers_round_trip (s : string)
    (Hs : allChars (fun c => negb (Ascii.eqb c "%")) s = true) :
  Stats.fromMongoKey (Stats.toMongo s) = s.
Proof.
  unfold Stats.fromMongoKey, Stats.toMongo.
  induction s as [| c s IH]; [reflexivity |].
  simpl in Hs. apply andb_true_iff in Hs. destruct Hs as (Hc & Hs).
  apply negb_true_iff in Hc.
  rewrite (replace_eq (String c s)), prefix_char.
  destruct (Ascii.eqb_spec c ".") as [-> | Hdot].
  - cbn [String.length String.substring Nat.sub].
    rewrite Nat.sub_0_r, substring_all.
    exact (replace_head "%PD%" s ".").
  - rewrite replace_eq, (prefix_head "%" "PD%" c _ Hc). f_equal. exact (IH Hs).
Qed.

Lemma X21_sanitizers_round_trip_witness :
  Stats.fromMongoKey (Stats.toMongo "dr. pepper") = "dr. pepper".
Proof.
  apply (X21_sanitizers_round_trip "dr. pepper"). reflexivity.
Defined.

(** A name with a percent sign need not read back. *)
Example sanitizers_lose_percent :
  Stats.fromMongoKey (Stats.toMongo "100%PD% juice") = "100. juice".
Proof. reflexivity. Qed.

(** ** What [recordStats] sends *)

Lemma append_inv_head (p a b : string) : (p ++ a = p ++ b)%string -> a = b.
Proof.
  induction p as [| c p IH]; simpl; intros H; [exact H |].
  inversion H. now apply IH.
Qed.

Lemma itemKey_inj restaurant a b :
  Stats.itemKey restaurant a = Stats.itemKey restaurant b
  <-> Stats.toMongo a = Stats.toMongo b.
Proof.
  unfold Stats.itemKey. split; intros H; [| now rewrite H].
  apply (append_inv_head "restaurants.") in H.
  apply append_inv_head in H. now apply (append_inv_head ".items.") in H.
Qed.

Lemma itemKey_dollarsKey restaurant a :
  Stats.dollarsKey restaurant <> Stats.itemKey restaurant a.
Proof.
  unfold Stats.itemKey, Stats.dollarsKey. intros H.
  apply (append_inv_head "restaurants.") in H.
  apply append_inv_head in H. discriminate H.
Qed.

Lemma inject_succ (n : nat) :
  (inject_Z (Z.of_nat n) + 1)%Q = inject_Z (Z.of_nat (S n)).
Proof.
  unfold inject_Z, Qplus. simpl Qnum. simpl Qden. f_equal. lia.
Qed.

Section Changes.

Variable restaurant : string.

(** The count sent for an item ordered [n] times. *)
Local Abbreviation sent :=
  (fun n : nat => match n with
                  | O => None
                  | S _ => Some (Some (inject_Z (Z.of_nat n)))
                  end).

Local Abbreviation countItem :=
  (fun (memo : Object (option Q)) (item : Item) =>
     let key := Stats.itemKey restaurant (fst item) in
     set memo key
       (match get memo key with
        | Some (Some n) => if Qeq_bool n 0 then Some 1%Q else Some (n + 1)%Q
        | _ => Some 1%Q
        end)).

Lemma timesOrdered_app done item itemName :
  timesOrdered (done ++ [item]) itemName
  = (timesOrdered done itemName
     + if String.eqb (Stats.toMongo (fst item)) (Stats.toMongo itemName) then 1 else 0)%nat.
Proof.
  unfold timesOrdered. rewrite filter_app, length_app. simpl.
  now destruct (String.eqb _ _).
Qed.

Lemma counted_items items : forall memo done,
  (forall itemName,
      get memo (Stats.itemKey restaurant itemName) = sent (timesOrdered done itemName)) ->
  (forall key, (forall itemName, key <> Stats.itemKey restaurant itemName) ->
               get memo key = None) ->
  let counted := fold_left countItem items memo in
  (forall itemName,
      get counted (Stats.itemKey restaurant itemName)
      = sent (timesOrdered (done ++ items) itemName))
  /\ (forall key, (forall itemName, key <> Stats.itemKey restaurant itemName) ->
                  get counted key = None).
Proof.
  induction items as [| item items IH]; intros memo done Hcount Hother; cbn zeta.
  - rewrite app_nil_r. now split.
  - cbn [fold_left].
    replace (done ++ item :: items) with ((done ++ [item]) ++ items)
      by now rewrite <- app_assoc.
    apply IH.
    + intros itemName. rewrite timesOrdered_app.
      destruct (String.eqb_spec (Stats.toMongo (fst item)) (Stats.toMongo itemName))
        as [Heq | Hne].
      * assert (Hkey : Stats.itemKey restaurant (fst item)
                       = Stats.itemKey restaurant itemName)
          by now apply itemKey_inj.
        rewrite <- Hkey at 1. rewrite get_set_same, Hkey, Hcount.
        destruct (timesOrdered done itemName) as [| n] eqn:Hn; [reflexivity |].
        rewrite Nat.add_1_r.
        assert (Hpos : Qeq_bool (inject_Z (Z.of_nat (S n))) 0 = false).
        { apply not_true_is_false. intros H. apply Qeq_bool_iff in H.
          unfold Qeq in H. simpl in H. lia. }
        rewrite Hpos. now rewrite inject_succ.
      * rewrite get_set_other, Hcount, Nat.add_0_r; [reflexivity |].
        intros H. apply Hne. symmetry. now apply (itemKey_inj restaurant).
    + intros key Hkey. rewrite get_set_other; [now apply Hother | apply Hkey].
Qed.

(** X22.  The increments [recordStats] sends: for every item name,
    the number of items of the order that share its key, and nothing
    when there is none; the dollars under the restaurant's key, as
    they were passed; and one call exactly when the user is the
    callee. *)
Theorem X22_changes_count_the_items (dollars : option Q) (items : list Item)
    (calls : bool) :
  let changes := Stats.changes restaurant dollars items calls in
  (forall itemName,
      get changes (Stats.itemKey restaurant itemName)
      = match timesOrdered items itemName with
        | O => None
        | S n => Some (Some (inject_Z (Z.of_nat (S n))))
        end)
  /\ get changes (Stats.dollarsKey restaurant) = Some dollars
  /\ get changes "calls" = if calls then Some (Some 1%Q) else None.
Proof.
  cbn zeta. unfold Stats.changes.
  destruct (counted_items items [] []) as (Hcount & Hother);
    [intros itemName; reflexivity | intros key _; reflexivity |].
  cbn zeta in Hcount, Hother. simpl app in Hcount.
  set (counted := fold_left countItem items []) in *.
  assert (Hcalls : forall itemName, "calls" <> Stats.itemKey restaurant itemName)
    by (intros itemName; discriminate).
  assert (Hkeys : "calls" <> Stats.dollarsKey restaurant) by discriminate.
  split; [| split].
  - intros itemName. destruct calls.
    + rewrite get_set_other by (intros H; now apply (Hcalls itemName)).
      rewrite get_set_other by (intros H; now apply (itemKey_dollarsKey restaurant itemName)).
      rewrite Hcount. now destruct (timesOrdered items itemName).
    + rewrite get_set_other by (intros H; now apply (itemKey_dollarsKey restaurant itemName)).
      rewrite Hcount. now destruct (timesOrdered items itemName).
  - destruct calls.
    + rewrite get_set_other by (intros H; now apply Hkeys).
      apply get_set_same.
    + apply get_set_same.
  - destruct calls.
    + apply get_set_same.
    + rewrite get_set_other by exact Hkeys. apply Hother. exact Hcalls.
Qed.

End Changes.

(** X22 on an order of two pizzas and a coke, for the callee. *)
Lemma X22_changes_count_the_items_witness :
  let changes :=
    Stats.changes "Pizza Hut" (Some 30%Q)
      [("pizza", ["large"]); ("coke", []); ("pizza", [])] true in
  get changes (Stats.itemKey "Pizza Hut" "pizza") = Some (Some 2%Q)
  /\ get changes (Stats.itemKey "Pizza Hut" "fries") = None
  /\ get changes (Stats.dollarsKey "Pizza Hut") = Some (Some 30%Q)
  /\ get changes "calls" = Some (Some 1%Q).
Proof.
  destruct (X22_changes_count_the_items "Pizza Hut" (Some 30%Q)
              [("pizza", ["large"]); ("coke", []); ("pizza", [])] true)
    as (Hcount & Hdollars & Hcalls).
  split; [exact (Hcount "pizza") |]. split; [exact (Hcount "fries") |].
  split; [exact Hdollars | exact Hcalls].
Defined.

(** ** The top dishes *)

Lemma descending_app l1 l2 :
  descending (l1 ++ l2)
  <-> descending l1 /\ descending l2
      /\ forall a b, In a l1 -> In b l2 -> (Stats.count b <= Stats.count a)%Q.
Proof.
  unfold descending. induction l1 as [| x l1 IH]; simpl.
  - split.
    + intros H. split; [constructor |]. split; [exact H | intros a b []].
    + now intros (_ & H & _).
  - split.
    + intros H. inversion H as [| ? ? Hsorted Hall]; subst.
      apply IH in Hsorted. destruct Hsorted as (H1 & H2 & H12).
      rewrite Forall_app in Hall. destruct Hall as (Hall1 & Hall2).
      split; [now constructor |]. split; [exact H2 |].
      intros a b [<- | Ha] Hb; [| now apply H12].
      rewrite Forall_forall in Hall2. now apply Hall2.
    + intros (H1 & H2 & H12). inversion H1 as [| ? ? Hsorted Hall]; subst.
      constructor.
      * apply IH. split; [exact Hsorted |]. split; [exact H2 |]. intros a b Ha Hb.
        apply H12; [now right | exact Hb].
      * apply Forall_app. split; [exact Hall |]. apply Forall_forall.
        intros b Hb. apply H12; [now left | exact Hb].
Qed.

Lemma descending_cons d l :
  descending (d :: l)
  <-> descending l /\ forall b, In b l -> (Stats.count b <= Stats.count d)%Q.
Proof.
  change (d :: l) with ([d] ++ l). rewrite descending_app. split.
  - intros (_ & Hl & Hd). split; [exact Hl |]. intros b Hb. apply Hd; [now left | exact Hb].
  - intros (Hl & Hd). split; [repeat constructor |]. split; [exact Hl |].
    intros a b [<- | []] Hb. now apply Hd.
Qed.

Lemma firstn_succ {A : Type} (l : list A) i x :
  nth_error l i = Some x -> firstn (S i) l = firstn i l ++ [x].
Proof.
  revert i. induction l as [| y l IH]; intros [| i] H; simpl in *; try discriminate.
  - now inversion H.
  - f_equal. now apply IH.
Qed.

Lemma skipn_nth {A : Type} (l : list A) i x :
  nth_error l i = Some x -> exists rest, skipn i l = x :: rest.
Proof.
  revert i. induction l as [| y l IH]; intros [| i] H; simpl in *; try discriminate.
  - inversion H. now exists l.
  - now apply IH.
Qed.

(** The three ways the loop of the top dishes ends: the dish is left
    out of a full list, it enters a list with room, or it enters a
    full list and the last dish leaves. *)
Lemma insertFrom_cases n : forall i tops dish,
  (i + n = Stats.N_TOP_DISHES)%nat ->
  (List.length tops <= Stats.N_TOP_DISHES)%nat ->
  (i <= List.length tops)%nat ->
  descending tops ->
  (forall t, In t (firstn i tops) -> (Stats.count dish <= Stats.count t)%Q) ->
  (Stats.insertFrom n i tops dish = tops
   /\ List.length tops = Stats.N_TOP_DISHES
   /\ forall t, In t tops -> (Stats.count dish <= Stats.count t)%Q)
  \/ (exists pre post,
        tops = pre ++ post
        /\ (List.length tops < Stats.N_TOP_DISHES)%nat
        /\ Stats.insertFrom n i tops dish = pre ++ dish :: post
        /\ (forall t, In t pre -> (Stats.count dish <= Stats.count t)%Q)
        /\ (forall t, In t post -> (Stats.count t <= Stats.count dish)%Q))
  \/ (exists pre post last,
        tops = pre ++ post ++ [last]
        /\ List.length tops = Stats.N_TOP_DISHES
        /\ Stats.insertFrom n i tops dish = pre ++ dish :: post
        /\ (forall t, In t pre -> (Stats.count dish <= Stats.count t)%Q)
        /\ (forall t, In t post -> (Stats.count t <= Stats.count dish)%Q)
        /\ (Stats.count last <= Stats.count dish)%Q).
Proof.
  induction n as [| n IH]; intros i tops dish Hn Hlen Hi Hsorted Hpre.
  - left. simpl. assert (Hfull : List.length tops = Stats.N_TOP_DISHES) by lia.
    split; [reflexivity |]. split; [exact Hfull |].
    intros t Ht. apply Hpre. rewrite firstn_all2; [exact Ht | lia].
  - cbn [Stats.insertFrom].
    assert (Hsplit : tops = firstn i tops ++ skipn i tops)
      by (symmetry; apply firstn_skipn).
    assert (Hbetter :
              (forall t, In t (skipn i tops) -> (Stats.count t <= Stats.count dish)%Q) ->
              ((i < List.length tops)%nat -> skipn i tops <> []) ->
              let tops' := Stats.splice tops i dish in
              let kept := if (Stats.N_TOP_DISHES <? List.length tops')%nat
                          then removelast tops' else tops' in
              (exists pre post,
                  tops = pre ++ post
                  /\ (List.length tops < Stats.N_TOP_DISHES)%nat
                  /\ kept = pre ++ dish :: post
                  /\ (forall t, In t pre -> (Stats.count dish <= Stats.count t)%Q)
                  /\ (forall t, In t post -> (Stats.count t <= Stats.count dish)%Q))
              \/ (exists pre post last,
                    tops = pre ++ post ++ [last]
                    /\ List.length tops = Stats.N_TOP_DISHES
                    /\ kept = pre ++ dish :: post
                    /\ (forall t, In t pre -> (Stats.count dish <= Stats.count t)%Q)
                    /\ (forall t, In t post -> (Stats.count t <= Stats.count dish)%Q)
                    /\ (Stats.count last <= Stats.count dish)%Q)).
    { intros Hpost Hsome. cbn zeta. unfold Stats.splice.
      assert (Hlen' : List.length (firstn i tops ++ dish :: skipn i tops)
                      = S (List.length tops)).
      { rewrite length_app. simpl. rewrite <- plus_n_Sm, <- length_app.
        now rewrite firstn_skipn. }
      rewrite Hlen'.
      destruct (Nat.ltb_spec Stats.N_TOP_DISHES (S (List.length tops))) as [Hfull | Hroom].
      - right. assert (Hne : skipn i tops <> []) by (apply Hsome; lia).
        destruct (exists_last Hne) as (post & last & Hlast).
        exists (firstn i tops), post, last. rewrite <- Hlast.
        split; [exact Hsplit |]. split; [lia |]. split.
        + rewrite Hlast.
          replace (firstn i tops ++ dish :: post ++ [last])
            with ((firstn i tops ++ dish :: post) ++ [last])
            by (now rewrite <- app_assoc).
          apply removelast_last.
        + split; [exact Hpre |]. split.
          * intros t Ht. apply Hpost. rewrite Hlast. apply in_or_app. now left.
          * apply Hpost. rewrite Hlast. apply in_or_app. right. now left.
      - left. exists (firstn i tops), (skipn i tops).
        split; [exact Hsplit |]. split; [lia |]. now split. }
    destruct (nth_error tops i) as [t0 |] eqn:Hnth.
    + destruct (gt (Stats.count dish) (Stats.count t0)) eqn:Hgt.
      * right. apply Hbetter.
        -- destruct (skipn_nth tops i t0 Hnth) as (rest & Hrest).
           rewrite Hrest. apply gt_true in Hgt.
           rewrite Hsplit, Hrest in Hsorted.
           apply descending_app in Hsorted. destruct Hsorted as (_ & Hsuffix & _).
           apply descending_cons in Hsuffix. destruct Hsuffix as (_ & Hbelow).
           intros t [<- | Ht]; [now apply Qlt_le_weak |].
           apply Qle_trans with (Stats.count t0); [now apply Hbelow |].
           now apply Qlt_le_weak.
        -- intros _. destruct (skipn_nth tops i t0 Hnth) as (rest & ->). discriminate.
      * apply gt_false in Hgt.
        assert (Hi' : (i < List.length tops)%nat)
          by (apply nth_error_Some; congruence).
        apply IH; [lia | exact Hlen | lia | exact Hsorted |].
        intros t Ht. rewrite (firstn_succ tops i t0 Hnth) in Ht.
        apply in_app_or in Ht. destruct Ht as [Ht | [<- | []]]; [now apply Hpre | exact Hgt].
    + right. apply nth_error_None in Hnth. apply Hbetter.
      * rewrite skipn_all2 by exact Hnth. intros t [].
      * intros Hlt. lia.
Qed.

Lemma bestOf_insert seen tops dish :
  bestOf seen tops -> bestOf (seen ++ [dish]) (Stats.insertDish tops dish).
Proof.
  intros (Hsorted & Hlen & Hsub & Hbest).
  assert (Hlen' : List.length (seen ++ [dish]) = S (List.length seen))
    by (rewrite length_app; simpl; lia).
  unfold Stats.insertDish.
  destruct (insertFrom_cases Stats.N_TOP_DISHES 0 tops dish) as
    [(Hkept & Hfull & Hlow)
    | [(pre & post & Htops & Hroom & Hkept & Hpre & Hpost)
      | (pre & post & last & Htops & Hfull & Hkept & Hpre & Hpost & Hlast)]];
    try (reflexivity || lia || assumption).
  - intros t [].
  - (* the dish is left out *)
    rewrite Hkept. split; [exact Hsorted |]. split; [rewrite Hlen'; lia |]. split.
    + intros t Ht. apply in_or_app. left. now apply Hsub.
    + intros d Hd. apply in_app_or in Hd. destruct Hd as [Hd | [<- | []]].
      * now apply Hbest.
      * right. now split.
  - (* the dish enters a list with room *)
    rewrite Hkept. subst tops.
    apply descending_app in Hsorted. destruct Hsorted as (Hs1 & Hs2 & Hs12).
    split; [| split; [| split]].
    + apply descending_app. split; [exact Hs1 |]. split.
      * apply descending_cons. now split.
      * intros a b Ha [<- | Hb]; [now apply Hpre | now apply Hs12].
    + assert (Hl : List.length (pre ++ dish :: post) = S (List.length (pre ++ post)))
        by (rewrite !length_app; cbn [List.length]; lia).
      rewrite Hl, Hlen'. lia.
    + intros t Ht. apply in_or_app. apply in_app_or in Ht.
      destruct Ht as [Ht | [<- | Ht]].
      * left. apply Hsub. apply in_or_app. now left.
      * right. now left.
      * left. apply Hsub. apply in_or_app. now right.
    + intros d Hd. left. apply in_app_or in Hd. destruct Hd as [Hd | [<- | []]].
      * destruct (Hbest d Hd) as [Hin | (Hfull & _)]; [| lia].
        apply in_or_app. apply in_app_or in Hin.
        destruct Hin as [Hin | Hin]; [now left | right; now right].
      * apply in_or_app. right. now left.
  - (* the dish enters a full list *)
    rewrite Hkept. subst tops.
    apply descending_app in Hsorted. destruct Hsorted as (Hs1 & Hs2 & Hs12).
    apply descending_app in Hs2. destruct Hs2 as (Hs2 & _ & Hs2l).
    assert (Hleaves : forall t, In t (pre ++ dish :: post) ->
                                (Stats.count last <= Stats.count t)%Q).
    { intros t Ht. apply in_app_or in Ht. destruct Ht as [Ht | [<- | Ht]].
      - apply Hs12; [exact Ht |]. apply in_or_app. right. now left.
      - exact Hlast.
      - apply Hs2l; [exact Ht | now left]. }
    assert (Hsame : List.length (pre ++ dish :: post) = Stats.N_TOP_DISHES).
    { rewrite <- Hfull, !length_app. cbn [List.length]. lia. }
    split; [| split; [| split]].
    + apply descending_app. split; [exact Hs1 |]. split.
      * apply descending_cons. now split.
      * intros a b Ha [<- | Hb]; [now apply Hpre |].
        apply Hs12; [exact Ha |]. apply in_or_app. now left.
    + rewrite Hsame, Hlen'. rewrite Hfull in Hlen. lia.
    + intros t Ht. apply in_or_app. apply in_app_or in Ht.
      destruct Ht as [Ht | [<- | Ht]].
      * left. apply Hsub. apply in_or_app. now left.
      * right. now left.
      * left. apply Hsub. apply in_or_app. right. apply in_or_app. now left.
    + intros d Hd. apply in_app_or in Hd. destruct Hd as [Hd | [<- | []]].
      * destruct (Hbest d Hd) as [Hin | (_ & Hlow)].
        -- apply in_app_or in Hin. destruct Hin as [Hin | Hin].
           ++ left. apply in_or_app. now left.
           ++ apply in_app_or in Hin. destruct Hin as [Hin | [<- | []]].
              ** left. apply in_or_app. right. now right.
              ** right. now split.
        -- right. split; [exact Hsame |]. intros t Ht.
           apply Qle_trans with (Stats.count last); [| now apply Hleaves].
           apply Hlow. apply in_or_app. right. apply in_or_app. right. now left.
      * left. apply in_or_app. right. now left.
Qed.

Lemma bestOf_fold dishes : forall seen tops,
  bestOf seen tops -> bestOf (seen ++ dishes) (fold_left Stats.insertDish dishes tops).
Proof.
  induction dishes as [| dish dishes IH]; intros seen tops H; simpl.
  - now rewrite app_nil_r.
  - replace (seen ++ dish :: dishes) with ((seen ++ [dish]) ++ dishes)
      by now rewrite <- app_assoc.
    apply IH. now apply bestOf_insert.
Qed.

Lemma bestOf_nil : bestOf [] [].
Proof.
  split; [constructor |]. split; [reflexivity |]. split; intros t [].
Qed.

(** The reduction over the keys of an object places its dishes one
    by one. *)
Lemma topsOf_fold rest s tops :
  Stats.topsOf rest s tops = fold_left Stats.insertDish (dishesOf rest s) tops.
Proof.
  unfold Stats.topsOf, dishesOf. generalize (keys s) as ks. intros ks. revert tops.
  induction ks as [| k ks IH]; intros tops; simpl; [reflexivity |].
  rewrite fold_left_app, IH. now destruct (get s k).
Qed.

Lemma dishesOf_length rest (s : Object Q) :
  List.length (dishesOf rest s) = List.length s.
Proof.
  unfold dishesOf.
  assert (H : forall ks, (forall k, In k ks -> In k (keys s)) ->
                List.length
                  (flat_map (fun itemName =>
                               match get s itemName with
                               | Some c => [Stats.mkDish itemName c rest]
                               | None => []
                               end) ks)
                = List.length ks).
  { induction ks as [| k ks IH]; intros Hks; simpl; [reflexivity |].
    rewrite length_app, IH by (intros k' Hk'; apply Hks; now right).
    destruct (get_key s k (Hks k (or_introl eq_refl))) as (v & -> & _). reflexivity. }
  rewrite H by auto. unfold keys. now rewrite length_map.
Qed.

Lemma dishesOf_in rest (s : Object Q) d :
  In d (dishesOf rest s)
  <-> In (Stats.itemName d) (keys s)
      /\ get s (Stats.itemName d) = Some (Stats.count d)
      /\ Stats.restaurant d = rest.
Proof.
  unfold dishesOf. rewrite in_flat_map. split.
  - intros (k & Hk & Hd). destruct (get s k) as [c |] eqn:Hget; [| contradiction].
    destruct Hd as [<- | []]. simpl. now repeat split.
  - intros (Hk & Hget & Hrest). exists (Stats.itemName d). split; [exact Hk |].
    rewrite Hget. left. destruct d. simpl in *. now subst.
Qed.

Lemma get_some_key {V : Type} (o : Object V) k v : get o k = Some v -> In k (keys o).
Proof.
  intros H. apply get_some_in in H. unfold keys.
  now apply (in_map fst o (k, v)).
Qed.

Section TopDishes.

Variable stats : list Stats.UserStats.

(** X23.  The top dishes of a user at a restaurant are the best of
    the user's counts there: at most three and as many as there are
    dishes to list, by decreasing count, each a dish of the user with
    its count, and every dish left out has a count no higher than
    those listed. *)
Theorem X23_top_dishes_are_the_best (id restaurant : string) (tops : list Stats.Dish)
    (Hrun : Stats.getTopDishesForRestaurant stats id restaurant = Ok (Some tops)) :
  exists pulled r,
    Stats.findOne stats id = Some pulled
    /\ get (Stats.restaurants pulled) restaurant = Some r
    /\ let s := Stats.fromMongo Stats.fromMongoNumber (Stats.items r) in
       descending tops
       /\ List.length tops = Nat.min 3 (List.length s)
       /\ (forall t, In t tops -> get s (Stats.itemName t) = Some (Stats.count t))
       /\ (forall itemName c, get s itemName = Some c ->
             (exists t, In t tops /\ Stats.itemName t = itemName /\ Stats.count t = c)
             \/ forall t, In t tops -> (c <= Stats.count t)%Q).
Proof.
  unfold Stats.getTopDishesForRestaurant in Hrun.
  destruct (Stats.findOne stats id) as [pulled |] eqn:Hpulled; [| discriminate].
  destruct (get (Stats.restaurants pulled) restaurant) as [r |] eqn:Hr; [| discriminate].
  exists pulled, r. split; [reflexivity |]. split; [exact Hr |].
  cbn zeta in *. inversion Hrun as [Htops]. clear Hrun.
  set (s := Stats.fromMongo Stats.fromMongoNumber (Stats.items r)) in *.
  rewrite topsOf_fold.
  destruct (bestOf_fold (dishesOf None s) [] [] bestOf_nil)
    as (Hsorted & Hlen & Hsub & Hbest).
  simpl app in *. rewrite dishesOf_length in Hlen.
  split; [exact Hsorted |]. split; [exact Hlen |]. split.
  - intros t Ht. now apply Hsub, dishesOf_in in Ht.
  - intros itemName c Hget.
    destruct (Hbest (Stats.mkDish itemName c None)) as [Hin | (_ & Hlow)].
    + apply dishesOf_in. simpl. split; [now apply (get_some_key s itemName c) | now split].
    + left. now exists (Stats.mkDish itemName c None).
    + right. exact Hlow.
Qed.

End TopDishes.

(** X23 on Alice's counts at Pizza Hut: the coke is left out. *)
Lemma X23_top_dishes_are_the_best_witness :
  exists pulled r,
    Stats.findOne Ledger.stats "U1" = Some pulled
    /\ get (Stats.restaurants pulled) "Pizza Hut" = Some r
    /\ descending [Stats.mkDish "dr. pepper" 5 None; Stats.mkDish "pizza" 3 None;
                   Stats.mkDish "fries" 2 None].
Proof.
  destruct (X23_top_dishes_are_the_best Ledger.stats "U1" "Pizza Hut"
              [Stats.mkDish "dr. pepper" 5 None; Stats.mkDish "pizza" 3 None;
               Stats.mkDish "fries" 2 None] eq_refl)
    as (pulled & r & Hpulled & Hr & Hsorted & _).
  now exists pulled, r.
Defined.

Section UserTopDishes.

Variable stats : list Stats.UserStats.

(** The dishes of a user, restaurant by restaurant. *)
Local Abbreviation dishesAt :=
  (fun (s : Object Stats.RestaurantStats) (restaurant : string) =>
     match get s restaurant with
     | Some r => dishesOf (Some restaurant) (Stats.items r)
     | None => []
     end).

Lemma userTops_fold (s : Object Stats.RestaurantStats) ks : forall tops,
  fold_left
    (fun userTops restaurant =>
       match get s restaurant with
       | Some r => Stats.topsOf (Some restaurant) (Stats.items r) userTops
       | None => userTops
       end) ks tops
  = fold_left Stats.insertDish (flat_map (dishesAt s) ks) tops.
Proof.
  induction ks as [| k ks IH]; intros tops; simpl; [reflexivity |].
  rewrite fold_left_app, IH. destruct (get s k); [| reflexivity].
  now rewrite topsOf_fold.
Qed.

(** X24.  The top dishes of a user are taken over all the user's
    restaurants together: one list of at most three dishes by
    decreasing count, each a dish of one of the restaurants with its
    count there, and every dish left out, at whatever restaurant, has
    a count no higher than those listed. *)
Theorem X24_user_tops_span_restaurants (id : string) (tops : list Stats.Dish)
    (Hrun : Stats.getTopDishesForUser stats id = Some tops) :
  exists pulled,
    Stats.findOne stats id = Some pulled
    /\ let s :=
         Stats.fromMongo
           (fun r => Stats.mkRestaurantStats (Stats.fromMongoNumber (Stats.dollars r))
                       (Stats.fromMongo Stats.fromMongoNumber (Stats.items r)))
           (Stats.restaurants pulled) in
       descending tops
       /\ (List.length tops <= 3)%nat
       /\ (forall t, In t tops ->
             exists restaurant r,
               Stats.restaurant t = Some restaurant
               /\ get s restaurant = Some r
               /\ get (Stats.items r) (Stats.itemName t) = Some (Stats.count t))
       /\ (forall restaurant r itemName c,
             get s restaurant = Some r ->
             get (Stats.items r) itemName = Some c ->
             (exists t, In t tops /\ Stats.itemName t = itemName
                        /\ Stats.restaurant t = Some restaurant /\ Stats.count t = c)
             \/ forall t, In t tops -> (c <= Stats.count t)%Q).
Proof.
  unfold Stats.getTopDishesForUser in Hrun.
  destruct (Stats.findOne stats id) as [pulled |] eqn:Hpulled; [| discriminate].
  exists pulled. split; [reflexivity |].
  cbn zeta in *. inversion Hrun as [Htops]. clear Hrun.
  set (s := Stats.fromMongo _ (Stats.restaurants pulled)) in *.
  rewrite userTops_fold.
  destruct (bestOf_fold (flat_map (dishesAt s) (keys s)) [] [] bestOf_nil)
    as (Hsorted & Hlen & Hsub & Hbest).
  simpl app in *.
  split; [exact Hsorted |]. split; [rewrite Hlen; apply Nat.le_min_l |]. split.
  - intros t Ht. apply Hsub, in_flat_map in Ht. destruct Ht as (restaurant & _ & Ht).
    destruct (get s restaurant) as [r |] eqn:Hr; [| contradiction].
    apply dishesOf_in in Ht. destruct Ht as (_ & Hget & Hrest).
    now exists restaurant, r.
  - intros restaurant r itemName c Hr Hget.
    destruct (Hbest (Stats.mkDish itemName c (Some restaurant))) as [Hin | (_ & Hlow)].
    + apply in_flat_map. exists restaurant.
      split; [now apply (get_some_key s restaurant r) |].
      rewrite Hr. apply dishesOf_in. simpl.
      split; [now apply (get_some_key _ itemName c) | now split].
    + left. now exists (Stats.mkDish itemName c (Some restaurant)).
    + right. exact Hlow.
Qed.


End UserTopDishes.

(** X24 on Alice's counts: the calzone of the other restaurant is
    second. *)
Lemma X24_user_tops_span_restaurants_witness :
  exists pulled,
    Stats.findOne Ledger.stats "U1" = Some pulled
    /\ descending [Stats.mkDish "dr. pepper" 5 (Some "Pizza Hut");
                   Stats.mkDish "calzone" 4 (Some "Extreme Pizza");
                   Stats.mkDish "pizza" 3 (Some "Pizza Hut")].
Proof.
  destruct (X24_user_tops_span_restaurants Ledger.stats "U1"
              [Stats.mkDish "dr. pepper" 5 (Some "Pizza Hut");
               Stats.mkDish "calzone" 4 (Some "Extreme Pizza");
               Stats.mkDish "pizza" 3 (Some "Pizza Hut")] eq_refl)
    as (pulled & Hpulled & Hsorted & _).
  now exists pulled.
Defined.


(** ** The names Seamless is given *)

Section SeamlessNames.

Context {W : Type} (env : Env W).
Variable fuel : nat.

(** The two words typed for a user: [name.split(" ")[0]] and
    [name.split(" ")[1]]. *)
Local Abbreviation typedFor :=
  (fun u : User => firstn 2 (split (Users.name u) " ")).

Lemma clearNames_typed n : forall s s',
  Seamless.clearNames env n s = (Ok tt, s') ->
  typedTexts (trace s') = typedTexts (trace s).
Proof.
  induction n as [| n IH]; intros s s' Hrun; simpl in Hrun; [discriminate |].
  unbind Hrun as link s1 Hlink. apply query_inv in Hlink. destruct Hlink as (Ht1 & _).
  destruct link as [h |].
  - unbind Hrun as u2 s2 R2. unbind Hrun as u3 s3 R3.
    apply run_inv in R2, R3. rewrite (IH _ _ Hrun), R3, R2, Ht1, !typedTexts_app.
    simpl. now rewrite !app_nil_r.
  - inversion Hrun; subst. now rewrite Ht1.
Qed.

Lemma seamless_enterNames_typed usernames : forall s s',
  Seamless.enterNames env usernames s = (Ok tt, s') ->
  exists people,
    Forall2 (resolved env) usernames people
    /\ Forall (fun u => (2 <= List.length (split (Users.name u) " "))%nat) people
    /\ typedTexts (trace s') = typedTexts (trace s) ++ flat_map typedFor people.
Proof.
  induction usernames as [| username rest IH]; intros s s' Hrun.
  - inversion Hrun; subst. exists []. split; [constructor |]. split; [constructor |].
    simpl. now rewrite app_nil_r.
  - unfold Seamless.enterNames in Hrun. simpl in Hrun. unbind Hrun as u0 s0 Hbody.
    destruct (IH _ _ Hrun) as (people & Hpeople & Hwords & Htyped). clear IH Hrun.
    unbind Hbody as found t0 Hget. destruct found as [u |]; [| discriminate].
    apply query_inv in Hget. destruct Hget as (Htrace & w' & Hask).
    unbind Hbody as u1 t1 R1. unbind Hbody as u2 t2 R2. unbind Hbody as u3 t3 R3.
    unbind Hbody as u4 t4 R4. unbind Hbody as u5 t5 R5. unbind Hbody as u6 t6 R6.
    unbind Hbody as u7 t7 R7.
    unfold Seamless.typeText in R4, R6.
    destruct (split (Users.name u) " ") as [| first [| second others]] eqn:Hname;
      simpl in R4, R6; try discriminate.
    apply run_inv in R1, R2, R3, R4, R5, R6, R7, Hbody.
    exists (u :: people). split; [| split].
    + constructor; [now exists (world s), w' | exact Hpeople].
    + constructor; [rewrite Hname; simpl; lia | exact Hwords].
    + rewrite Htyped, Hbody, R7, R6, R5, R4, R3, R2, R1, Htrace, !typedTexts_app.
      simpl. rewrite Hname. simpl. now rewrite !app_nil_r, <- !app_assoc.
Qed.

(** X26.  When [fillNames] of Seamless returns, it has typed, for
    each username in order, the first and the second word of the name
    the directory gave for it, and nothing else: a third word of a
    name is not entered, and every name has at least two words, since
    a name of one word makes the step throw. *)
Theorem X26_seamless_types_two_words (usernames : list string) (result : Obj)
    (s s' : PSt W) (out : option Obj)
    (Hrun : Seamless.fillNames env fuel usernames result s = (Ok out, s')) :
  exists people,
    Forall2 (resolved env) usernames people
    /\ Forall (fun u => (2 <= List.length (split (Users.name u) " "))%nat) people
    /\ typedTexts (trace s')
       = typedTexts (trace s)
         ++ flat_map (fun u => firstn 2 (split (Users.name u) " ")) people.
Proof.
  unfold Seamless.fillNames in Hrun.
  unbind Hrun as u1 s1 Hclear. unbind Hrun as u2 s2 Henter. destruct u1, u2.
  apply clearNames_typed in Hclear.
  destruct (seamless_enterNames_typed _ _ _ Henter) as (people & Hpeople & Hwords & Htyped).
  exists people. split; [exact Hpeople |]. split; [exact Hwords |].
  rewrite <- Hclear, <- Htyped.
  unfold Seamless.checkBudget in Hrun. unbind Hrun as amountAllocated s3 Hread.
  apply query_inv in Hread. destruct Hread as (Ht3 & _). rewrite <- Ht3.
  destruct (maxExceeds (max amountAllocated) 25); [| now inversion Hrun].
  destruct (orderAmounts result) as [orderAmounts0 |]; [| discriminate Hrun].
  unbind Hrun as userAt s4 Hat. inversion Hrun; subst.
  unfold Seamless.atUser in Hat. unbind Hat as found s5 Hget.
  apply query_inv in Hget. destruct Hget as (Ht5 & _). rewrite <- Ht5.
  destruct found as [u |]; [| discriminate Hat].
  destruct (String.eqb (Users.slackId u) ""); now inversion Hat.
Qed.

End SeamlessNames.

(** X26 on a calm page: of "Alice Pleasance Liddell" the first two
    words are typed. *)
Lemma X26_seamless_types_two_words_witness :
  let people := fun id : option string =>
    match id with
    | Some "alice" => Some (Users.mkUser "alice" "U1" "Alice Pleasance Liddell" "555-0101")
    | Some "bob" => Some (Users.mkUser "bob" "U2" "Bob Builder" "555-0102")
    | _ => None
    end in
  let env :=
    Fixture.scripted
      (Fixture.mkScript (fun _ => None) Fixture.pizzaElements Fixture.pizzaTexts
         [12%Q] (Some true) 12 (1 # 2) people (fun _ => None)) in
  typedTexts
    (trace (snd (Seamless.fillNames env 3 ["alice"; "bob"] emptyObj Fixture.start)))
  = ["Alice"; "Pleasance"; "Bob"; "Builder"].
Proof.
  intros people env.
  destruct (X26_seamless_types_two_words env 3 ["alice"; "bob"] emptyObj Fixture.start
              (snd (Seamless.fillNames env 3 ["alice"; "bob"] emptyObj Fixture.start))
              None)
    as (found & Hfound & _ & Htyped); [evaluate |].
  rewrite Htyped.
  inversion Hfound as [| ? a ? rest (w1 & w1' & Ha) Hrest]; subst.
  inversion Hrest as [| ? b ? rest' (w2 & w2' & Hb) Hnone]; subst.
  inversion Hnone; subst. inversion Ha; subst. inversion Hb; subst. reflexivity.
Defined.

(** ** One login for a run *)

(** A computation followed by another: the frames compose. *)
Lemma framed_compose {S A B : Type} (R1 R2 R3 : S -> S -> Prop)
    (m : M S A) (k : A -> M S B) :
  (forall s1 s2, R1 s1 s2 -> R3 s1 s2) ->
  (forall s1 s2 s3, R1 s1 s2 -> R2 s2 s3 -> R3 s1 s3) ->
  framed R1 m -> (forall a, framed R2 (k a)) -> framed R3 (bind m k).
Proof.
  intros Hstop Hgo Hm Hk s r s' H. unfold bind in H.
  destruct (m s) as [[a | e] s1] eqn:Hrun.
  - apply (Hgo s s1 s'); [exact (Hm _ _ _ Hrun) | exact (Hk a _ _ _ H)].
  - inversion H; subst. apply Hstop. exact (Hm _ _ _ Hrun).
Qed.

Lemma startsWith_then {W : Type} c (P : Cmd -> Prop) (s1 s2 s3 : PSt W) :
  startsWith c P s1 s2 -> traceOnly P s2 s3 -> startsWith c P s1 s3.
Proof.
  intros (n1 & H1 & P1) (n2 & H2 & P2). exists (n1 ++ n2). split.
  - rewrite H2, H1, <- app_assoc. reflexivity.
  - apply Forall_app. now split.
Qed.

Lemma run_startsWith {W : Type} (env : Env W) c (P : Cmd -> Prop) :
  framed (startsWith c P) (run env c).
Proof.
  intros s r s' H. unfold run in H.
  destruct (exec env c (world s)) as [r0 w]. inversion H.
  exists []. simpl. split; [reflexivity | constructor].
Qed.

Lemma visits_app url t1 t2 : visits url (t1 ++ t2) = (visits url t1 + visits url t2)%nat.
Proof. unfold visits. now rewrite filter_app, length_app. Qed.

Lemma visits_elsewhere url new : Forall (elsewhere url) new -> visits url new = 0%nat.
Proof.
  unfold visits. induction 1 as [| c new Hc _ IH]; [reflexivity |].
  simpl. destruct c; try exact IH.
  destruct (String.eqb_spec url0 url) as [-> | _]; [now contradiction Hc | exact IH].
Qed.

Lemma startsWith_visits {W : Type} url (s s' : PSt W) :
  startsWith (Goto url) (elsewhere url) s s' ->
  visits url (trace s') = S (visits url (trace s)).
Proof.
  intros (new & -> & Hnew). rewrite visits_app.
  change (Goto url :: new) with ([Goto url] ++ new).
  rewrite visits_app, (visits_elsewhere url new Hnew).
  unfold visits at 2. simpl. rewrite String.eqb_refl. simpl. lia.
Qed.

(** A command that is not a navigation, or navigates elsewhere. *)
Ltac off_login := unfold elsewhere; congruence.

Section LoginOnce.

Context {W : Type} (env : Env W) (cfg : Config).
Variable url : string.

Local Abbreviation away := (traceOnly (W := W) (elsewhere url)).

Lemma submit_away restaurant : framed away (submit env cfg restaurant).
Proof. unfold submit. frame_with off_login. Qed.

Variable simplifyOption : string -> string.
Variable atUser : option string -> string.

Lemma grubhub_clickItem_away item itemLinks :
  framed away (Grubhub.clickItem env item itemLinks).
Proof.
  induction itemLinks as [| anchor rest IH]; simpl; frame_with off_login. exact IH.
Qed.

Lemma grubhub_selectOption_away opt optionLinks :
  framed away (Grubhub.selectOption env simplifyOption opt optionLinks).
Proof.
  induction optionLinks as [| input rest IH]; simpl; frame_with off_login. exact IH.
Qed.

Lemma grubhub_steps_away restaurant userOrders step result :
  Grubhub.URLS_setupRest <> url ->
  In step (Grubhub.steps env cfg simplifyOption atUser restaurant userOrders) ->
  framed away (step result).
Proof.
  intros Hurl. unfold Grubhub.steps. simpl.
  intros [<- | [<- | [<- | [<- | []]]]].
  - unfold Grubhub.setupRestaurant. frame_with off_login.
  - unfold Grubhub.fillOrders, caught, Grubhub.addItems. frame_with off_login.
    + apply grubhub_clickItem_away.
    + apply grubhub_selectOption_away.
  - unfold Grubhub.fillNames, Grubhub.enterNames. frame_with off_login.
  - unfold Grubhub.fillPhoneNumber. frame_with off_login.
Qed.

Variable fuel : nat.

Lemma seamless_findRestaurant_away restaurant restLinks : forall ourRest,
  framed away (Seamless.findRestaurant env restaurant restLinks ourRest).
Proof.
  induction restLinks as [| anchor rest IH]; intros ourRest; simpl;
    frame_with off_login. apply IH.
Qed.

Lemma seamless_findItem_away item itemLinks : forall ourItem,
  framed away (Seamless.findItem env item itemLinks ourItem).
Proof.
  induction itemLinks as [| anchor rest IH]; intros ourItem; simpl;
    frame_with off_login. apply IH.
Qed.

Lemma seamless_selectOption_away opt optionLinks :
  framed away (Seamless.selectOption env opt optionLinks).
Proof.
  induction optionLinks as [| input rest IH]; simpl; frame_with off_login. exact IH.
Qed.

Lemma seamless_addOrders_away userOrders : forall orderAmounts,
  framed away (Seamless.addOrders env userOrders orderAmounts).
Proof.
  induction userOrders as [| userOrder rest IH]; intros orderAmounts; simpl;
    frame_with off_login.
  - unfold Seamless.addItem. frame_with off_login.
    + apply seamless_findItem_away.
    + apply seamless_selectOption_away.
  - apply IH.
Qed.

Lemma seamless_clearNames_away n : framed away (Seamless.clearNames env n).
Proof.
  induction n as [| n IH]; simpl; frame_with off_login. exact IH.
Qed.

Lemma seamless_steps_away restaurant userOrders step result :
  Seamless.URLS_chooseTime <> url ->
  In step (Seamless.steps env cfg fuel restaurant userOrders) ->
  framed away (step result).
Proof.
  intros Hurl. unfold Seamless.steps. simpl.
  intros [<- | [<- | [<- | [<- | [<- | []]]]]].
  - unfold Seamless.chooseTime. frame_with off_login.
  - unfold Seamless.chooseRestaurant. frame_with off_login.
    apply seamless_findRestaurant_away.
  - unfold Seamless.fillOrders. frame_with off_login.
    apply seamless_addOrders_away.
  - unfold Seamless.fillNames, Seamless.enterNames, Seamless.checkBudget,
      Seamless.typeText, Seamless.atUser.
    frame_with off_login. apply seamless_clearNames_away.
  - unfold Seamless.fillPhoneNumber. frame_with off_login.
Qed.

End LoginOnce.

Section LoginOnceOfGo.

Context {W : Type} (env : Env W) (cfg : Config).

(** A run whose first command is [c], followed by commands that
    satisfy [P]: the [try] of [go], the handler that only logs, and
    the publication. *)
Lemma go_startsWith {BR : Type} c (P : Cmd -> Prop)
    (login : M (PSt W) unit) (batches : M (RSt W BR) unit) :
  framed (startsWith c P) login ->
  framed (pageTraceOnly P) batches ->
  framed (pageStartsWith c P)
    (resetResults ;; tryCatch (liftP login ;; batches) (fun _ => ret tt) ;; publish).
Proof.
  intros Hlogin Hbatches s r s' H.
  unfold bind at 1, resetResults in H.
  assert (Hrest : framed (pageStartsWith (BR := BR) c P)
                    (tryCatch (liftP login ;; batches) (fun _ => ret tt) ;; publish)).
  { apply (framed_compose (pageStartsWith c P) (pageTraceOnly P)); auto.
    - intros s1 s2 s3 H12 H23. exact (startsWith_then _ _ _ _ _ H12 H23).
    - intros s1 r1 s2 Htry. apply tryCatch_inv in Htry.
      assert (Hbody : framed (pageStartsWith (BR := BR) c P) (liftP login ;; batches)).
      { apply (framed_compose (pageStartsWith c P) (pageTraceOnly P)); auto.
        - intros t1 t2 t3 H12 H23. exact (startsWith_then _ _ _ _ _ H12 H23).
        - intros t1 r2 t2 Hl. unfold liftP in Hl.
          destruct (login (page t1)) as [r0 p] eqn:Hrun. inversion Hl; subst.
          unfold pageStartsWith. simpl. exact (Hlogin _ _ _ Hrun). }
      destruct Htry as [(a & Hrun & _) | (e & s0 & Hrun & Hh)].
      + exact (Hbody _ _ _ Hrun).
      + inversion Hh; subst. exact (Hbody _ _ _ Hrun).
    - intros a. apply publish_page. }
  exact (Hrest _ _ _ H).
Qed.


End LoginOnceOfGo.


(** ** Exact matching on Grubhub *)

Section ExactMatching.

Context {W : Type} (env : Env W).
Variable simplifyOption : string -> string.

(** The page shows a fixed text for every element. *)
Variable texts : Handle -> string.
Hypothesis Htexts : forall h w, ask env (InnerText h) w = (Ok (texts h), w).

(** X28.  On Grubhub an item is found by equality, and the first
    match is the one clicked: [fillOrders] clicks the first menu link
    whose trimmed text is the item, and no other, and goes on whether
    or not the click succeeds; when no link has that text, nothing is
    clicked and the loop still ends without a failure.  The same holds
    of an option and the simplified texts of the option inputs, except
    that a failing click of an option is thrown. *)
Theorem X28_grubhub_first_exact_match :
  (forall item before anchor after s,
      (forall h, In h before -> String.eqb (trim (texts h)) item = false) ->
      String.eqb (trim (texts anchor)) item = true ->
      fst (Grubhub.clickItem env item (before ++ anchor :: after) s) = Ok tt
      /\ trace (snd (Grubhub.clickItem env item (before ++ anchor :: after) s))
         = trace s ++ [ClickElement anchor 1])
  /\ (forall item itemLinks s,
        (forall h, In h itemLinks -> String.eqb (trim (texts h)) item = false) ->
        Grubhub.clickItem env item itemLinks s = (Ok tt, s))
  /\ (forall opt before input after s,
        (forall h, In h before -> String.eqb (simplifyOption (texts h)) opt = false) ->
        String.eqb (simplifyOption (texts input)) opt = true ->
        Grubhub.selectOption env simplifyOption opt (before ++ input :: after) s
        = run env (EvalClickElement input) s)
  /\ (forall opt optionLinks s,
        (forall h, In h optionLinks ->
                   String.eqb (simplifyOption (texts h)) opt = false) ->
        Grubhub.selectOption env simplifyOption opt optionLinks s = (Ok tt, s)).
Proof.
  assert (Hnone : forall item itemLinks s,
             (forall h, In h itemLinks -> String.eqb (trim (texts h)) item = false) ->
             Grubhub.clickItem env item itemLinks s = (Ok tt, s)).
  { intros item. induction itemLinks as [| h rest IH]; intros s Hno; simpl; [reflexivity |].
    rewrite (bind_ok _ _ _ _ _ (query_text env texts Htexts h s)).
    rewrite (Hno h (or_introl eq_refl)). apply IH. intros h' Hh'. apply Hno. now right. }
  assert (Hnone' : forall opt optionLinks s,
             (forall h, In h optionLinks ->
                        String.eqb (simplifyOption (texts h)) opt = false) ->
             Grubhub.selectOption env simplifyOption opt optionLinks s = (Ok tt, s)).
  { intros opt. induction optionLinks as [| h rest IH]; intros s Hno; simpl; [reflexivity |].
    rewrite (bind_ok _ _ _ _ _ (query_text env texts Htexts h s)).
    rewrite (Hno h (or_introl eq_refl)). apply IH. intros h' Hh'. apply Hno. now right. }
  split; [| split; [exact Hnone | split; [| exact Hnone']]].
  - intros item before anchor after. induction before as [| h rest IH]; intros s Hno Hanchor.
    + simpl. rewrite (bind_ok _ _ _ _ _ (query_text env texts Htexts anchor s)).
      rewrite Hanchor. unfold tryCatch, run.
      destruct (exec env (ClickElement anchor 1) (world s)) as [[[] | e] w]; now split.
    + simpl. rewrite (bind_ok _ _ _ _ _ (query_text env texts Htexts h s)).
      rewrite (Hno h (or_introl eq_refl)). apply IH; [| exact Hanchor].
      intros h' Hh'. apply Hno. now right.
  - intros opt before input after. induction before as [| h rest IH]; intros s Hno Hinput.
    + simpl. rewrite (bind_ok _ _ _ _ _ (query_text env texts Htexts input s)).
      now rewrite Hinput.
    + simpl. rewrite (bind_ok _ _ _ _ _ (query_text env texts Htexts h s)).
      rewrite (Hno h (or_introl eq_refl)). apply IH; [| exact Hinput].
      intros h' Hh'. apply Hno. now right.
Qed.

End ExactMatching.

(** X28 on the two-pizzeria page: asked for "Extreme Pizza", the
    second link is clicked; asked for "pizza", none is. *)
Lemma X28_grubhub_first_exact_match_witness :
  let env := Fixture.scripted (Fixture.calm [] (Some true)) in
  trace (snd (Grubhub.clickItem env (Fixture.pizzaTexts 2) [1; 2] Fixture.start))
  = [ClickElement 2 1]
  /\ Grubhub.clickItem env "pizza" [1; 2] Fixture.start = (Ok tt, Fixture.start).
Proof.
  intros env.
  assert (Htexts : forall h w, ask env (InnerText h) w = (Ok (Fixture.pizzaTexts h), w))
    by reflexivity.
  destruct (X28_grubhub_first_exact_match env Fixture.simplifyOption Fixture.pizzaTexts
              Htexts) as (Hfirst & Hnone & _).
  split.
  - apply (Hfirst (Fixture.pizzaTexts 2) [1] 2 [] Fixture.start); [| reflexivity].
    intros h [<- | []]. reflexivity.
  - apply Hnone. intros h [<- | [<- | []]]; reflexivity.
Defined.

(** ** The results of a Seamless run *)

Section SeamlessResults.

Context {W : Type} (env : Env W) (cfg : Config).
Variable fuel : nat.

(** The user of a result without [errors] is the directory's answer
    for the username picked, by a draw, among those of the batch. *)
Local Abbreviation drawnFrom :=
  (fun (userOrders : list Seamless.UserOrder) (callee : User) =>
     exists r,
       (exists w w', ask env Random w = (Ok r, w'))
       /\ (exists w w',
             ask env (GetUser (Seamless.pick (map Seamless.username userOrders) r)) w
             = (Ok (Some callee), w'))).

Lemma seamless_fillPhoneNumber_output usernames s out s' :
  Seamless.fillPhoneNumber env usernames s = (Ok out, s') ->
  exists v, out = Some v
    /\ ((exists e, v = failure true [Text (toString e)])
        \/ exists r callee,
             v = mkObj None None None (Some callee)
             /\ (exists w w', ask env Random w = (Ok r, w'))
             /\ (exists w w', ask env (GetUser (Seamless.pick usernames r)) w
                              = (Ok (Some callee), w'))).
Proof.
  unfold Seamless.fillPhoneNumber. intros H. apply tryCatch_inv in H.
  destruct H as [(a & Hbody & Ha) | (e & s1 & _ & H)].
  - inversion Ha; subst a. clear Ha.
    unbind Hbody as r t1 Hdraw. unbind Hbody as found t2 Hget.
    unbind Hbody as u3 t3 R3. unbind Hbody as u4 t4 R4.
    destruct found as [callee |]; [| discriminate].
    unbind Hbody as u5 t5 R5. unbind Hbody as u6 t6 R6. inversion Hbody; subst.
    apply query_inv in Hdraw, Hget.
    destruct Hdraw as (_ & w1 & Hdraw). destruct Hget as (_ & w2 & Hget).
    eexists. split; [reflexivity |]. right. exists r, callee.
    split; [reflexivity |]. split; eauto.
  - inversion H; subst. eexists. split; [reflexivity |]. left. now exists e.
Qed.

Lemma seamless_attempt_callee restaurant userOrders s o s' :
  Pipeline.attempt (Seamless.steps env cfg fuel restaurant userOrders)
    (submit env cfg restaurant) s = (Ok o, s') ->
  errors o = None ->
  exists callee, user o = Some callee /\ drawnFrom userOrders callee.
Proof.
  rewrite attempt_eq. intros H Ho. apply tryCatch_inv in H.
  destruct H as [(a & H & Ha) | (e & s1 & _ & H)];
    [| inversion H; subst; discriminate Ho].
  inversion Ha; subst a. clear Ha. unfold Seamless.steps in H.
  assert (Hlast : forall result t,
             Pipeline.runSteps (submit env cfg restaurant) None
               [fun _ => Seamless.fillPhoneNumber env (map Seamless.username userOrders)]
               result t = (Ok o, s') ->
             exists callee, user o = Some callee /\ drawnFrom userOrders callee).
  { intros result t Hrun. apply runSteps_success_inv in Hrun; [| exact Ho].
    destruct Hrun as (out & t1 & Hphone & Hrest).
    apply seamless_fillPhoneNumber_output in Hphone. destruct Hphone as (v & -> & Hv).
    destruct Hrest as (Hno & Hrest).
    destruct Hv as [(e & ->) | (r & callee & -> & Hdraw & Hget)]; [discriminate Hno |].
    apply runSteps_nil_inv in Hrest. subst o. simpl. exists callee.
    split; [reflexivity |]. exists r. now split. }
  apply runSteps_success_inv in H; [| exact Ho].
  destruct H as (out1 & s1 & _ & H).
  assert (H1 : exists r1, Pipeline.runSteps (submit env cfg restaurant) None
                 [fun _ => Seamless.chooseRestaurant env restaurant;
                  fun _ => Seamless.fillOrders env userOrders;
                  fun result => Seamless.fillNames env fuel
                                  (map Seamless.username userOrders) result;
                  fun _ => Seamless.fillPhoneNumber env
                             (map Seamless.username userOrders)] r1 s1 = (Ok o, s'))
    by (destruct out1 as [v |]; [destruct H as (_ & H) |]; eauto).
  clear H. destruct H1 as (r1 & H).
  apply runSteps_success_inv in H; [| exact Ho].
  destruct H as (out2 & s2 & _ & H).
  assert (H2 : exists r2, Pipeline.runSteps (submit env cfg restaurant) None
                 [fun _ => Seamless.fillOrders env userOrders;
                  fun result => Seamless.fillNames env fuel
                                  (map Seamless.username userOrders) result;
                  fun _ => Seamless.fillPhoneNumber env
                             (map Seamless.username userOrders)] r2 s2 = (Ok o, s'))
    by (destruct out2 as [v |]; [destruct H as (_ & H) |]; eauto).
  clear H. destruct H2 as (r2 & H).
  apply runSteps_success_inv in H; [| exact Ho].
  destruct H as (out3 & s3 & _ & H).
  assert (H3 : exists r3, Pipeline.runSteps (submit env cfg restaurant) None
                 [fun result => Seamless.fillNames env fuel
                                  (map Seamless.username userOrders) result;
                  fun _ => Seamless.fillPhoneNumber env
                             (map Seamless.username userOrders)] r3 s3 = (Ok o, s'))
    by (destruct out3 as [v |]; [destruct H as (_ & H) |]; eauto).
  clear H. destruct H3 as (r3 & H).
  apply runSteps_success_inv in H; [| exact Ho].
  destruct H as (out4 & s4 & _ & H).
  destruct out4 as [v |]; [destruct H as (_ & H) |]; now apply Hlast in H.
Qed.

Lemma seamless_orderFromRestaurant_callee restaurant userOrders retries : forall s o s',
  Seamless.orderFromRestaurant env cfg fuel restaurant userOrders retries s = (Ok o, s') ->
  errors o = None ->
  exists callee, user o = Some callee /\ drawnFrom userOrders callee.
Proof.
  unfold Seamless.orderFromRestaurant.
  induction retries as [| retries IH]; intros s o s' H Ho.
  - now apply (seamless_attempt_callee restaurant userOrders s o s').
  - rewrite orderFromRestaurant_succ in H.
    destruct (Pipeline.attempt _ _ s) as [[o1 | e] s1] eqn:Hat; [| discriminate].
    destruct (isRetryable o1).
    + now apply (IH s1 o s').
    + inversion H; subst. now apply (seamless_attempt_callee restaurant userOrders s o s').
Qed.

(** What a result says of its batch. *)
Local Abbreviation tells :=
  (fun (orderSet : Seamless.OrderSet) (b : Seamless.BatchResult) =>
     match b with
     | Seamless.Failed restaurant users _ =>
         restaurant = Seamless.restaurant orderSet
         /\ users = Seamless.users orderSet
     | Seamless.Succeeded restaurant userCall confirmationUrl =>
         restaurant = Seamless.restaurant orderSet
         /\ confirmationUrl = confirmationUrlOf restaurant
         /\ exists callee,
              userCall = Users.username callee
              /\ drawnFrom (Seamless.users orderSet) callee
     end).

Lemma seamless_processOrderSet_tells (P : Seamless.BatchResult -> Prop) orderSet :
  (forall b, tells orderSet b -> P b) ->
  framed (resultsOnly P) (Seamless.processOrderSet env cfg fuel orderSet).
Proof.
  intros HP. unfold Seamless.processOrderSet.
  apply framed_bind; [typeclasses eauto | apply liftP_resultsOnly |].
  intros orderResult s s1 Hrun.
  apply framed_bind; [typeclasses eauto | | intros; apply liftP_resultsOnly].
  destruct (errors orderResult) as [errs |] eqn:Herr.
  { apply push_resultsOnly, HP. simpl. now split. }
  destruct (user orderResult) as [callee |] eqn:Huser;
    [| apply framed_throw; typeclasses eauto].
  assert (Hdrawn : drawnFrom (Seamless.users orderSet) callee).
  { unfold liftP in Hrun.
    destruct (Seamless.orderFromRestaurant env cfg fuel
                (Seamless.restaurant orderSet) (Seamless.users orderSet)
                INITIAL_RETRIES (page s)) as [r p] eqn:Hpipe.
    inversion Hrun; subst.
    destruct (seamless_orderFromRestaurant_callee _ _ _ _ _ _ Hpipe Herr)
      as (c & Hc & Hdrawn).
    rewrite Huser in Hc. inversion Hc; subst c. exact Hdrawn. }
  apply framed_bind; [typeclasses eauto | |].
  { apply push_resultsOnly, HP. simpl. split; [reflexivity |].
    split; [reflexivity |]. now exists callee. }
  intros _ _ _ _.
  destruct (negb (DRY_RUN cfg)); [| apply framed_ret; typeclasses eauto].
  apply framed_promiseAll; [typeclasses eauto |].
  intros m Hm. apply in_map_iff in Hm. destruct Hm as (o & <- & _).
  destruct (orderAmounts orderResult);
    [apply call_resultsOnly | apply framed_throw; typeclasses eauto].
Qed.

(** X29.  Every result a Seamless run publishes belongs to one of its
    batches.  A failure lists the users of the batch.  A success has
    the confirmation URL made from the restaurant's name, and names as
    [userCall] the username in the directory's record of a user of the
    batch, when the draws of [Math.random] lie in [0, 1) and the batch
    has a user. *)
Theorem X29_seamless_results_describe_batches
    (Hrandom : forall w r w', ask env Random w = (Ok r, w') -> (0 <= r)%Q /\ (r < 1)%Q)
    (orderSets : list Seamless.OrderSet) (s : RSt W Seamless.BatchResult)
    (b : Seamless.BatchResult)
    (Hin : In b (results (snd (Seamless.go env cfg fuel orderSets s)))) :
  exists orderSet,
    In orderSet orderSets
    /\ match b with
       | Seamless.Failed restaurant users _ =>
           restaurant = Seamless.restaurant orderSet
           /\ users = Seamless.users orderSet
       | Seamless.Succeeded restaurant userCall confirmationUrl =>
           restaurant = Seamless.restaurant orderSet
           /\ confirmationUrl = confirmationUrlOf restaurant
           /\ (Seamless.users orderSet = []
               \/ exists o callee,
                    In o (Seamless.users orderSet)
                    /\ resolved env (Seamless.username o) callee
                    /\ userCall = Users.username callee)
       end.
Proof.
  set (P := fun b => exists orderSet, In orderSet orderSets /\ tells orderSet b).
  assert (Hord : framed (resultsOnly P) (Seamless.ordering env cfg fuel orderSets)).
  { unfold Seamless.ordering.
    apply framed_bind; [typeclasses eauto | apply liftP_resultsOnly |].
    intros _ _ _ _. apply framed_forEach; [typeclasses eauto |].
    intros orderSet Hset. apply seamless_processOrderSet_tells.
    intros b0 Hb0. now exists orderSet. }
  set (s0 := mkRSt (page s) (calls s) [] (published s)).
  destruct (Seamless.ordering env cfg fuel orderSets s0) as [r s1] eqn:Hrun.
  assert (Hs' : results (snd (Seamless.go env cfg fuel orderSets s)) = results s1).
  { unfold Seamless.go, bind, resetResults, tryCatch, publish, ret.
    fold s0. rewrite Hrun. now destruct r as [[] | e]. }
  rewrite Hs' in Hin. destruct (Hord _ _ _ Hrun) as (new & Hnew & Hall).
  simpl in Hnew. rewrite Hnew in Hin. rewrite Forall_forall in Hall.
  destruct (Hall _ Hin) as (orderSet & Hset & Hb).
  exists orderSet. split; [exact Hset |].
  destruct b as [restaurant users errs | restaurant userCall confirmationUrl];
    [exact Hb |].
  destruct Hb as (Hrest & Hurl & callee & Hcall & r0 & (w1 & w1' & Hdraw) & Hget).
  split; [exact Hrest |]. split; [exact Hurl |].
  destruct (Seamless.users orderSet) as [| o0 others] eqn:Husers; [now left |].
  right. destruct (Hrandom _ _ _ Hdraw) as (H0 & H1).
  destruct (pick_in (map Seamless.username (o0 :: others)) r0) as (id & Hpick & Hid);
    auto; [discriminate |].
  change (Seamless.pick (map Seamless.username (o0 :: others)) r0)
    with (Grubhub.pick (map Seamless.username (o0 :: others)) r0) in Hget.
  rewrite Hpick in Hget. apply in_map_iff in Hid. destruct Hid as (o & <- & Ho).
  exists o, callee. split; [exact Ho |]. split; [exact Hget | exact Hcall].
Qed.

End SeamlessResults.

(** X29 on a calm page: the batch of Alice and Bob succeeds and calls
    one of them. *)
Lemma X29_seamless_results_describe_batches_witness :
  let env := Fixture.scripted (Fixture.calm [12%Q] (Some true)) in
  let batch := Seamless.mkOrderSet "Pizza" [Fixture.lunch1; Fixture.lunch2] in
  exists orderSet,
    In orderSet [batch]
    /\ (Seamless.users orderSet = []
        \/ exists o callee,
             In o (Seamless.users orderSet)
             /\ resolved env (Seamless.username o) callee
             /\ "bob" = Users.username callee).
Proof.
  intros env batch.
  assert (Hrandom : forall w r w',
             ask env Random w = (Ok r, w') -> (0 <= r)%Q /\ (r < 1)%Q).
  { intros w r w' H. inversion H. split; unfold Qle, Qlt; simpl; lia. }
  destruct (X29_seamless_results_describe_batches env Fixture.cfg 3 Hrandom [batch]
              Fixture.startRun
              (Seamless.Succeeded "Pizza" "bob"
                 "https://alfred.ajay-gandhi.com/confirmations/pizza.pdf"))
    as (orderSet & Hset & _ & _ & Hcallee).
  - vm_compute. now left.
  - exists orderSet. now split.
Defined.
